(** * skill-icons: the build script and the release script

    A shallow embedding of [scripts/build.js] (icon loader and component
    emitter) and of the release script (version bump, changelog, tag,
    publish, rollback), with the properties stated about them.

    Text is a sequence of 8-bit characters ([list ascii]); the regular
    expressions of the scripts are run by a small backtracking matcher
    that follows the ECMAScript priorities (leftmost start, greedy before
    lazy, first alternative first). *)

From Stdlib Require Import Ascii String ZArith Lia Bool.
From stdpp Require Import gmap strings list.

Local Open Scope list_scope.

(** ** Characters and text *)

Abbreviation text := (list ascii).

Definition txt (s : string) : text := list_ascii_of_string s.

Definition ch_eqb (a b : ascii) : bool := Ascii.eqb a b.

(** [\s] over 8-bit characters: TAB, LF, VT, FF, CR, space and NBSP. *)
Definition is_space (c : ascii) : bool :=
  let n := nat_of_ascii c in
  ((9 <=? n) && (n <=? 13)) || (n =? 32) || (n =? 160).

(** Line terminators, for [$] under the [m] flag and for [.]. *)
Definition is_line_terminator (c : ascii) : bool :=
  let n := nat_of_ascii c in (n =? 10) || (n =? 13).

(** The double quote and the single quote, by their codes. *)
Definition dq : ascii := ascii_of_nat 34.
Definition sq : ascii := ascii_of_nat 39.

Definition any_char (_ : ascii) : bool := true.
Definition dot (c : ascii) : bool := negb (is_line_terminator c).
Definition is_not (x : ascii) (c : ascii) : bool := negb (ch_eqb c x).
Definition one_of (xs : text) (c : ascii) : bool := existsb (ch_eqb c) xs.

(** [pat] occurs somewhere in [s]. *)
Definition occurs (pat s : text) : Prop := exists a b, s = a ++ pat ++ b.

(** No character of [s] is [x]. *)
Definition free_of (x : ascii) (s : text) : Prop :=
  Forall (fun c => is_not x c = true) s.

(** [s] does not begin with a character of the class [p]. *)
Definition no_head (p : ascii -> bool) (s : text) : Prop :=
  match s with [] => True | c :: _ => p c = false end.

(** The first character of [s] is in the class [p]. *)
Definition head_is (p : ascii -> bool) (s : text) : bool :=
  match s with [] => false | c :: _ => p c end.

Fixpoint starts_with (t s : text) : bool :=
  match t, s with
  | [], _ => true
  | a :: t', b :: s' => ch_eqb a b && starts_with t' s'
  | _ :: _, [] => false
  end.

(** [pat] occurs somewhere in [s], as a test. *)
Fixpoint occursb (pat s : text) : bool :=
  starts_with pat s
  || match s with
     | [] => false
     | _ :: s' => occursb pat s'
     end.

(** ** Regular expressions *)

Module Regex.

(** The fragment the scripts use: quantifiers apply to one character class
    ([Rep]) or are [?] on a sub-expression ([Opt]). *)
Inductive re : Type :=
  | Lit (t : text)                                (* literal characters *)
  | Cls (p : ascii -> bool)                       (* one character of a class *)
  | Rep (greedy : bool) (lo : nat) (p : ascii -> bool)  (* p* p+ p*? p+? *)
  | Opt (r : re)                                  (* r? *)
  | Cap (i : nat) (r : re)                        (* capture group i *)
  | Cat (r1 r2 : re)
  | Alt (r1 r2 : re)
  | Eoi                                           (* $ without the m flag *)
  | Eol                                           (* $ with the m flag *)
  | Bref (i : nat).                               (* back reference \i *)

Definition caps := list (nat * text).

Fixpoint cap_get (i : nat) (cs : caps) : option text :=
  match cs with
  | [] => None
  | (j, t) :: cs' => if Nat.eqb i j then Some t else cap_get i cs'
  end.

Definition result : Type := text * caps.

Section Repeat.
Variable p : ascii -> bool.
Variable k : text -> option result.

(** Greedy: take a character if possible, fall back to stopping here. *)
Fixpoint rep_greedy (lo : nat) (s : text) : option result :=
  let stop := if Nat.eqb lo 0 then k s else None in
  match s with
  | c :: s' =>
      if p c then
        match rep_greedy (Nat.pred lo) s' with
        | Some r => Some r
        | None => stop
        end
      else stop
  | [] => stop
  end.

(** Lazy: stop here if the rest matches, otherwise take a character. *)
Fixpoint rep_lazy (lo : nat) (s : text) : option result :=
  match (if Nat.eqb lo 0 then k s else None) with
  | Some r => Some r
  | None =>
      match s with
      | c :: s' => if p c then rep_lazy (Nat.pred lo) s' else None
      | [] => None
      end
  end.
End Repeat.

(** Backtracking matcher in continuation-passing style: [m r s cs k] matches
    [r] at the head of [s] and hands the rest of the input to [k]. *)
Fixpoint m (r : re) (s : text) (cs : caps)
    (k : text -> caps -> option result) : option result :=
  match r with
  | Lit t => if starts_with t s then k (drop (length t) s) cs else None
  | Cls p =>
      match s with
      | c :: s' => if p c then k s' cs else None
      | [] => None
      end
  | Rep g lo p =>
      (if g then rep_greedy else rep_lazy) p (fun s' => k s' cs) lo s
  | Opt r1 =>
      match m r1 s cs k with
      | Some x => Some x
      | None => k s cs
      end
  | Cap i r1 =>
      m r1 s cs (fun s' cs' => k s' ((i, take (length s - length s') s) :: cs'))
  | Cat r1 r2 => m r1 s cs (fun s' cs' => m r2 s' cs' k)
  | Alt r1 r2 =>
      match m r1 s cs k with
      | Some x => Some x
      | None => m r2 s cs k
      end
  | Eoi => match s with [] => k s cs | _ :: _ => None end
  | Eol =>
      match s with
      | [] => k s cs
      | c :: _ => if is_line_terminator c then k s cs else None
      end
  | Bref i =>
      match cap_get i cs with
      | Some t => if starts_with t s then k (drop (length t) s) cs else None
      | None => k s cs
      end
  end.

(** A match starting exactly at the head of [s]: the input left after the
    match and the captures. *)
Definition accept : text -> caps -> option result :=
  fun s cs => Some (s, cs).

Definition match_here (r : re) (s : text) : option result :=
  m r s [] accept.

(** [RegExp.prototype.exec] from index 0: the text skipped before the
    leftmost match, the text after it, and the captures. *)
Fixpoint exec (r : re) (s : text) : option (text * text * caps) :=
  match match_here r s with
  | Some (rest, cs) => Some ([], rest, cs)
  | None =>
      match s with
      | [] => None
      | c :: s' =>
          match exec r s' with
          | Some (skipped, rest, cs) => Some (c :: skipped, rest, cs)
          | None => None
          end
      end
  end.

(** Replacement patterns: literal text and [$i]. *)
Inductive piece : Type :=
  | PLit (t : text)
  | PGrp (i : nat).

Fixpoint subst (tmpl : list piece) (cs : caps) : text :=
  match tmpl with
  | [] => []
  | PLit t :: tmpl' => t ++ subst tmpl' cs
  | PGrp i :: tmpl' => default [] (cap_get i cs) ++ subst tmpl' cs
  end.

(** [String.prototype.replace] with a regular expression without the [g]
    flag: the leftmost match only; the replacement is computed from the
    captures (a replacer function) or is a pattern. *)
Definition replace_first_with (r : re) (f : caps -> text) (s : text) : text :=
  match exec r s with
  | Some (skipped, rest, cs) => skipped ++ f cs ++ rest
  | None => s
  end.

Definition replace_first (r : re) (tmpl : list piece) (s : text) : text :=
  replace_first_with r (subst tmpl) s.

(** With the [g] flag: every match, left to right; after an empty match the
    search moves one character forward. *)
Fixpoint replace_all_fuel (fuel : nat) (r : re) (tmpl : list piece)
    (s : text) : text :=
  match fuel with
  | 0 => s
  | S fuel' =>
      let step :=
        match s with
        | [] => []
        | c :: s' => c :: replace_all_fuel fuel' r tmpl s'
        end in
      match match_here r s with
      | Some (rest, cs) =>
          if length rest <? length s
          then subst tmpl cs ++ replace_all_fuel fuel' r tmpl rest
          else subst tmpl cs ++ step
      | None => step
      end
  end.

Definition replace_all (r : re) (tmpl : list piece) (s : text) : text :=
  replace_all_fuel (S (length s)) r tmpl s.

(** [String.prototype.replace] with a string pattern: the first occurrence. *)
Definition replace_string (pat by_ : text) (s : text) : text :=
  replace_first (Lit pat) [PLit by_] s.

(** The pattern matches at none of the first [n] positions of [s]. *)
Definition no_match_before (r : re) (n : nat) (s : text) : bool :=
  forallb (fun i => match match_here r (drop i s) with
                    | Some _ => false
                    | None => true
                    end) (seq 0 n).

End Regex.

(** ** The build script, [scripts/build.js] *)

Module Build.
Import Regex.

Inductive module_format : Type := Esm | Cjs.

Definition format_name (f : module_format) : text :=
  match f with Esm => txt "esm" | Cjs => txt "cjs" end.

(** A thrown JavaScript value, by its message. *)
Inductive exn : Type :=
  | Thrown (msg : text).

Definition quote_char : ascii -> bool := one_of [dq; sq].

Fixpoint cat (rs : list re) : re :=
  match rs with
  | [] => Lit []
  | [r] => r
  | r :: rs' => Cat r (cat rs')
  end.

(** An attribute with a double-quoted value. *)
Definition attribute (name value : text) : text :=
  name ++ txt "=" ++ [dq] ++ value ++ [dq].

(** The pattern of [getIcons]: a literal [.svg] at the end of the input. *)
Definition re_svg_ext : re := cat [Lit (txt ".svg"); Eoi].

(** The two patterns of [transforms.vue], by the attribute name ([width]
    or [height]): [<svg], group 1 = any characters but [>], white space,
    the name, [=], a double-quoted value, group 2 = any characters but
    [>], then [>]. Both carry the [g] flag. *)
Definition re_dimension (name : text) : re :=
  cat [ Lit (txt "<svg"); Cap 1 (Rep true 0 (is_not ">"));
        Rep true 1 is_space; Lit (name ++ txt "=" ++ [dq]);
        Rep true 0 (is_not dq); Lit [dq];
        Cap 2 (Rep true 0 (is_not ">")); Lit (txt ">") ].

(** The attribute name with the equals sign and the opening quote, and
    the part of the pattern after the first group. *)
Definition key (name : text) : text := name ++ txt "=" ++ [dq].

Definition re_tail (name : text) : re :=
  cat [ Rep true 1 is_space; Lit (key name); Rep true 0 (is_not dq); Lit [dq];
        Cap 2 (Rep true 0 (is_not ">")); Lit (txt ">") ].

Definition tmpl_dimension (name : text) : list piece :=
  [ PLit (txt "<svg"); PGrp 1;
    PLit (txt " " ++ name ++ txt "=" ++ [dq] ++ txt "1em" ++ [dq]);
    PGrp 2; PLit (txt ">") ].

(** The text handed to the Vue template compiler. *)
Definition force_1em (svg : text) : text :=
  replace_all (re_dimension (txt "height")) (tmpl_dimension (txt "height"))
    (replace_all (re_dimension (txt "width")) (tmpl_dimension (txt "width")) svg).

(** *** Markup, as the statement about the dimensions speaks of it

    An [svg] start tag is a list of attributes, each with the white space
    before it, its name and its double-quoted value, and what stands
    before the closing [>] (white space, a slash). A document is text
    without [<svg], an [svg] tag, more text, and so on. *)

Record attr : Type := { a_space : text; a_name : text; a_value : text }.

Definition render_attr (a : attr) : text :=
  a_space a ++ attribute (a_name a) (a_value a).

Definition render_attrs (attrs : list attr) : text :=
  concat (map render_attr attrs).

Record svg_tag : Type := { t_attrs : list attr; t_end : text }.

Definition render_tag (t : svg_tag) : text :=
  txt "<svg" ++ render_attrs (t_attrs t) ++ t_end t ++ txt ">".

Fixpoint render (doc : list (text * svg_tag)) (last : text) : text :=
  match doc with
  | [] => last
  | (pre, t) :: doc' => pre ++ render_tag t ++ render doc' last
  end.

(** [target] is the name [name]. *)
Definition named (name target : text) : bool :=
  starts_with target name && Nat.eqb (length target) (length name).

Definition is_dimension (name : text) : bool :=
  named (txt "width") name || named (txt "height") name.

Definition has_name (name : text) (attrs : list attr) : bool :=
  existsb (fun a => named name (a_name a)) attrs.

(** The attribute with the value [1em], after one space. *)
Definition one_em (a : attr) : attr :=
  {| a_space := removelast (a_space a) ++ txt " ";
     a_name := a_name a;
     a_value := txt "1em" |}.

(** The last attribute called [name], if there is one, gets [1em]. *)
Fixpoint set_1em (name : text) (attrs : list attr) : list attr :=
  match attrs with
  | [] => []
  | a :: rest =>
      if has_name name rest then a :: set_1em name rest
      else if named name (a_name a) then one_em a :: rest
      else a :: rest
  end.

Definition set_tag (name : text) (t : svg_tag) : svg_tag :=
  {| t_attrs := set_1em name (t_attrs t); t_end := t_end t |}.

Definition set_dimensions (t : svg_tag) : svg_tag :=
  set_tag (txt "height") (set_tag (txt "width") t).

Definition rewritten (doc : list (text * svg_tag)) : list (text * svg_tag) :=
  map (fun p => (fst p, set_dimensions (snd p))) doc.

(** Every [width] and [height] attribute gets [1em]: what [set_1em] does
    twice when a tag has at most one of each. *)
Definition all_dimensions_1em (attrs : list attr) : list attr :=
  map (fun a => if is_dimension (a_name a) then one_em a else a) attrs.

Fixpoint at_most_once (name : text) (attrs : list attr) : bool :=
  match attrs with
  | [] => true
  | a :: rest =>
      negb (named name (a_name a) && has_name name rest)
      && at_most_once name rest
  end.

(** What makes markup well formed for the rewrite. An attribute is plain
    when white space stands before it, its name has no white space and
    none of [=], [<], [>] and the double quote, and its value has no
    double quote and no [<]. *)
Definition plain_attr (a : attr) : bool :=
  negb (Nat.eqb (length (a_space a)) 0)
  && forallb is_space (a_space a)
  && forallb (fun c => negb (is_space c)
                       && negb (one_of (txt "=<>" ++ [dq]) c)) (a_name a)
  && forallb (fun c => negb (one_of (txt "<" ++ [dq]) c)) (a_value a).

(** No [>] in a value up to the last attribute called [name]. *)
Fixpoint gt_free_to (name : text) (attrs : list attr) : bool :=
  match attrs with
  | [] => true
  | a :: rest =>
      (negb (has_name name (a :: rest)) || forallb (is_not ">") (a_value a))
      && gt_free_to name rest
  end.

(** A value that, read with its closing quote, ends like the start of an
    attribute called [name]: white space, the name, [=]. *)
Definition ends_like (name value : text) : bool :=
  starts_with (rev (name ++ txt "=")) (rev value)
  && head_is is_space (drop (length (name ++ txt "=")) (rev value)).

(** No such value from the last attribute called [name] on, nor in a tag
    without such an attribute. *)
Fixpoint no_fake (name : text) (attrs : list attr) : bool :=
  match attrs with
  | [] => true
  | a :: rest =>
      (has_name name rest || negb (ends_like name (a_value a)))
      && no_fake name rest
  end.

Definition plain_end (tend : text) : bool :=
  forallb (fun c => is_space c || ch_eqb c "/") tend.

(** What the rewrite of the attribute [name] needs of a tag. *)
Definition ready (name : text) (t : svg_tag) : bool :=
  forallb plain_attr (t_attrs t)
  && gt_free_to name (t_attrs t)
  && no_fake name (t_attrs t)
  && plain_end (t_end t).

Definition well_formed_tag (t : svg_tag) : bool :=
  ready (txt "width") t && ready (txt "height") t.

Fixpoint well_formed (doc : list (text * svg_tag)) (last : text) : bool :=
  match doc with
  | [] => negb (occursb (txt "<svg") last)
  | (pre, t) :: doc' =>
      negb (occursb (txt "<svg") pre)
      && well_formed_tag t
      && well_formed doc' last
  end.

(** The two rewrites of [transforms.react] for the cjs format. The first
    (flag [g]): [Object.defineProperty(exports,], white space, a quoted
    [default], a comma, white space, a brace, lazily any characters up to
    the first [})], an optional semicolon and white space. The second
    (flag [m], no [g]): [const _default = ] with group 1 = one or more
    characters but [;], an optional semicolon, white space, end of line. *)
Definition re_define_default : re :=
  cat [ Lit (txt "Object.defineProperty(exports,"); Rep true 0 is_space;
        Cls quote_char; Lit (txt "default"); Cls quote_char; Lit (txt ",");
        Rep true 0 is_space; Lit (txt "{"); Rep false 0 any_char;
        Lit (txt "})"); Opt (Lit (txt ";")); Rep true 0 is_space ].

Definition re_const_default : re :=
  cat [ Lit (txt "const"); Rep true 1 is_space; Lit (txt "_default");
        Rep true 0 is_space; Lit (txt "="); Rep true 0 is_space;
        Cap 1 (Rep true 1 (is_not ";")); Opt (Lit (txt ";"));
        Rep true 0 is_space; Eol ].

Definition tmpl_module_exports : list piece :=
  [ PLit (txt "module.exports = "); PGrp 1; PLit (txt ";") ].

Definition strip_define_default (code : text) : text :=
  replace_all re_define_default [] code.

Definition rewrite_const_default (code : text) : text :=
  replace_first re_const_default tmpl_module_exports code.

(** The two statements as the transpiler prints them: the definition of
    the [default] property with the body of its descriptor, and the
    assignment of the exported expression; each with the white space that
    follows it. *)
Definition define_default_statement (body ws : text) : text :=
  txt "Object.defineProperty(exports, " ++ [dq] ++ txt "default" ++ [dq]
  ++ txt ", {" ++ body ++ txt "});" ++ ws.

Definition const_default_statement (e ws : text) : text :=
  txt "const _default = " ++ e ++ txt ";" ++ ws.

Definition module_exports_statement (e : text) : text :=
  txt "module.exports = " ++ e ++ txt ";".

(** Compiled text with any number of definitions of the [default]
    property: each part is the text before a definition, the body of its
    descriptor and the white space after it; [last] is the text after the
    last definition. And the same text with the definitions left out. *)
Fixpoint with_definitions (parts : list (text * text * text)) (last : text)
    : text :=
  match parts with
  | [] => last
  | (pre, body, ws) :: parts' =>
      pre ++ define_default_statement body ws ++ with_definitions parts' last
  end.

Fixpoint without_definitions (parts : list (text * text * text)) (last : text)
    : text :=
  match parts with
  | [] => last
  | (pre, _, _) :: parts' => pre ++ without_definitions parts' last
  end.

(** The parts are what they are said to be: the first pattern matches
    nowhere inside the text before a definition nor inside [last], a body
    does not close its descriptor early, and the white space after a
    definition is all the white space there is. *)
Fixpoint strippable (parts : list (text * text * text)) (last : text) : bool :=
  match parts with
  | [] => no_match_before re_define_default (S (length last)) last
  | (pre, body, ws) :: parts' =>
      no_match_before re_define_default (length pre)
        (pre ++ define_default_statement body ws ++ with_definitions parts' last)
      && negb (occursb (txt "})") (body ++ txt "}"))
      && forallb is_space ws
      && negb (head_is is_space (with_definitions parts' last))
      && strippable parts' last
  end.

(** The text after the assignment and its white space: nothing, or a line
    terminator that is the last one before the next character that is not
    white space. *)
Fixpoint stops_line (s : text) : bool :=
  match s with
  | [] => false
  | c :: s' =>
      if is_space c then negb (is_line_terminator c) && stops_line s'
      else true
  end.

Definition at_line_end (after : text) : bool :=
  match after with
  | [] => true
  | c :: s => is_line_terminator c && stops_line s
  end.


(** What [transforms.react] does to the text the transpiler returned. *)
Definition react_post (format : module_format) (code : text) : text :=
  match format with
  | Cjs => rewrite_const_default (strip_define_default code)
  | Esm => code
  end.

(** The patterns of the cjs branch of [transforms.vue]: the import
    statement (groups: 1 the imported names, 2 the quote, 3 the module)
    and the [as] of one import. *)
Definition re_import : re :=
  cat [ Lit (txt "import"); Rep true 1 is_space; Lit (txt "{");
        Rep true 0 is_space; Cap 1 (Rep true 1 (is_not "}"));
        Rep true 0 is_space; Lit (txt "}"); Rep true 1 is_space;
        Lit (txt "from"); Rep true 1 is_space; Cap 2 (Cls quote_char);
        Cap 3 (Rep false 0 dot); Bref 2 ].

Definition re_as : re :=
  cat [ Rep true 1 is_space; Lit (txt "as"); Rep true 1 is_space ].

(** [String.prototype.split] on one character. *)
Fixpoint split_on (c : ascii) (s : text) : list text :=
  match s with
  | [] => [[]]
  | x :: s' =>
      if ch_eqb x c then [] :: split_on c s'
      else match split_on c s' with
           | [] => [[x]]
           | w :: ws => (x :: w) :: ws
           end
  end.

Fixpoint trim_start (s : text) : text :=
  match s with
  | c :: s' => if is_space c then trim_start s' else s
  | [] => []
  end.

Definition trim (s : text) : text := rev (trim_start (rev (trim_start s))).

Fixpoint join (sep : text) (l : list text) : text :=
  match l with
  | [] => []
  | [x] => x
  | x :: l' => x ++ sep ++ join sep l'
  end.

Definition import_to_require (cs : caps) : text :=
  let imports := default [] (cap_get 1 cs) in
  let mod_ := default [] (cap_get 3 cs) in
  let newImports :=
    join (txt ", ")
      (map (fun i => replace_first re_as [PLit (txt ": ")] (trim i))
           (split_on "," imports)) in
  txt "const { " ++ newImports ++ txt " } = require(" ++ [dq] ++ mod_
    ++ [dq] ++ txt ")".

Definition vue_post (format : module_format) (code : text) : text :=
  match format with
  | Cjs =>
      replace_string (txt "export function render")
        (txt "module.exports = function render")
        (replace_first_with re_import import_to_require code)
  | Esm => replace_string (txt "export function") (txt "export default function") code
  end.

(** *** The world outside the script *)

Inductive res (A : Type) : Type :=
  | Ok (a : A)
  | Err (e : exn).
Arguments Ok {A} a.
Arguments Err {A} e.

(** What a transform hands to [ensureWrite]: the source text of the
    component, or, when the target names a member that [transforms]
    inherits, a value that is not a string. *)
Inductive value : Type :=
  | Str (t : text)
  | Boolean (b : bool)
  | Undefined
  | Object.                      (* an object, whichever *)

(** The libraries and the file system the script calls. [camelcase] is
    the call with the [pascalCase] option; [fs_write] is [ensureWrite]'s
    [mkdir] followed by [writeFile] with the path and the data as they
    are passed, [None] when both succeed. *)
Record Env : Type := {
  positionals : list text;
  readdir_assets : res (list text);
  read_file : text -> res text;
  camelcase : text -> text;
  svgr_transform : text -> text -> res text;
  swc_transform : text -> module_format -> res text;
  vue_compile : text -> res text;
  fs_write : text -> value -> option exn
}.

Record icon : Type := { svg : text; componentName : text }.

Definition component_name (env : Env) (file : text) : text :=
  camelcase env (replace_first re_svg_ext [] file).

Fixpoint read_icons (env : Env) (files : list text) : res (list icon) :=
  match files with
  | [] => Ok []
  | file :: files' =>
      match read_file env (txt "././assets/" ++ file) with
      | Err e => Err e
      | Ok content =>
          match read_icons env files' with
          | Err e => Err e
          | Ok icons =>
              Ok ({| svg := content; componentName := component_name env file |}
                    :: icons)
          end
      end
  end.

Definition getIcons (env : Env) : res (list icon) :=
  match readdir_assets env with
  | Err e => Err e
  | Ok files => read_icons env files
  end.

Definition export_line (format : module_format) (name : text) : text :=
  match format with
  | Esm => txt "export { default as " ++ name ++ txt " } from './" ++ name ++ txt "'"
  | Cjs => txt "module.exports." ++ name ++ txt " = require('./" ++ name ++ txt "')"
  end.

Definition exportAll (icons : list icon) (format : module_format) : text :=
  join [ascii_of_nat 10] (map (fun i => export_line format (componentName i)) icons).

Definition transforms_react (env : Env) (i : icon) (format : module_format)
    : res text :=
  match svgr_transform env (svg i) (componentName i) with
  | Err e => Err e
  | Ok component =>
      match swc_transform env component format with
      | Err e => Err e
      | Ok code => Ok (react_post format code)
      end
  end.

Definition transforms_vue (env : Env) (i : icon) (format : module_format)
    : res text :=
  match vue_compile env (force_1em (svg i)) with
  | Err e => Err e
  | Ok code => Ok (vue_post format code)
  end.

(** [transforms] is an object literal, so besides its two own members it
    has the members of [Object.prototype]. Those that are functions can be
    called as [transforms[target](options)]: what the call returns, with
    [transforms] as the receiver and the options object as the argument.
    [__defineGetter__] and [__defineSetter__] throw, their second argument
    being undefined. [None] for every other name: the member is undefined
    or, for [__proto__], an object that cannot be called. *)
Definition inherited (target : text) : option (res value) :=
  if named (txt "toString") target || named (txt "toLocaleString") target
  then Some (Ok (Str (txt "[object Object]")))
  else if named (txt "valueOf") target || named (txt "constructor") target
  then Some (Ok Object)
  else if named (txt "hasOwnProperty") target
          || named (txt "isPrototypeOf") target
          || named (txt "propertyIsEnumerable") target
  then Some (Ok (Boolean false))
  else if named (txt "__lookupGetter__") target
          || named (txt "__lookupSetter__") target
  then Some (Ok Undefined)
  else if named (txt "__defineGetter__") target
          || named (txt "__defineSetter__") target
  then Some (Err (Thrown (txt "TypeError: Expecting function")))
  else None.

Definition text_result (r : res text) : res value :=
  match r with
  | Ok t => Ok (Str t)
  | Err e => Err e
  end.

(** [await transforms[target]({ svg, componentName, format })] *)
Definition transforms (env : Env) (target : text) (i : icon)
    (format : module_format) : res value :=
  if named (txt "react") target then text_result (transforms_react env i format)
  else if named (txt "vue") target then text_result (transforms_vue env i format)
  else match inherited target with
       | Some r => r
       | None => Err (Thrown (txt "TypeError: transforms[target] is not a function"))
       end.

Definition types_of (target name : text) : list text :=
  if named (txt "react") target then
    [ txt "import * as React from 'react';";
      txt "declare const " ++ name ++ txt ": React.ForwardRefExoticComponent<React.PropsWithoutRef<React.SVGProps<SVGSVGElement>> & { title?: string, titleId?: string } & React.RefAttributes<SVGSVGElement>>;";
      txt "export default " ++ name ++ txt ";" ]
  else if named (txt "vue") target then
    [ txt "import type { FunctionalComponent, HTMLAttributes, VNodeProps } from 'vue';";
      txt "declare const " ++ name ++ txt ": FunctionalComponent<HTMLAttributes & VNodeProps>;";
      txt "export default " ++ name ++ txt ";" ]
  else [].

(** *** [build] and [main]

    [build] awaits the promises of the per-icon callbacks and the two
    index writes. The callback of [flatMap] is an async function, so what
    [Promise.all] receives is one promise per icon; the array each of them
    resolves to, holding the promises of the two [ensureWrite] calls of
    that icon, is not flattened and nobody awaits those promises. *)

(** A call [ensureWrite(file, text)]. *)
Record write : Type := { w_path : text; w_text : value }.

Record build_run : Type := {
  settled : res unit;            (* what the promise of [build] settles to *)
  awaited_writes : list write;   (* [ensureWrite] calls that [build] awaits *)
  detached_writes : list write   (* [ensureWrite] calls nobody awaits *)
}.

Definition nl : text := [ascii_of_nat 10].

Definition emit_icon (env : Env) (target : text) (format : module_format)
    (output : text) (i : icon) : res (list write) :=
  match transforms env target i format with
  | Err e => Err e
  | Ok content =>
      Ok [ {| w_path := output ++ txt "/" ++ componentName i ++ txt ".js";
              w_text := content |};
           {| w_path := output ++ txt "/" ++ componentName i ++ txt ".d.ts";
              w_text := Str (join nl (types_of target (componentName i)) ++ nl) |} ]
  end.

Fixpoint first_error {A : Type} (rs : list (res A)) : option exn :=
  match rs with
  | [] => None
  | Err e :: _ => Some e
  | Ok _ :: rs' => first_error rs'
  end.

Fixpoint successes {A : Type} (rs : list (res A)) : list A :=
  match rs with
  | [] => []
  | Err _ :: rs' => successes rs'
  | Ok a :: rs' => a :: successes rs'
  end.

Definition index_js (output : text) (icons : list icon)
    (format : module_format) : write :=
  {| w_path := output ++ txt "/index.js";
     w_text := Str (exportAll icons format) |}.

Definition index_dts (output : text) (icons : list icon) : write :=
  {| w_path := output ++ txt "/index.d.ts";
     w_text := Str (exportAll icons Esm) |}.

Definition do_write (env : Env) (w : write) : option exn :=
  fs_write env (w_path w) (w_text w).

Definition build (env : Env) (target : text) (format : module_format)
    : build_run :=
  let output := txt "./packages/" ++ target ++ txt "/" ++ format_name format in
  match getIcons env with
  | Err e => {| settled := Err e; awaited_writes := []; detached_writes := [] |}
  | Ok icons =>
      let rs := map (emit_icon env target format output) icons in
      let detached := concat (successes rs) in
      match first_error rs with
      | Some e =>
          {| settled := Err e; awaited_writes := []; detached_writes := detached |}
      | None =>
          let w1 := index_js output icons format in
          match do_write env w1 with
          | Some e =>
              {| settled := Err e; awaited_writes := [w1];
                 detached_writes := detached |}
          | None =>
              let w2 := index_dts output icons in
              {| settled := match do_write env w2 with
                            | Some e => Err e
                            | None => Ok tt
                            end;
                 awaited_writes := [w1; w2];
                 detached_writes := detached |}
          end
      end
  end.

(** What a run of the script leaves behind. [stderr] holds what the
    [catch] of [main] printed; [unhandled] the rejections of promises that
    have no handler. The script never sets an exit code: the status is 0
    unless the runtime ends the process on an unhandled rejection (the
    default of Node.js since version 15), with status 1. *)
Record outcome : Type := {
  stdout : list text;
  stderr : list exn;
  unhandled : list exn;
  writes : list write;
  exit_code : nat
}.

Definition main (env : Env) : outcome :=
  let target := default (txt "undefined") (head (positionals env)) in
  let esm := build env target Esm in
  let cjs := build env target Cjs in
  let caught :=
    match settled esm, settled cjs with
    | Err e, _ => [e]
    | Ok _, Err e => [e]
    | Ok _, Ok _ => []
    end in
  let lost := omap (do_write env) (detached_writes esm ++ detached_writes cjs) in
  {| stdout :=
       (txt "Building " ++ target ++ txt " package...")
         :: match caught with
            | [] => [txt "Finished building " ++ target ++ txt " package."]
            | _ :: _ => []
            end;
     stderr := caught;
     unhandled := lost;
     writes := detached_writes esm ++ awaited_writes esm
                 ++ detached_writes cjs ++ awaited_writes cjs;
     exit_code := match lost with [] => 0 | _ :: _ => 1 end |}.

(** *** The naming rule in the words of the specification *)

Definition is_alnum (c : ascii) : bool :=
  let n := nat_of_ascii c in
  ((48 <=? n) && (n <=? 57)) || ((65 <=? n) && (n <=? 90))
  || ((97 <=? n) && (n <=? 122)).

Definition upper (c : ascii) : ascii :=
  let n := nat_of_ascii c in
  if (97 <=? n) && (n <=? 122) then ascii_of_nat (n - 32) else c.

(** Modelled from the spec: the PascalCase conversion of the [camelcase]
    library, which is not part of the sources. Words are split on
    non-alphanumeric separators, each word's first letter is capitalized,
    separators are removed. [up] says that the next letter starts a word. *)
Fixpoint pascal (up : bool) (s : text) : text :=
  match s with
  | [] => []
  | c :: s' =>
      if is_alnum c then (if up then upper c else c) :: pascal false s'
      else pascal true s'
  end.

Definition pascalCase (s : text) : text := pascal true s.

(** Stripping the file extension, in the words of the specification: the
    last dot of the name and what follows it are removed. [None] while no
    dot has been seen. *)
Fixpoint before_last_dot (s : text) : option text :=
  match s with
  | [] => None
  | c :: s' =>
      match before_last_dot s' with
      | Some b => Some (c :: b)
      | None => if ch_eqb c "." then Some [] else None
      end
  end.

Definition strip_extension (file : text) : text :=
  default file (before_last_dot file).

(** The component name as the specification words it. *)
Definition spec_component_name (env : Env) (file : text) : text :=
  camelcase env (strip_extension file).

(** What [getIcons] strips: a trailing [.svg], once. *)
Definition strip_svg_suffix (file : text) : text :=
  if starts_with (rev (txt ".svg")) (rev file)
  then rev (drop 4 (rev file))
  else file.

End Build.

(** ** The release script *)

Module Release.
Import Regex.

Local Open Scope string_scope.

(** *** Data: manifests, files, thrown values, the observable trace *)

(** What [JSON.parse] returns. An object is the list of its properties
    in their order, which is the order [JSON.stringify] prints them in. *)
#[warnings="-register-all"] Inductive jval : Type :=
  | JStr (s : string)
  | JNum (z : Z)
  | JBool (b : bool)
  | JNull
  | JArr (items : list jval)
  | JObj (props : list (string * jval)).

Definition object : Type := list (string * jval).

(** Reading a property: the first with that key. *)
Fixpoint prop (key : string) (o : object) : option jval :=
  match o with
  | [] => None
  | (k, v) :: o' => if String.eqb k key then Some v else prop key o'
  end.

(** Assigning to a property: in place when the object has the key, at
    the end otherwise. *)
Fixpoint set_prop (key : string) (v : jval) (o : object) : object :=
  match o with
  | [] => [(key, v)]
  | (k, x) :: o' =>
      if String.eqb k key then (k, v) :: o' else (k, x) :: set_prop key v o'
  end.

Definition remove_prop (key : string) (o : object) : object :=
  List.filter (fun kv => negb (String.eqb (fst kv) key)) o.

(** [value.key] on a value that is not null: undefined unless the value
    is an object with that property (the keys read are [version] and
    [private], which arrays and primitive values do not have). *)
Definition member (key : string) (v : jval) : option jval :=
  match v with
  | JObj o => prop key o
  | _ => None
  end.

(** JavaScript truthiness of a property that may be absent. *)
Definition truthy (v : option jval) : bool :=
  match v with
  | Some (JStr s) => negb (String.eqb s "")
  | Some (JNum z) => negb (Z.eqb z 0)
  | Some (JBool b) => b
  | Some (JArr _) | Some (JObj _) => true
  | Some JNull | None => false
  end.

Inductive exn : Type :=
  | Error (msg : string)         (* thrown by the script itself *)
  | TypeError (msg : string)     (* raised by the language *)
  | Failure (msg : string).      (* raised by a command, a library or the OS *)

Definition message (e : exn) : string :=
  match e with Error s | TypeError s | Failure s => s end.

Inductive result (A : Type) : Type :=
  | Val (a : A)
  | Throw (e : exn).
Arguments Val {A} a.
Arguments Throw {A} e.

Inductive event : Type :=
  | Log (s : string)                         (* console.log *)
  | LogError (s : string)                    (* console.error of a message *)
  | LogExn (e : exn)                         (* console.error of a caught value *)
  | Exec (cmd : string) (cwd : option string)  (* execSync *)
  | WriteFile (path : string)                (* fs.writeFileSync *)
  | Prompt (message : string)                (* enquirer prompt *)
  | Fetch (url : string)
  | OpenUrl (tag : string) (body : string)   (* open(newGithubReleaseUrl ...) *)
  | CreateRelease (tag : string) (body : string)
  | Exit (code : nat).                       (* process.exit *)

(** The files, by path, with their text. *)
Record world : Type := {
  files : gmap string string;
  trace : list event;
  versionUpdated : bool
}.

Definition emit (e : event) (w : world) : world :=
  {| files := files w; trace := trace w ++ [e];
     versionUpdated := versionUpdated w |}.

Definition set_files (fs : gmap string string) (w : world) : world :=
  {| files := fs; trace := trace w; versionUpdated := versionUpdated w |}.

Definition set_versionUpdated (b : bool) (w : world) : world :=
  {| files := files w; trace := trace w; versionUpdated := b |}.

(** *** What the script calls: commands, prompts, libraries

    [json_parse] is [JSON.parse], [None] when it throws a syntax error;
    [json_stringify] is [JSON.stringify] with two spaces of indentation.
    [write_fails] says whether [fs.writeFileSync] throws for a path and a
    text, and then what it leaves at the path ([None]: no file). *)

Record Env : Type := {
  positionals : list string;
  dry : bool;                                   (* the flag, as a truth value *)
  GITHUB_TOKEN : option string;
  readdir_packages : result (list string);
  is_directory : string -> result bool;
  execSync : string -> option string -> world
             -> gmap string string * result string;
  fetch_sha : string -> world -> result (option string);
  confirm : string -> world -> result bool;
  select : list string -> world -> result string;
  input : option jval -> world -> result string;
  semver_valid : string -> bool;
  semver_inc : option jval -> string -> option string;
  json_parse : string -> option jval;
  json_stringify : jval -> string;
  write_fails : string -> string -> world -> option (exn * option string);
  regexp_exec_other : string -> string -> result (option string);
  open_url : string -> string -> world -> option exn;
  create_release : string -> string -> world -> option exn
}.

(** *** A state-and-exception monad for the steps of the script *)

Definition M (A : Type) : Type := world -> world * result A.

Definition ret {A : Type} (a : A) : M A := fun w => (w, Val a).
Definition throw {A : Type} (e : exn) : M A := fun w => (w, Throw e).

Definition bind {A B : Type} (c : M A) (k : A -> M B) : M B :=
  fun w =>
    match c w with
    | (w', Val a) => k a w'
    | (w', Throw e) => (w', Throw e)
    end.

Notation "x <- c ;; k" := (bind c (fun x => k))
  (at level 100, c at next level, right associativity).
Notation "c ;;; k" := (bind c (fun _ => k))
  (at level 100, right associativity).

(** [try c catch h] *)
Definition try_catch {A : Type} (c : M A) (h : exn -> M A) : M A :=
  fun w =>
    match c w with
    | (w', Val a) => (w', Val a)
    | (w', Throw e) => h e w'
    end.

Definition tell (e : event) : M unit := fun w => (emit e w, Val tt).

Definition lift {A : Type} (r : result A) : M A := fun w => (w, r).

Definition get : M world := fun w => (w, Val w).

Fixpoint for_each {A : Type} (f : A -> M unit) (l : list A) : M unit :=
  match l with
  | [] => ret tt
  | a :: l' => f a ;;; for_each f l'
  end.

(** *** Paths and text helpers *)

Definition nl : string := String (ascii_of_nat 10) EmptyString.

Definition str (t : text) : string := string_of_list_ascii t.

Definition trim (s : string) : string := str (Build.trim (txt s)).

Definition root_manifest : string := "package.json".
Definition package_root (p : string) : string := "packages/" ++ p.
Definition package_manifest (p : string) : string :=
  package_root p ++ "/package.json".
Definition changelog_path : string := "CHANGELOG.md".

(** The values the script computes when it is loaded. *)
Record globals : Type := {
  currentVersion : option jval;
  packages : list string
}.

(** The manifests the script rewrites: the root one, then one for each
    package of the list. *)
Definition manifests (g : globals) : list string :=
  root_manifest :: map package_manifest (packages g).

(** [pkg.version = version] on an object; assigning undefined leaves a
    property that [JSON.stringify] does not print. *)
Definition set_version (version : option jval) (pkg : object) : object :=
  match version with
  | Some v => set_prop "version" v pkg
  | None => remove_prop "version" pkg
  end.

(** What [pkg.version = version] makes of a parsed manifest, as far as
    [JSON.stringify] sees it: an object has the property set, an array
    is printed as it was; on null and on a primitive value the
    assignment throws ([None]). *)
Definition with_version (version : option jval) (pkg : jval) : option jval :=
  match pkg with
  | JObj o => Some (JObj (set_version version o))
  | JArr items => Some (JArr items)
  | JStr _ | JNum _ | JBool _ | JNull => None
  end.


Definition releaseTypes : list string := ["major"; "minor"; "patch"].

(** JavaScript's rendering of a value inside a template literal, for the
    values that occur. *)
Definition show_opt (o : option string) : string := default "null" o.

(** *** The regular expressions of the script *)

(** The remote of [getRepoInfo]: [github.com/], owner, [/], repository
    (lazy), an optional [.git], end of input. *)
Definition re_remote : re :=
  Build.cat [ Lit (txt "github.com/"); Cap 1 (Rep true 1 (is_not "/"));
              Lit (txt "/"); Cap 2 (Rep false 1 (is_not "/"));
              Opt (Lit (txt ".git")); Eoi ].

(** The choice of the release-type prompt: the text between the first
    opening and the last closing parenthesis of a line. *)
Definition re_parens : re :=
  Build.cat [ Lit (txt "("); Cap 1 (Rep true 0 dot); Lit (txt ")") ].

Definition re_previously_published : re := Lit (txt "previously published").

(** The version is spliced into the pattern of the changelog section as
    it is, so its characters are read as pattern syntax: a dot is any
    character of a line, a plus repeats the character before it. A
    version with another special character is outside the fragment
    ([None]). *)
Definition is_meta (c : ascii) : bool := one_of (txt "\^$*?()[]{}|+") c.

Fixpoint version_atoms (v : text) : option (list re) :=
  match v with
  | [] => Some []
  | c :: v' =>
      if is_meta c then None
      else
        let p := if ch_eqb c "." then dot else ch_eqb c in
        match v' with
        | "+"%char :: v'' => cons (Rep true 1 p) <$> version_atoms v''
        | _ => cons (Cls p) <$> version_atoms v'
        end
  end.

Definition re_section (atoms : list re) : re :=
  Build.cat ([Lit (txt "# ")] ++ atoms ++
             [ Lit (txt " ("); Cap 1 (Rep true 0 dot); Lit (txt ")");
               Lit (txt (nl ++ nl)); Cap 2 (Rep false 0 any_char);
               Lit (txt nl); Alt (Cat (Lit (txt "#")) (Cls is_space)) Eoi ]).

(** The result of [exec] on the changelog: [None] for [null], otherwise
    the second group. *)
Definition section_notes (env : Env) (version changelog : string)
    : result (option string) :=
  match version_atoms (txt version) with
  | Some atoms =>
      match exec (re_section atoms) (txt changelog) with
      | Some (_, _, cs) => Val (Some (str (default [] (cap_get 2 cs))))
      | None => Val None
      end
  | None => regexp_exec_other env version changelog
  end.

(** *** The functions of the script *)

Section Script.
Variable env : Env.
Variable g : globals.

Definition run (command : string) (cwd : option string) : M string :=
  fun w =>
    let '(fs, r) := execSync env command cwd w in
    (set_files fs (emit (Exec command cwd) w), r).

Definition dryRun (command : string) : M unit :=
  tell (Log ("[dryrun] " ++ command)).

Definition runIfNotDry (command : string) : M unit :=
  if dry env then dryRun command else (_ <- run command None ;; ret tt).

Definition inc (release : string) : option string :=
  semver_inc env (currentVersion g) release.

Definition step (message : string) : M unit := tell (Log message).

Definition isMainBranch : M bool :=
  b <- run "git branch --show-current" None ;;
  ret (String.eqb (trim b) "main").

Definition getLatestCommitHash : M string :=
  h <- run "git rev-parse HEAD" None ;; ret (trim h).

Definition getRepoInfo : M (string * string) :=
  remote <- run "git remote get-url origin" None ;;
  match exec re_remote (txt (trim remote)) with
  | Some (_, _, cs) =>
      ret (str (default [] (cap_get 1 cs)), str (default [] (cap_get 2 cs)))
  | None => throw (TypeError "object null is not iterable")
  end.

Definition isWorkspaceClean : M bool :=
  d <- run "git diff" None ;; ret (String.eqb (trim d) "").

Definition ask {A : Type} (message : string) (answer : world -> result A)
    : M A :=
  tell (Prompt message) ;;; (fun w => (w, answer w)).

Definition isInSyncWithRemote : M bool :=
  try_catch
    (info <- getRepoInfo ;;
     let '(owner, repo) := info in
     let url := "https://api.github.com/repos/" ++ owner ++ "/" ++ repo
                  ++ "/commits/main?per_page=1" in
     tell (Fetch url) ;;;
     sha <- (fun w => (w, fetch_sha env url w)) ;;
     head <- getLatestCommitHash ;;
     if bool_decide (sha = Some head) then ret true
     else
       let message :=
         "Local HEAD is not up-to-date with remote. Are you sure you want to continue?" in
       ask message (confirm env message))
    (fun _ =>
       tell (LogError "Failed to check whether local HEAD is up-to-date with remote.") ;;;
       ret false).

(** [fs.readFileSync(path, 'utf-8')] *)
Definition readFile (path : string) : M string :=
  fun w =>
    match files w !! path with
    | Some s => (w, Val s)
    | None => (w, Throw (Failure "ENOENT: no such file or directory"))
    end.

(** [JSON.parse(content)] *)
Definition parse (content : string) : M jval :=
  match json_parse env content with
  | Some v => ret v
  | None => throw (Failure "SyntaxError: not valid JSON")
  end.

(** [pkg.version = version], in module code, which is strict. *)
Definition assign_version (pkg : jval) (version : option jval) : M jval :=
  match with_version version pkg with
  | Some pkg' => ret pkg'
  | None =>
      match pkg with
      | JNull => throw (TypeError "Cannot set properties of null (setting 'version')")
      | _ => throw (TypeError "Cannot create property 'version'")
      end
  end.

(** [fs.writeFileSync(path, content)] *)
Definition writeFile (path content : string) : M unit :=
  fun w =>
    match write_fails env path content w with
    | None =>
        (emit (WriteFile path) (set_files (<[path := content]> (files w)) w),
         Val tt)
    | Some (e, remains) =>
        (emit (WriteFile path)
           (set_files (match remains with
                       | Some c => <[path := c]> (files w)
                       | None => delete path (files w)
                       end) w),
         Throw e)
    end.

(** [pkgPath] is the path of the manifest, [pkgRoot/package.json]. *)
Definition updatePackageVersion (pkgPath : string) (version : option jval)
    : M unit :=
  content <- readFile pkgPath ;;
  pkg <- parse content ;;
  pkg' <- assign_version pkg version ;;
  writeFile pkgPath (json_stringify env pkg' ++ nl).

(** A pass over a list of manifests, and what it establishes. *)
Definition update_all (version : option jval) (paths : list string) : M unit :=
  for_each (fun path => updatePackageVersion path version) paths.

(** The file at [path] is what a version write leaves: the text of a
    manifest after [pkg.version = version]. *)
Definition updated (version : option jval) (fs : gmap string string)
    (path : string) : Prop :=
  exists pkg pkg',
    with_version version pkg = Some pkg'
    /\ fs !! path = Some (json_stringify env pkg' ++ nl).

(** The manifest at [path], when the file holds a JSON object. *)
Definition manifest_at (fs : gmap string string) (path : string)
    : option object :=
  match fs !! path with
  | Some content =>
      match json_parse env content with
      | Some (JObj o) => Some o
      | _ => None
      end
  | None => None
  end.

Definition updatePackagesVersion (version : option jval) : M unit :=
  updatePackageVersion root_manifest version ;;;
  for_each (fun p => updatePackageVersion (package_manifest p) version)
    (packages g).

Definition publishPackage (pkgName version : string) (flags : list string)
    : M unit :=
  step ("Publishing " ++ pkgName ++ "...") ;;;
  try_catch
    (_ <- run ("pnpm publish --access publish " ++ String.concat " " flags)
            (Some (package_root pkgName)) ;;
     tell (Log ("Successfully published " ++ pkgName ++ "@" ++ version)))
    (fun e =>
       match exec re_previously_published (txt (message e)) with
       | Some _ => tell (Log ("Skipping already published: " ++ pkgName))
       | None => throw e
       end).

Definition publishPackages (version : string) : M unit :=
  let flags := if dry env then ["--dry-run"; "--no-git-checks"] else [] in
  for_each (fun pkg => publishPackage pkg version flags) (packages g).

Definition token_present : bool :=
  match GITHUB_TOKEN env with
  | Some t => negb (String.eqb t "")
  | None => false
  end.

Definition publishGitHubRelease (version : string) : M unit :=
  info <- getRepoInfo ;;
  let '(owner, repo) := info in
  changelog <- readFile changelog_path ;;
  found <- lift (section_notes env version changelog) ;;
  match found with
  | None => throw (TypeError "object null is not iterable")
  | Some notes =>
      if dry env then step (nl ++ "Dry run - skipping github release...")
      else if negb token_present then
        tell (OpenUrl ("v" ++ version) notes) ;;;
        (fun w => (w, match open_url env ("v" ++ version) notes w with
                      | Some e => Throw e
                      | None => Val tt
                      end))
      else
        tell (CreateRelease ("v" ++ version) notes) ;;;
        (fun w => (w, match create_release env ("v" ++ version) notes w with
                      | Some e => Throw e
                      | None => Val tt
                      end))
  end.

Definition q : string := String dq EmptyString.

Definition choices : list string :=
  map (fun i => i ++ " (" ++ show_opt (inc i) ++ ")") releaseTypes ++ ["custom"].

(** The target version: the first positional argument unless it is absent
    or empty, otherwise what the prompts give. *)
Definition selectVersion : M string :=
  match head (positionals env) with
  | Some (String c v) => ret (String c v)
  | Some EmptyString | None =>
      type <- ask "Select release type" (select env choices) ;;
      if String.eqb type "custom" then
        ask "Input custom version" (input env (currentVersion g))
      else
        ret (match exec re_parens (txt type) with
             | Some (_, _, cs) => str (default [] (cap_get 1 cs))
             | None => ""
             end)
  end.

Definition mark_versionUpdated : M unit :=
  fun w => (set_versionUpdated true w, Val tt).

(** The steps of [main] after the changelog was confirmed. *)
Definition publish_steps (targetVersion : string) : M unit :=
  step (nl ++ "Updating lockfile...") ;;;
  _ <- run "pnpm install --prefer-offline" None ;;
  clean <- isWorkspaceClean ;;
  (if negb clean then
     step (nl ++ "Committing changes...") ;;;
     runIfNotDry "git add -A" ;;;
     runIfNotDry ("git commit -m " ++ q ++ "chore(release): release v"
                    ++ targetVersion ++ q)
   else tell (Log "No changes to commit.")) ;;;
  step (nl ++ "Pushing to github...") ;;;
  runIfNotDry ("git tag v" ++ targetVersion) ;;;
  runIfNotDry ("git push origin refs/tags/v" ++ targetVersion) ;;;
  runIfNotDry "git push" ;;;
  step (nl ++ "Publishing github release...") ;;;
  publishGitHubRelease targetVersion ;;;
  step (nl ++ "Building all packages...") ;;;
  _ <- run "pnpm build" None ;;
  step (nl ++ "Publishing packages...") ;;;
  publishPackages targetVersion ;;;
  (if dry env then
     tell (Log (nl ++ "Dry run finished - run git diff to see package changes."))
   else ret tt) ;;;
  tell (Log "").

(** The steps of [main] after the release was confirmed. *)
Definition release_steps (targetVersion : string) : M unit :=
  step (nl ++ "Updating packages versions...") ;;;
  updatePackagesVersion (Some (JStr targetVersion)) ;;;
  mark_versionUpdated ;;;
  step (nl ++ "Generating changelog...") ;;;
  _ <- run "conventional-changelog -p angular -i CHANGELOG.md -s" None ;;
  let message := "Changelog generated. Does it look good?" in
  changelog <- ask message (confirm env message) ;;
  if negb changelog then ret tt
  else publish_steps targetVersion.

Definition main : M unit :=
  onMain <- isMainBranch ;;
  if negb onMain then tell (LogError "Can only be published on the main branch.")
  else
    inSync <- isInSyncWithRemote ;;
    if negb inSync then ret tt
    else
      tell (Log "Commit is up-to-date with remote.") ;;;
      targetVersion <- selectVersion ;;
      if negb (semver_valid env targetVersion) then
        throw (Error ("Invalid target version: " ++ targetVersion))
      else
        let message := "Releasing v" ++ targetVersion ++ ". Confirm?" in
        confirmed <- ask message (confirm env message) ;;
        if negb confirmed then ret tt
        else release_steps targetVersion.

(** The prefixes of [main] that the statements below speak about. The
    first is [main] up to the choice of the target version, [None] when
    [main] returns before a version is chosen. *)
Definition resolveVersion : M (option string) :=
  onMain <- isMainBranch ;;
  if negb onMain then
    tell (LogError "Can only be published on the main branch.") ;;; ret None
  else
    inSync <- isInSyncWithRemote ;;
    if negb inSync then ret None
    else
      tell (Log "Commit is up-to-date with remote.") ;;;
      targetVersion <- selectVersion ;;
      ret (Some targetVersion).

Definition release_message (targetVersion : string) : string :=
  "Releasing v" ++ targetVersion ++ ". Confirm?".

Definition changelog_message : string :=
  "Changelog generated. Does it look good?".

Definition changelog_command : string :=
  "conventional-changelog -p angular -i CHANGELOG.md -s".

(** [main] from the validity check on. *)
Definition checked_release (targetVersion : string) : M unit :=
  if negb (semver_valid env targetVersion) then
    throw (Error ("Invalid target version: " ++ targetVersion))
  else
    confirmed <- ask (release_message targetVersion)
                   (confirm env (release_message targetVersion)) ;;
    if negb confirmed then ret tt
    else release_steps targetVersion.

(** [release_steps] up to the answer to the changelog confirmation. *)
Definition bump_and_changelog (targetVersion : string) : M bool :=
  step (nl ++ "Updating packages versions...") ;;;
  updatePackagesVersion (Some (JStr targetVersion)) ;;;
  mark_versionUpdated ;;;
  step (nl ++ "Generating changelog...") ;;;
  _ <- run changelog_command None ;;
  ask changelog_message (confirm env changelog_message).


(** Events that change nothing: output, prompts, the request to the remote
    and the three git queries. *)
Definition read_only_event (e : event) : bool :=
  match e with
  | Log _ | LogError _ | Prompt _ | Fetch _ => true
  | Exec cmd None =>
      existsb (String.eqb cmd)
        ["git branch --show-current"; "git remote get-url origin";
         "git rev-parse HEAD"]
  | _ => false
  end.


(** A step is quiet for a class of events when it only appends events of
    that class to the trace and leaves the rollback flag alone. *)
Definition quiet (P : event -> bool) {A : Type} (c : M A) : Prop :=
  forall w,
    (exists evs, trace (fst (c w)) = (trace w ++ evs)%list
                 /\ forallb P evs = true)
    /\ versionUpdated (fst (c w)) = versionUpdated w.


(** What publishing one package leaves in the trace: the announcement,
    the command run in the directory of the package, and one line of
    output ([note]: published, or skipped as already published). *)
Definition publish_events (flags : list string) (p note : string)
    : list event :=
  [ Log ("Publishing " ++ p ++ "...");
    Exec ("pnpm publish --access publish " ++ String.concat " " flags)
      (Some (package_root p));
    Log note ].

(** What a dry run says instead of committing, when the work tree is not
    clean, and instead of tagging and pushing. *)
Definition dry_commit_events (targetVersion : string) : list event :=
  [ Log (nl ++ "Committing changes...");
    Log "[dryrun] git add -A";
    Log ("[dryrun] git commit -m " ++ q ++ "chore(release): release v"
           ++ targetVersion ++ q) ].

Definition dry_push_events (targetVersion : string) : list event :=
  [ Log (nl ++ "Pushing to github...");
    Log ("[dryrun] git tag v" ++ targetVersion);
    Log ("[dryrun] git push origin refs/tags/v" ++ targetVersion);
    Log "[dryrun] git push" ].


(** Where [publish_steps], started in [w], queries the work tree: after
    the lockfile update. And what the query answers there. *)
Definition after_lockfile_update (w : world) : world :=
  fst (run "pnpm install --prefer-offline" None
         (emit (Log (nl ++ "Updating lockfile...")) w)).

Definition work_tree_diff (w : world) : result string :=
  snd (run "git diff" None (after_lockfile_update w)).

(** The line that ends the publication of a package. *)
Definition publish_note (version p note : string) : Prop :=
  note = "Successfully published " ++ p ++ "@" ++ version
  \/ note = "Skipping already published: " ++ p.

(** The handler of [main().catch]. *)
Definition on_failure (e : exn) : M unit :=
  w <- get ;;
  (if versionUpdated w then updatePackagesVersion (currentVersion g)
   else ret tt) ;;;
  tell (LogExn e) ;;;
  tell (Exit 1).

(** A run of [main] with its handler. The status is 0 when [main]
    returns; 1 when the handler ends the process, and also when the
    handler itself throws (the rejection is then unhandled). *)
Record outcome : Type := { final : world; status : nat }.

Definition release (w : world) : outcome :=
  match main w with
  | (w1, Val _) => {| final := w1; status := 0 |}
  | (w1, Throw e) => {| final := fst (on_failure e w1); status := 1 |}
  end.

End Script.

(** *** Loading the script: the current version and the package list *)

(** The test of the filter that computes the package list: [!pkg.private]
    on the parsed manifest of a directory. *)
Definition keep_package (env : Env) (fs : gmap string string) (p : string)
    : result bool :=
  match is_directory env p with
  | Throw e => Throw e
  | Val false => Val false
  | Val true =>
      match fs !! package_manifest p with
      | None => Throw (Failure "ENOENT: no such file or directory")
      | Some content =>
          match json_parse env content with
          | None => Throw (Failure "SyntaxError: not valid JSON")
          | Some JNull =>
              Throw (TypeError "Cannot read properties of null (reading 'private')")
          | Some pkg => Val (negb (truthy (member "private" pkg)))
          end
      end
  end.

(** A manifest [JSON.parse] or the filter cannot use: no file, no JSON,
    or the JSON null. *)
Definition unusable_manifest (env : Env) (fs : gmap string string)
    (p : string) : bool :=
  match fs !! package_manifest p with
  | None => true
  | Some content =>
      match json_parse env content with
      | None | Some JNull => true
      | Some _ => false
      end
  end.

Fixpoint public_packages (env : Env) (fs : gmap string string)
    (entries : list string) : result (list string) :=
  match entries with
  | [] => Val []
  | p :: entries' =>
      match keep_package env fs p with
      | Throw e => Throw e
      | Val b =>
          match public_packages env fs entries' with
          | Throw e => Throw e
          | Val ps => Val (if b then p :: ps else ps)
          end
      end
  end.

(** The same test where it does not throw. *)
Definition is_public (env : Env) (fs : gmap string string) (p : string) : bool :=
  match keep_package env fs p with
  | Val b => b
  | Throw _ => false
  end.

(** [currentVersion] is read from the root manifest through [require],
    which parses it; then the package list is computed. *)
Definition load (env : Env) (fs : gmap string string) : result globals :=
  match fs !! root_manifest with
  | None => Throw (Failure "Cannot find module '../package.json'")
  | Some content =>
      match json_parse env content with
      | None => Throw (Failure "SyntaxError: not valid JSON")
      | Some JNull =>
          Throw (TypeError "Cannot read properties of null (reading 'version')")
      | Some pkg =>
          match readdir_packages env with
          | Throw e => Throw e
          | Val entries =>
              match public_packages env fs entries with
              | Throw e => Throw e
              | Val ps =>
                  Val {| currentVersion := member "version" pkg;
                         packages := ps |}
              end
          end
      end
  end.

Definition start (fs : gmap string string) : world :=
  {| files := fs; trace := []; versionUpdated := false |}.

(** The whole script: an exception while loading ends the process with
    status 1 before [main] is called. *)
Definition script (env : Env) (fs : gmap string string) : outcome :=
  match load env fs with
  | Throw e => {| final := start fs; status := 1 |}
  | Val g => release env g (start fs)
  end.

End Release.

(** ** Concrete inputs *)

Module Samples.
Import Regex Build.

(** A compiled React component as the transpiler prints it for the
    CommonJS module type. *)
Definition swc_cjs_output : text :=
  [dq] ++ txt "use strict" ++ [dq] ++ txt ";" ++ nl
  ++ txt "Object.defineProperty(exports, " ++ [dq] ++ txt "__esModule" ++ [dq]
  ++ txt ", {" ++ nl ++ txt "    value: true" ++ nl ++ txt "});" ++ nl
  ++ txt "Object.defineProperty(exports, " ++ [dq] ++ txt "default" ++ [dq]
  ++ txt ", {" ++ nl ++ txt "    enumerable: true," ++ nl
  ++ txt "    get: function() {" ++ nl ++ txt "        return _default;" ++ nl
  ++ txt "    }" ++ nl ++ txt "});" ++ nl
  ++ txt "const _react = require(" ++ [dq] ++ txt "react" ++ [dq] ++ txt ");" ++ nl
  ++ txt "const SvgLogo = (props, ref)=>null;" ++ nl
  ++ txt "const ForwardRef = (0, _react.forwardRef)(SvgLogo);" ++ nl
  ++ txt "const _default = ForwardRef;" ++ nl.

(** The same with the definition of [default] printed a second time
    further down and a source-map comment after the assignment. *)
Definition default_body : text :=
  nl ++ txt "    enumerable: true," ++ nl ++ txt "    get: function() {"
  ++ nl ++ txt "        return _default;" ++ nl ++ txt "    }" ++ nl.

Definition use_strict_and_esModule : text :=
  [dq] ++ txt "use strict" ++ [dq] ++ txt ";" ++ nl
  ++ txt "Object.defineProperty(exports, " ++ [dq] ++ txt "__esModule" ++ [dq]
  ++ txt ", {" ++ nl ++ txt "    value: true" ++ nl ++ txt "});" ++ nl.

Definition component_lines : text :=
  txt "const SvgLogo = (props, ref)=>null;" ++ nl
  ++ txt "const ForwardRef = (0, _react.forwardRef)(SvgLogo);" ++ nl.

Definition source_map_comment : text :=
  nl ++ txt "//# sourceMappingURL=MyLogo.js.map" ++ nl.

Definition swc_cjs_two_definitions : text :=
  use_strict_and_esModule
  ++ define_default_statement default_body nl
  ++ txt "const _react = require(" ++ [dq] ++ txt "react" ++ [dq] ++ txt ");" ++ nl
  ++ define_default_statement default_body (nl ++ nl)
  ++ component_lines
  ++ const_default_statement (txt "ForwardRef") (txt " ")
  ++ source_map_comment.

Definition swc_esm_output : text :=
  txt "import { forwardRef } from " ++ [dq] ++ txt "react" ++ [dq] ++ txt ";" ++ nl
  ++ txt "const SvgLogo = (props, ref)=>null;" ++ nl
  ++ txt "const ForwardRef = forwardRef(SvgLogo);" ++ nl
  ++ txt "export default ForwardRef;" ++ nl.

Definition vue_output : text :=
  txt "import { openBlock as _openBlock, createElementBlock as _createElementBlock } from "
  ++ [dq] ++ txt "vue" ++ [dq] ++ nl ++ nl
  ++ txt "export function render(_ctx, _cache) {" ++ nl
  ++ txt "  return (_openBlock(), _createElementBlock(" ++ [dq] ++ txt "svg" ++ [dq]
  ++ txt "))" ++ nl ++ txt "}".

Definition attr := attribute.

(** A nested [svg] element with dimensions of its own. *)
Definition nested_svg : text :=
  txt "<svg " ++ attr (txt "width") (txt "24")
  ++ txt " " ++ attr (txt "height") (txt "24")
  ++ txt "><svg " ++ attr (txt "width") (txt "10")
  ++ txt " " ++ attr (txt "height") (txt "10") ++ txt "/></svg>".

Definition nested_svg_root_only : text :=
  txt "<svg " ++ attr (txt "width") (txt "1em")
  ++ txt " " ++ attr (txt "height") (txt "1em")
  ++ txt "><svg " ++ attr (txt "width") (txt "10")
  ++ txt " " ++ attr (txt "height") (txt "10") ++ txt "/></svg>".

(** A [>] inside an attribute value that precedes the dimensions. *)
Definition gt_in_value : text :=
  txt "<svg " ++ attr (txt "data-next") (txt ">")
  ++ txt " " ++ attr (txt "width") (txt "24")
  ++ txt " " ++ attr (txt "height") (txt "24") ++ txt "></svg>".

(** A value that ends like the start of a [width] attribute, after the
    dimensions, and what the rewrite makes of the markup. *)
Definition key_in_value : text :=
  txt "<svg " ++ attr (txt "width") (txt "24")
  ++ txt " " ++ attr (txt "height") (txt "24")
  ++ txt " " ++ attr (txt "aria-label") (txt "set width=")
  ++ txt "><path " ++ attr (txt "d") (txt "M0 0") ++ txt "/></svg>".

Definition key_in_value_rewritten : text :=
  txt "<svg " ++ attr (txt "width") (txt "24")
  ++ txt " " ++ attr (txt "height") (txt "1em")
  ++ txt " aria-label=" ++ [dq] ++ txt "set " ++ attr (txt "width") (txt "1em")
  ++ txt "M0 0" ++ [dq] ++ txt "/></svg>".

(** A document with two [svg] tags: the root, with the height before the
    width, a stroke width and a line break inside the tag, and a nested
    tag with a [>] in a value behind its dimensions. *)
Definition two_tags : list (text * svg_tag) :=
  [ (txt "<!-- icon -->",
     {| t_attrs :=
          [ {| a_space := txt " "; a_name := txt "xmlns";
               a_value := txt "http://www.w3.org/2000/svg" |};
            {| a_space := txt " "; a_name := txt "height"; a_value := txt "24" |};
            {| a_space := txt " "; a_name := txt "stroke-width";
               a_value := txt "2" |};
            {| a_space := nl ++ txt "  "; a_name := txt "width";
               a_value := txt "24" |};
            {| a_space := txt " "; a_name := txt "viewBox";
               a_value := txt "0 0 24 24" |} ];
        t_end := [] |});
    (txt "<path " ++ attr (txt "d") (txt "M0 0h24v24H0z") ++ txt "/>",
     {| t_attrs :=
          [ {| a_space := txt " "; a_name := txt "width"; a_value := txt "10" |};
            {| a_space := txt " "; a_name := txt "height"; a_value := txt "10" |};
            {| a_space := txt " "; a_name := txt "aria-label";
               a_value := txt "a > b" |} ];
        t_end := txt " /" |}) ].

Definition logo_svg : text :=
  txt "<svg " ++ attr (txt "xmlns") (txt "http://www.w3.org/2000/svg")
  ++ txt " " ++ attr (txt "width") (txt "24")
  ++ txt " " ++ attr (txt "height") (txt "24")
  ++ txt " " ++ attr (txt "viewBox") (txt "0 0 24 24")
  ++ txt "><path " ++ attr (txt "d") (txt "M0 0h24v24H0z") ++ txt "/></svg>".

(** An assets directory with one icon; every library call and every write
    succeeds. The PascalCase conversion is the one the specification
    words. *)
Definition one_icon : Env := {|
  positionals := [txt "react"];
  readdir_assets := Ok [txt "my-logo.svg"];
  read_file := fun _ => Ok logo_svg;
  camelcase := pascalCase;
  svgr_transform := fun svg name => Ok (txt "const " ++ name ++ txt " = null;");
  swc_transform :=
    fun _ format =>
      Ok (match format with Esm => swc_esm_output | Cjs => swc_cjs_output end);
  vue_compile := fun _ => Ok vue_output;
  fs_write := fun _ _ => None
|}.

(** The same run, but the file system refuses to write the component
    source [MyLogo.js] (say, a directory of that name is in the way);
    every other write succeeds. *)
Definition ends_with (suffix s : text) : bool :=
  starts_with (rev suffix) (rev s).

Definition component_write_refused : Env := {|
  positionals := positionals one_icon;
  readdir_assets := readdir_assets one_icon;
  read_file := read_file one_icon;
  camelcase := camelcase one_icon;
  svgr_transform := svgr_transform one_icon;
  swc_transform := swc_transform one_icon;
  vue_compile := vue_compile one_icon;
  fs_write :=
    fun path _ =>
      if ends_with (txt "/MyLogo.js") path
      then Some (Thrown (txt "EISDIR: illegal operation on a directory"))
      else None
|}.

(** The same run, but the transpiler prints [swc_cjs_two_definitions]. *)
Definition two_definitions : Env := {|
  positionals := positionals one_icon;
  readdir_assets := readdir_assets one_icon;
  read_file := read_file one_icon;
  camelcase := camelcase one_icon;
  svgr_transform := svgr_transform one_icon;
  swc_transform :=
    fun _ format =>
      Ok (match format with
          | Esm => swc_esm_output
          | Cjs => swc_cjs_two_definitions
          end);
  vue_compile := vue_compile one_icon;
  fs_write := fs_write one_icon
|}.

(** The same run, but the transpiler rejects the component. *)
Definition transpiler_fails : Env := {|
  positionals := positionals one_icon;
  readdir_assets := readdir_assets one_icon;
  read_file := read_file one_icon;
  camelcase := camelcase one_icon;
  svgr_transform := svgr_transform one_icon;
  swc_transform := fun _ _ => Err (Thrown (txt "Syntax Error"));
  vue_compile := vue_compile one_icon;
  fs_write := fs_write one_icon
|}.

End Samples.


Module ReleaseSamples.
Import Release.

Local Open Scope string_scope.

(** A printer for the manifests below: one property per line, two spaces
    of indentation. *)
Definition show_value (v : jval) : string :=
  match v with
  | JStr s => q ++ s ++ q
  | JBool true => "true"
  | JBool false => "false"
  | JNull => "null"
  | JNum _ => "0"
  | JArr _ => "[]"
  | JObj _ => "{}"
  end.

Definition stringify (v : jval) : string :=
  match v with
  | JObj [] => "{}"
  | JObj o =>
      "{" ++ nl
      ++ String.concat ("," ++ nl)
           (map (fun kv => "  " ++ q ++ fst kv ++ q ++ ": " ++ show_value (snd kv))
                o)
      ++ nl ++ "}"
  | other => show_value other
  end.

Definition root_pkg : object := [("version", JStr "1.9.0")].

Definition react_pkg : object :=
  [("name", JStr "@skill-icons/react"); ("version", JStr "1.9.0")].

Definition vue_pkg : object :=
  [("name", JStr "@skill-icons/vue"); ("version", JStr "1.9.0")].

Definition docs_pkg : object :=
  [("version", JStr "0.0.0"); ("private", JBool true)].

(** A reader for what the printer prints of these manifests, at any of
    the versions that occur; other text is not JSON, except the empty
    array. *)
Definition known : list jval :=
  JArr []
  :: flat_map
       (fun o => map (fun v => JObj (set_version (Some (JStr v)) o))
                   ["1.9.0"; "2.0.0"; "0.0.0"])
       [root_pkg; react_pkg; vue_pkg; docs_pkg].

Definition parse_known (content : string) : option jval :=
  List.find (fun v => String.eqb (stringify v ++ nl) content
                      || String.eqb (stringify v) content) known.

Definition changelog_1_9_0 : string :=
  "# 1.9.0 (2024-01-01)" ++ nl ++ nl ++ "* icons" ++ nl.

Definition changelog_2_0_0 : string :=
  "# 2.0.0 (2024-02-01)" ++ nl ++ nl ++ "* more icons" ++ nl ++ nl
  ++ changelog_1_9_0.

(** A workspace at version 1.9.0 with one public package, one private
    package and a file among the package directories; the changelog has a
    section for 1.9.0 only. *)
Definition workspace : gmap string string :=
  <[ "package.json" := stringify (JObj root_pkg) ++ nl ]>
  (<[ "packages/react/package.json" := stringify (JObj react_pkg) ++ nl ]>
  (<[ "packages/docs/package.json" := stringify (JObj docs_pkg) ++ nl ]>
  (<[ "CHANGELOG.md" := changelog_1_9_0 ]> ∅))).

(** The release of 2.0.0 asked for on the command line, every prompt
    answered as given, every command succeeding except [failing], every
    write succeeding; the work tree is dirty after the lockfile update.
    The changelog command writes [changelog]. *)
Definition release_2_0_0 (failing : string) (dryf : bool)
    (changelog_ok : bool) (changelog : string) : Env := {|
  positionals := ["2.0.0"];
  dry := dryf;
  GITHUB_TOKEN := None;
  readdir_packages := Val ["react"; "docs"; "README.md"];
  is_directory := fun p => Val (negb (String.eqb p "README.md"));
  execSync := fun cmd cwd w =>
    (if String.eqb cmd changelog_command
     then <[ "CHANGELOG.md" := changelog ]> (files w)
     else files w,
     if String.eqb cmd failing then Throw (Failure "command failed")
     else if String.eqb cmd "git branch --show-current" then Val ("main" ++ nl)
     else if String.eqb cmd "git remote get-url origin"
          then Val ("https://github.com/owner/skill-icons.git" ++ nl)
     else if String.eqb cmd "git rev-parse HEAD" then Val ("abc123" ++ nl)
     else if String.eqb cmd "git diff" then Val "diff --git a/package.json"
     else Val "");
  fetch_sha := fun _ _ => Val (Some "abc123");
  confirm := fun message _ =>
    Val (if String.eqb message changelog_message then changelog_ok else true);
  select := fun _ _ => Val "custom";
  input := fun _ _ => Val "2.0.0";
  semver_valid := fun v => String.eqb v "2.0.0";
  semver_inc := fun _ _ => None;
  json_parse := parse_known;
  json_stringify := stringify;
  write_fails := fun _ _ _ => None;
  regexp_exec_other := fun _ _ => Val None;
  open_url := fun _ _ _ => None;
  create_release := fun _ _ _ => None
|}.

(** What loading the script finds in [workspace]. *)
Definition loaded : globals :=
  {| currentVersion := Some (JStr "1.9.0"); packages := ["react"] |}.

(** A workspace with two public packages, and a release of 2.0.0 in
    which the lockfile update fails after leaving a merge conflict in the
    manifest of the first package. *)
Definition two_packages : gmap string string :=
  <[ "packages/vue/package.json" := stringify (JObj vue_pkg) ++ nl ]> workspace.

Definition conflict : string := "<<<<<<< HEAD".

Definition install_breaks_manifest : Env := {|
  positionals := ["2.0.0"];
  dry := false;
  GITHUB_TOKEN := None;
  readdir_packages := Val ["react"; "vue"];
  is_directory := fun _ => Val true;
  execSync := fun cmd cwd w =>
    if String.eqb cmd "pnpm install --prefer-offline"
    then (<[ "packages/react/package.json" := conflict ]> (files w),
          Throw (Failure "command failed"))
    else execSync (release_2_0_0 "" false true changelog_2_0_0) cmd cwd w;
  fetch_sha := fun _ _ => Val (Some "abc123");
  confirm := fun _ _ => Val true;
  select := fun _ _ => Val "custom";
  input := fun _ _ => Val "2.0.0";
  semver_valid := fun v => String.eqb v "2.0.0";
  semver_inc := fun _ _ => None;
  json_parse := parse_known;
  json_stringify := stringify;
  write_fails := fun _ _ _ => None;
  regexp_exec_other := fun _ _ => Val None;
  open_url := fun _ _ _ => None;
  create_release := fun _ _ _ => None
|}.

Definition loaded_two : globals :=
  {| currentVersion := Some (JStr "1.9.0"); packages := ["react"; "vue"] |}.

End ReleaseSamples.


(** * Properties *)

(** ** Text and the matcher *)

Module MatcherFacts.
Import Regex.

Lemma ch_eqb_eq (a b : ascii) : ch_eqb a b = true <-> a = b.
Proof. unfold ch_eqb. apply Ascii.eqb_eq. Qed.

Lemma ch_eqb_refl (a : ascii) : ch_eqb a a = true.
Proof. apply ch_eqb_eq. reflexivity. Qed.

Lemma starts_with_app (t s : text) : starts_with t (t ++ s) = true.
Proof.
  induction t as [|a t IH]; simpl; [reflexivity|].
  rewrite ch_eqb_refl, IH. reflexivity.
Qed.

Lemma starts_with_inv (t s : text) :
  starts_with t s = true -> exists r, s = t ++ r.
Proof.
  revert s. induction t as [|a t IH]; intros s H; simpl in H.
  - exists s. reflexivity.
  - destruct s as [|b s]; [discriminate|].
    apply andb_true_iff in H as [Hab Hts].
    apply ch_eqb_eq in Hab. subst b.
    destruct (IH _ Hts) as [r ->]. exists r. reflexivity.
Qed.

Lemma starts_with_false (t s : text) :
  (forall r, s <> t ++ r) -> starts_with t s = false.
Proof.
  intros H. destruct (starts_with t s) eqn:E; [|reflexivity].
  destruct (starts_with_inv _ _ E) as [r ->]. destruct (H r). reflexivity.
Qed.

(** Running out of fuel never happens: any fuel above the length of the
    input gives the same replacement. *)
Lemma replace_all_fuel_enough (r : re) (tmpl : list piece) (n : nat) :
  forall (k : nat) (s : text),
    length s < n -> length s < k ->
    replace_all_fuel n r tmpl s = replace_all_fuel k r tmpl s.
Proof.
  induction n as [|n IH]; intros k s Hn Hk; [lia|].
  destruct k as [|k]; [lia|]. simpl.
  assert (Hstep :
    match s with [] => [] | c :: s' => c :: replace_all_fuel n r tmpl s' end =
    match s with [] => [] | c :: s' => c :: replace_all_fuel k r tmpl s' end).
  { destruct s as [|c s']; [reflexivity|]. simpl in *.
    f_equal. apply IH; lia. }
  destruct (match_here r s) as [[rest cs]|]; [|exact Hstep].
  destruct (length rest <? length s) eqn:E.
  - apply Nat.ltb_lt in E. f_equal. apply IH; lia.
  - f_equal. exact Hstep.
Qed.

Lemma replace_all_fuel_S (n : nat) (r : re) (tmpl : list piece) (s : text) :
  replace_all_fuel (S n) r tmpl s =
    match match_here r s with
    | Some (rest, cs) =>
        if length rest <? length s
        then subst tmpl cs ++ replace_all_fuel n r tmpl rest
        else subst tmpl cs ++
             match s with
             | [] => []
             | c :: s' => c :: replace_all_fuel n r tmpl s'
             end
    | None =>
        match s with
        | [] => []
        | c :: s' => c :: replace_all_fuel n r tmpl s'
        end
    end.
Proof. reflexivity. Qed.

(** The equations of [replace_all]. *)
Lemma replace_all_skip (r : re) (tmpl : list piece) (c : ascii) (s : text) :
  match_here r (c :: s) = None ->
  replace_all r tmpl (c :: s) = c :: replace_all r tmpl s.
Proof.
  intros H. unfold replace_all.
  rewrite (replace_all_fuel_S (length (c :: s))), H. reflexivity.
Qed.

Lemma replace_all_hit (r : re) (tmpl : list piece) (s rest : text) (cs : caps) :
  match_here r s = Some (rest, cs) ->
  length rest < length s ->
  replace_all r tmpl s = subst tmpl cs ++ replace_all r tmpl rest.
Proof.
  intros H Hlt. unfold replace_all.
  rewrite (replace_all_fuel_S (length s)), H.
  apply Nat.ltb_lt in Hlt as Hb. rewrite Hb. f_equal.
  apply replace_all_fuel_enough; lia.
Qed.

Lemma replace_all_nil (r : re) (tmpl : list piece) :
  match_here r [] = None -> replace_all r tmpl [] = [].
Proof.
  intros H. unfold replace_all. rewrite replace_all_fuel_S, H. reflexivity.
Qed.

(** No match at any suffix: the text is unchanged. *)
Lemma replace_all_none (r : re) (tmpl : list piece) (s : text) :
  (forall i, match_here r (drop i s) = None) ->
  replace_all r tmpl s = s.
Proof.
  induction s as [|c s IH]; intros H.
  - apply replace_all_nil. exact (H 0).
  - rewrite replace_all_skip by exact (H 0). f_equal.
    apply IH. intros i. exact (H (S i)).
Qed.

Lemma exec_skip (r : re) (c : ascii) (s : text) :
  match_here r (c :: s) = None ->
  exec r (c :: s) =
    match exec r s with
    | Some (skipped, rest, cs) => Some (c :: skipped, rest, cs)
    | None => None
    end.
Proof. intros H. simpl. rewrite H. reflexivity. Qed.

Lemma exec_hit (r : re) (s rest : text) (cs : caps) :
  match_here r s = Some (rest, cs) -> exec r s = Some ([], rest, cs).
Proof. intros H. destruct s; simpl; rewrite H; reflexivity. Qed.

(** *** Greedy repetition *)

(** When the continuation accepts the longest run, that is the match. *)
Lemma rep_greedy_longest (p : ascii -> bool) (k : text -> option result)
    (u v : text) (lo : nat) (res : result) :
  Forall (fun c => p c = true) u -> no_head p v -> lo <= length u ->
  k v = Some res ->
  rep_greedy p k lo (u ++ v) = Some res.
Proof.
  revert lo. induction u as [|c u IH]; intros lo Hu Hv Hlo Hk.
  - simpl in Hlo. assert (lo = 0) as -> by lia. simpl.
    destruct v as [|x v]; simpl; [exact Hk|].
    simpl in Hv. rewrite Hv. exact Hk.
  - inversion Hu as [|? ? Hc Hu']; subst. simpl. rewrite Hc.
    rewrite (IH (Nat.pred lo)); [reflexivity|assumption|assumption| |assumption].
    simpl in Hlo. lia.
Qed.

(** When the continuation rejects every longer run, the match is decided
    at the current position. *)
Lemma rep_greedy_here (p : ascii -> bool) (k : text -> option result)
    (u v : text) :
  Forall (fun c => p c = true) u -> no_head p v ->
  (forall j, 0 < j <= length u -> k (drop j (u ++ v)) = None) ->
  rep_greedy p k 0 (u ++ v) = k (u ++ v).
Proof.
  induction u as [|c u IH]; intros Hu Hv Hk.
  - simpl. destruct v as [|x v]; simpl; [reflexivity|].
    simpl in Hv. rewrite Hv. reflexivity.
  - inversion Hu as [|? ? Hc Hu']; subst. simpl. rewrite Hc.
    rewrite IH; [|assumption|assumption|].
    + pose proof (Hk 1 ltac:(simpl; lia)) as H1.
      change (drop 1 ((c :: u) ++ v)) with (u ++ v) in H1.
      rewrite H1. reflexivity.
    + intros j Hj. apply (Hk (S j)). simpl. lia.
Qed.

(** The last position of the run at which the continuation accepts. *)
Lemma rep_greedy_last (p : ascii -> bool) (k : text -> option result)
    (u1 u2 v : text) (res : result) :
  Forall (fun c => p c = true) u1 ->
  Forall (fun c => p c = true) u2 -> no_head p v ->
  (forall j, 0 < j <= length u2 -> k (drop j (u2 ++ v)) = None) ->
  k (u2 ++ v) = Some res ->
  rep_greedy p k 0 (u1 ++ u2 ++ v) = Some res.
Proof.
  intros Hu1 Hu2 Hv Hnone Hk.
  induction u1 as [|c u1 IH].
  - simpl. rewrite rep_greedy_here by assumption. exact Hk.
  - inversion Hu1 as [|? ? Hc Hu1']; subst. simpl. rewrite Hc.
    rewrite IH by assumption. reflexivity.
Qed.

(** The same without asking that the run is all there is: the repetition
    stops by the head of [v] at the latest. *)
Lemma rep_greedy_none_upto (p : ascii -> bool) (k : text -> option result)
    (u v : text) :
  no_head p v ->
  (forall j, j <= length u -> k (drop j (u ++ v)) = None) ->
  rep_greedy p k 0 (u ++ v) = None.
Proof.
  induction u as [|c u IH]; intros Hv Hk.
  - pose proof (Hk 0 ltac:(simpl; lia)) as H0. rewrite drop_0 in H0.
    simpl in *. destruct v as [|x v]; simpl; [exact H0|].
    simpl in Hv. rewrite Hv. exact H0.
  - pose proof (Hk 0 ltac:(simpl; lia)) as H0. rewrite drop_0 in H0.
    cbn [app rep_greedy Nat.eqb Nat.pred].
    rewrite IH; [|exact Hv|].
    + destruct (p c); exact H0.
    + intros j Hj. apply (Hk (S j)). simpl. lia.
Qed.

Lemma rep_greedy_here_upto (p : ascii -> bool) (k : text -> option result)
    (u v : text) :
  no_head p v ->
  (forall j, 0 < j <= length u -> k (drop j (u ++ v)) = None) ->
  rep_greedy p k 0 (u ++ v) = k (u ++ v).
Proof.
  intros Hv Hk. destruct u as [|c u].
  - simpl. destruct v as [|x v]; simpl; [reflexivity|].
    simpl in Hv. rewrite Hv. reflexivity.
  - cbn [app rep_greedy Nat.eqb Nat.pred].
    rewrite rep_greedy_none_upto; [destruct (p c); reflexivity|exact Hv|].
    intros j Hj. apply (Hk (S j)). simpl. lia.
Qed.

Lemma rep_greedy_last_upto (p : ascii -> bool) (k : text -> option result)
    (u1 u2 v : text) (res : result) :
  Forall (fun c => p c = true) u1 -> no_head p v ->
  (forall j, 0 < j <= length u2 -> k (drop j (u2 ++ v)) = None) ->
  k (u2 ++ v) = Some res ->
  rep_greedy p k 0 (u1 ++ u2 ++ v) = Some res.
Proof.
  intros Hu1 Hv Hnone Hk.
  induction u1 as [|c u1 IH].
  - simpl. rewrite rep_greedy_here_upto by assumption. exact Hk.
  - inversion Hu1 as [|? ? Hc Hu1']; subst. simpl. rewrite Hc.
    rewrite IH by assumption. reflexivity.
Qed.

(** Two ways of cutting a text after a run of one class are the same. *)
Lemma span_unique (p : ascii -> bool) (u1 u2 r1 r2 : text) :
  Forall (fun c => p c = true) u1 -> Forall (fun c => p c = true) u2 ->
  no_head p r1 -> no_head p r2 ->
  u1 ++ r1 = u2 ++ r2 -> u1 = u2 /\ r1 = r2.
Proof.
  revert u2. induction u1 as [|c u1 IH]; intros u2 H1 H2 Hr1 Hr2 E.
  - destruct u2 as [|d u2]; [split; [reflexivity | exact E]|].
    exfalso. simpl in E. subst r1. inversion H2 as [|? ? Hd _]; subst.
    simpl in Hr1. congruence.
  - inversion H1 as [|? ? Hc H1']; subst.
    destruct u2 as [|d u2].
    + exfalso. simpl in E. subst r2. simpl in Hr2. congruence.
    + inversion H2 as [|? ? Hd H2']; subst.
      simpl in E. injection E as -> E.
      destruct (IH u2 H1' H2' Hr1 Hr2 E) as [-> ->]. split; reflexivity.
Qed.

(** What any match of a greedy repetition looks like. *)
Lemma rep_greedy_inv (p : ascii -> bool) (k : text -> option result)
    (lo : nat) (s : text) (res : result) :
  rep_greedy p k lo s = Some res ->
  exists u v, s = u ++ v /\ Forall (fun c => p c = true) u
              /\ lo <= length u /\ k v = Some res.
Proof.
  revert lo. induction s as [|c s IH]; intros lo H; simpl in H.
  - destruct (Nat.eqb lo 0) eqn:E; [|discriminate].
    apply Nat.eqb_eq in E. subst lo.
    exists [], []. repeat split; [constructor|lia|exact H].
  - assert (Hstop : (if Nat.eqb lo 0 then k (c :: s) else None) = Some res ->
      exists u v, c :: s = u ++ v /\ Forall (fun c => p c = true) u
                  /\ lo <= length u /\ k v = Some res).
    { intros Hs. destruct (Nat.eqb lo 0) eqn:E; [|discriminate].
      apply Nat.eqb_eq in E. subst lo.
      exists [], (c :: s). repeat split; [constructor|lia|exact Hs]. }
    destruct (p c) eqn:Hc; [|exact (Hstop H)].
    destruct (rep_greedy p k (Nat.pred lo) s) as [r|] eqn:E;
      [|exact (Hstop H)].
    inversion H; subst r.
    destruct (IH _ E) as (u & v & -> & Hu & Hlo & Hk).
    exists (c :: u), v. repeat split; [constructor; assumption| |exact Hk].
    simpl. lia.
Qed.

(** *** Lazy repetition *)

(** The first position of the run at which the continuation accepts. *)
Lemma rep_lazy_first (p : ascii -> bool) (k : text -> option result)
    (u v : text) (res : result) :
  Forall (fun c => p c = true) u ->
  (forall j, j < length u -> k (drop j (u ++ v)) = None) ->
  k v = Some res ->
  rep_lazy p k 0 (u ++ v) = Some res.
Proof.
  intros Hu Hnone Hk. induction u as [|c u IH].
  - simpl. destruct v; simpl; rewrite Hk; reflexivity.
  - inversion Hu as [|? ? Hc Hu']; subst.
    pose proof (Hnone 0 ltac:(simpl; lia)) as H0.
    change (drop 0 ((c :: u) ++ v)) with (c :: (u ++ v)) in H0.
    cbn [app rep_lazy Nat.eqb]. rewrite H0, Hc. cbn [Nat.pred].
    apply IH; [assumption|].
    intros j Hj. apply (Hnone (S j)). simpl. lia.
Qed.

(** *** Searching past a prefix where nothing matches *)

Lemma no_match_before_spec (r : re) (n : nat) (s : text) :
  no_match_before r n s = true ->
  forall i, i < n -> match_here r (drop i s) = None.
Proof.
  unfold no_match_before. intros H i Hi.
  rewrite forallb_forall in H. specialize (H i).
  destruct (match_here r (drop i s)); [|reflexivity].
  assert (false = true); [|discriminate].
  apply H. apply in_seq. lia.
Qed.

Lemma replace_all_prefix (r : re) (tmpl : list piece) (pre s : text) :
  (forall i, i < length pre -> match_here r (drop i (pre ++ s)) = None) ->
  replace_all r tmpl (pre ++ s) = pre ++ replace_all r tmpl s.
Proof.
  induction pre as [|c pre IH]; intros H; [reflexivity|].
  cbn [app]. rewrite replace_all_skip.
  - f_equal. apply IH. intros i Hi. apply (H (S i)). simpl. lia.
  - apply (H 0). simpl. lia.
Qed.

Lemma exec_prefix (r : re) (pre s rest : text) (cs : caps) :
  (forall i, i < length pre -> match_here r (drop i (pre ++ s)) = None) ->
  match_here r s = Some (rest, cs) ->
  exec r (pre ++ s) = Some (pre, rest, cs).
Proof.
  intros H Hs. induction pre as [|c pre IH].
  - apply exec_hit. exact Hs.
  - cbn [app]. rewrite exec_skip.
    + rewrite IH; [reflexivity|].
      intros i Hi. apply (H (S i)). simpl. lia.
    + apply (H 0). simpl. lia.
Qed.

Lemma forallb_Forall (p : ascii -> bool) (s : text) :
  forallb p s = true -> Forall (fun c => p c = true) s.
Proof.
  induction s as [|c s IH]; intros H; [constructor|].
  simpl in H. apply andb_true_iff in H as [Hc Hs].
  constructor; [exact Hc | exact (IH Hs)].
Qed.

Lemma head_is_false (p : ascii -> bool) (s : text) :
  head_is p s = false -> no_head p s.
Proof. destruct s; simpl; intros H; [exact I | exact H]. Qed.

(** Both sides of an equation between concatenations, right-nested. *)
Ltac norm_app :=
  repeat first [ rewrite <- app_assoc
               | progress cbn [app txt list_ascii_of_string] ].

Lemma occursb_head (pat s : text) :
  starts_with pat s = true -> occursb pat s = true.
Proof. intros H. destruct s; simpl; rewrite H; reflexivity. Qed.

Lemma occursb_false (pat s : text) : occursb pat s = false -> ~ occurs pat s.
Proof.
  intros H (a & b & ->). revert H.
  induction a as [|x a IH]; intros H.
  - change ([] ++ pat ++ b) with (pat ++ b) in H.
    rewrite occursb_head in H by apply starts_with_app. discriminate.
  - change (occursb pat ((x :: a) ++ pat ++ b))
      with (starts_with pat (x :: a ++ pat ++ b) || occursb pat (a ++ pat ++ b))
      in H.
    apply orb_false_iff in H as [_ H]. exact (IH H).
Qed.

Lemma forallb_free (x : ascii) (s : text) :
  forallb (is_not x) s = true -> free_of x s.
Proof.
  induction s as [|c s IH]; intros H; [constructor|].
  simpl in H. apply andb_true_iff in H as [Hc Hs].
  constructor; [exact Hc | exact (IH Hs)].
Qed.

Lemma occursb_drop (pat s : text) (i : nat) :
  occursb pat s = false -> starts_with pat (drop i s) = false.
Proof.
  intros H. apply occursb_false in H.
  destruct (starts_with pat (drop i s)) eqn:E; [|reflexivity].
  apply starts_with_inv in E as [r E]. destruct H.
  exists (take i s), r. rewrite <- E. symmetry. apply take_drop.
Qed.

End MatcherFacts.

(** ** The icon loader *)

Module LoaderProps.
Import Regex Build MatcherFacts.

Lemma match_svg_ext (s : text) :
  match_here re_svg_ext s =
    if starts_with (txt ".svg") s
    then match drop 4 s with [] => Some ([], []) | _ :: _ => None end
    else None.
Proof.
  unfold match_here, re_svg_ext. cbn [cat m].
  destruct (starts_with (txt ".svg") s); [|reflexivity].
  change (length (txt ".svg")) with 4.
  destruct (drop 4 s); reflexivity.
Qed.

Lemma exec_svg_ext_suffix (base : text) :
  exec re_svg_ext (base ++ txt ".svg") = Some (base, [], []).
Proof.
  induction base as [|c base IH].
  - reflexivity.
  - change ((c :: base) ++ txt ".svg") with (c :: (base ++ txt ".svg")).
    rewrite exec_skip, IH; [reflexivity|].
    rewrite match_svg_ext.
    destruct (starts_with (txt ".svg") (c :: base ++ txt ".svg")) eqn:E;
      [|reflexivity].
    apply starts_with_inv in E as [r Hr].
    assert (Hlen : length (c :: base ++ txt ".svg") = length (txt ".svg" ++ r))
      by (rewrite Hr; reflexivity).
    rewrite Hr. change (drop 4 (txt ".svg" ++ r)) with r.
    destruct r as [|x r]; [|reflexivity].
    simpl in Hlen. rewrite length_app in Hlen. simpl in Hlen. lia.
Qed.

Lemma exec_svg_ext_other (file : text) :
  (forall base, file <> base ++ txt ".svg") ->
  exec re_svg_ext file = None.
Proof.
  induction file as [|c file IH]; intros H.
  - reflexivity.
  - rewrite exec_skip.
    + rewrite IH; [reflexivity|].
      intros base ->. apply (H (c :: base)). reflexivity.
    + rewrite match_svg_ext.
      destruct (starts_with (txt ".svg") (c :: file)) eqn:E; [|reflexivity].
      apply starts_with_inv in E as [r Hr]. rewrite Hr.
      change (drop 4 (txt ".svg" ++ r)) with r.
      destruct r as [|x r]; [|reflexivity].
      exfalso. apply (H []). rewrite Hr. reflexivity.
Qed.

Lemma strip_svg_suffix_cases (file : text) :
  (exists base, file = base ++ txt ".svg" /\ strip_svg_suffix file = base)
  \/ ((forall base, file <> base ++ txt ".svg") /\ strip_svg_suffix file = file).
Proof.
  unfold strip_svg_suffix.
  destruct (starts_with (rev (txt ".svg")) (rev file)) eqn:E.
  - left. apply starts_with_inv in E as [r Hr]. exists (rev r).
    rewrite Hr. split.
    + rewrite <- (rev_involutive file), Hr, rev_app_distr. reflexivity.
    + reflexivity.
  - right. split; [|reflexivity].
    intros base ->. rewrite rev_app_distr, starts_with_app in E.
    discriminate.
Qed.

Lemma before_last_dot_svg (base : text) :
  before_last_dot (base ++ txt ".svg") = Some base.
Proof.
  induction base as [|c base IH]; [reflexivity|].
  cbn [app before_last_dot]. rewrite IH. reflexivity.
Qed.

Lemma component_name_eq (env : Env) (file : text) :
  component_name env file = camelcase env (strip_svg_suffix file).
Proof.
  unfold component_name, replace_first, replace_first_with.
  destruct (strip_svg_suffix_cases file) as [(base & -> & ->)|[H ->]].
  - rewrite exec_svg_ext_suffix. simpl. rewrite app_nil_r. reflexivity.
  - rewrite exec_svg_ext_other by exact H. reflexivity.
Qed.

(** C2 (as amended). The conversion is the [camelcase] library called
    with the [pascalCase] option, which is not part of the sources; take
    a file name on whose stem the library follows the rule of the claim
    (words split on non-alphanumeric separators, the first letter of each
    word capitalized, the separators removed), the stem being the name
    without a trailing [.svg]. Then the component name is the PascalCase
    conversion of that stem: for [base.svg] it is the conversion of
    [base], as the claim says; a name that does not end in [.svg] is
    converted whole, its extension included. The name depends on the
    file name only: another run in which the library follows the rule
    gives the same name. *)
Theorem component_name_strips_svg (env : Env) (file : text) :
  camelcase env (strip_svg_suffix file) = pascalCase (strip_svg_suffix file) ->
  component_name env file = pascalCase (strip_svg_suffix file)
  /\ (forall base, file = base ++ txt ".svg" ->
        component_name env file = pascalCase base
        /\ component_name env file = spec_component_name env file)
  /\ ((forall base, file <> base ++ txt ".svg") ->
      component_name env file = pascalCase file)
  /\ (forall env',
        camelcase env' (strip_svg_suffix file)
        = pascalCase (strip_svg_suffix file) ->
        component_name env' file = component_name env file).
Proof.
  intros Hrule. rewrite component_name_eq, Hrule.
  split; [reflexivity|]. split; [|split].
  - intros base ->.
    destruct (strip_svg_suffix_cases (base ++ txt ".svg"))
      as [(b' & E & Es)|[H _]].
    + apply app_inv_tail in E. subst b'. rewrite Es in *.
      split; [reflexivity|].
      unfold spec_component_name, strip_extension.
      rewrite before_last_dot_svg. symmetry. exact Hrule.
    + destruct (H base). reflexivity.
  - intros Hother.
    destruct (strip_svg_suffix_cases file) as [(base & E & _)|[_ ->]].
    + destruct (Hother base E).
    + reflexivity.
  - intros env' Hrule'. rewrite component_name_eq, Hrule'. reflexivity.
Qed.

Lemma component_name_strips_svg_witness :
  component_name Samples.one_icon (txt "my-logo.svg") = txt "MyLogo"
  /\ component_name Samples.one_icon (txt "arrow_up.2.svg") = txt "ArrowUp2".
Proof.
  split.
  - rewrite (proj1 (component_name_strips_svg Samples.one_icon
                      (txt "my-logo.svg") eq_refl)).
    reflexivity.
  - rewrite (proj1 (component_name_strips_svg Samples.one_icon
                      (txt "arrow_up.2.svg") eq_refl)).
    reflexivity.
Defined.

(** C2, the claim as worded: with the extension stripped whatever it is,
    [logo.png] would be named [Logo]; the script names it [LogoPng]. *)
Lemma component_name_keeps_other_extensions :
  component_name Samples.one_icon (txt "logo.png") = txt "LogoPng"
  /\ spec_component_name Samples.one_icon (txt "logo.png") = txt "Logo"
  /\ ~ (forall env file,
          component_name env file = spec_component_name env file).
Proof.
  split; [reflexivity|]. split; [reflexivity|].
  intros H. specialize (H Samples.one_icon (txt "logo.png")).
  vm_compute in H. discriminate H.
Qed.

End LoaderProps.

(** ** The width and height rewrite of the Vue transform *)

Module VueProps.
Import Regex Build MatcherFacts.

Lemma free_of_app (x : ascii) (s t : text) :
  free_of x (s ++ t) <-> free_of x s /\ free_of x t.
Proof. apply Forall_app. Qed.

Lemma is_not_true (x c : ascii) : is_not x c = true <-> c <> x.
Proof.
  unfold is_not. rewrite negb_true_iff. split.
  - intros H ->. rewrite ch_eqb_refl in H. discriminate.
  - intros H. destruct (ch_eqb c x) eqn:E; [|reflexivity].
    apply ch_eqb_eq in E. contradiction.
Qed.

(** A text free of [g] that is a prefix of [y ++ g :: _] is a prefix of [y]. *)
Lemma prefix_before (g : ascii) (a : text) :
  forall (y r z : text),
    y ++ g :: r = a ++ z -> free_of g a -> exists z', y = a ++ z'.
Proof.
  induction a as [|x a IH]; intros y r z E Ha.
  - exists y. reflexivity.
  - inversion Ha as [|? ? Hx Ha']; subst.
    destruct y as [|c y]; simpl in E.
    + injection E as -> _. apply is_not_true in Hx. contradiction.
    + injection E as -> E. destruct (IH _ _ _ E Ha') as [z' ->].
      exists z'. reflexivity.
Qed.

Lemma m_lit (t y : text) (cs : caps) (k : text -> caps -> option result) :
  m (Lit t) (t ++ y) cs k = k y cs.
Proof. simpl. rewrite starts_with_app, drop_app_length. reflexivity. Qed.

Lemma Forall_removelast {A : Type} (P : A -> Prop) (l : list A) :
  Forall P l -> Forall P (removelast l).
Proof.
  induction l as [|x l IH]; intros H; [constructor|].
  inversion H as [|? ? Hx Hl]; subst. cbn [removelast].
  destruct l; [constructor | constructor; [exact Hx | exact (IH Hl)]].
Qed.

Lemma removelast_last (l : list ascii) :
  l <> [] -> exists c, l = removelast l ++ [c].
Proof.
  intros H. exists (List.last l " "%char). apply app_removelast_last. exact H.
Qed.

(** A text that ends with [>] is cut at its first [>]. *)
Lemma first_gt (s : text) :
  exists d r, s ++ txt ">" = d ++ txt ">" ++ r /\ free_of ">" d.
Proof.
  induction s as [|c s (d & r & E & Hd)].
  - exists [], []. split; [reflexivity | constructor].
  - destruct (ch_eqb c ">") eqn:Ec.
    + apply ch_eqb_eq in Ec. subst c.
      exists [], (s ++ txt ">"). split; [reflexivity | constructor].
    + exists (c :: d), r. split.
      * cbn [app]. rewrite E. reflexivity.
      * constructor; [|exact Hd]. unfold is_not. rewrite Ec. reflexivity.
Qed.

Lemma named_eq (name target : text) :
  named name target = true <-> target = name.
Proof.
  unfold named. split.
  - intros H. apply andb_true_iff in H as [Hp Hl].
    apply starts_with_inv in Hp as [r Hr]. apply Nat.eqb_eq in Hl.
    rewrite Hr, length_app in Hl.
    destruct r; [rewrite Hr; symmetry; apply app_nil_r | simpl in Hl; lia].
  - intros ->. rewrite <- (app_nil_r name) at 2.
    rewrite starts_with_app, Nat.eqb_refl. reflexivity.
Qed.

Lemma named_false (name target : text) :
  target <> name -> named name target = false.
Proof.
  intros H. destruct (named name target) eqn:E; [|reflexivity].
  apply named_eq in E. contradiction.
Qed.

Lemma named_false_inv (name target : text) :
  named name target = false -> target <> name.
Proof. intros H E. apply named_eq in E. congruence. Qed.

(** What a plain attribute is made of. *)
Lemma plain_attr_inv (a : attr) :
  plain_attr a = true ->
  a_space a <> []
  /\ Forall (fun c => is_space c = true) (a_space a)
  /\ Forall (fun c => is_space c = false) (a_name a)
  /\ (free_of "=" (a_name a) /\ free_of "<" (a_name a)
      /\ free_of ">" (a_name a) /\ free_of dq (a_name a))
  /\ free_of "<" (a_value a) /\ free_of dq (a_value a).
Proof.
  unfold plain_attr. intros H.
  apply andb_true_iff in H as [H Hv]. apply andb_true_iff in H as [H Hn].
  apply andb_true_iff in H as [Hne Hs].
  apply negb_true_iff, Nat.eqb_neq in Hne.
  rewrite forallb_forall in Hn, Hv.
  split; [intros E; rewrite E in Hne; contradiction|].
  split; [apply forallb_Forall, Hs|].
  assert (Hname : forall c, In c (a_name a) ->
            is_space c = false /\ is_not "=" c = true /\ is_not "<" c = true
            /\ is_not ">" c = true /\ is_not dq c = true).
  { intros c Hc. specialize (Hn c Hc).
    apply andb_true_iff in Hn as [H1 H2]. apply negb_true_iff in H1, H2.
    unfold one_of in H2. cbn [txt list_ascii_of_string app existsb] in H2.
    repeat (apply orb_false_iff in H2 as [? H2]).
    unfold is_not. repeat split; try assumption; apply negb_true_iff;
      assumption. }
  assert (Hvalue : forall c, In c (a_value a) ->
            is_not "<" c = true /\ is_not dq c = true).
  { intros c Hc. specialize (Hv c Hc). apply negb_true_iff in Hv.
    unfold one_of in Hv. cbn [txt list_ascii_of_string app existsb] in Hv.
    repeat (apply orb_false_iff in Hv as [? Hv]).
    unfold is_not. split; apply negb_true_iff; assumption. }
  unfold free_of. rewrite !List.Forall_forall.
  repeat split; intros c Hc;
    first [ apply (Hname c Hc) | apply (Hvalue c Hc) ].
Qed.

Lemma has_name_app (name : text) (l1 l2 : list attr) :
  has_name name (l1 ++ l2) = has_name name l1 || has_name name l2.
Proof. unfold has_name. apply existsb_app. Qed.

(** The two cases of [set_1em]: no attribute of that name, or a last one. *)
Lemma set_1em_cases (name : text) (attrs : list attr) :
  (has_name name attrs = false /\ set_1em name attrs = attrs)
  \/ exists before a after,
       attrs = before ++ a :: after
       /\ named name (a_name a) = true
       /\ has_name name after = false
       /\ set_1em name attrs = before ++ one_em a :: after.
Proof.
  induction attrs as [|a attrs IH].
  - left. split; reflexivity.
  - cbn [set_1em]. destruct (has_name name attrs) eqn:Hrest.
    + right. destruct IH as [[H _]|(before & b & after & -> & Hb & Ha & E)];
        [congruence|].
      exists (a :: before), b, after. rewrite E. repeat split; assumption.
    + destruct (named name (a_name a)) eqn:Ha.
      * right. exists [], a, attrs. repeat split; assumption.
      * left. split; [|reflexivity].
        unfold has_name in *. cbn [existsb]. rewrite Ha, Hrest. reflexivity.
Qed.

Lemma render_attrs_app (l1 l2 : list attr) :
  render_attrs (l1 ++ l2) = render_attrs l1 ++ render_attrs l2.
Proof. unfold render_attrs. rewrite map_app, concat_app. reflexivity. Qed.

Lemma render_attrs_cons (a : attr) (l : list attr) :
  render_attrs (a :: l) = render_attr a ++ render_attrs l.
Proof. reflexivity. Qed.

Lemma space_not (x c : ascii) :
  is_space x = false -> is_space c = true -> is_not x c = true.
Proof. intros Hx Hc. apply is_not_true. intros ->. congruence. Qed.

Lemma render_attr_free (x : ascii) (a : attr) :
  is_space x = false -> is_not x "="%char = true -> is_not x dq = true ->
  Forall (fun c => is_space c = true) (a_space a) ->
  free_of x (a_name a) -> free_of x (a_value a) ->
  free_of x (render_attr a).
Proof.
  intros Hx He Hq Hs Hn Hv. unfold render_attr, attribute.
  repeat (apply free_of_app; split); try assumption.
  - eapply Forall_impl; [exact Hs|]. intros c Hc. apply (space_not x c Hx Hc).
  - repeat constructor. exact He.
  - repeat constructor. exact Hq.
  - repeat constructor. exact Hq.
Qed.

Lemma render_attrs_no_lt (attrs : list attr) :
  forallb plain_attr attrs = true -> free_of "<" (render_attrs attrs).
Proof.
  induction attrs as [|a attrs IH]; intros H; [constructor|].
  cbn [forallb] in H. apply andb_true_iff in H as [Ha H].
  rewrite render_attrs_cons. apply free_of_app. split; [|exact (IH H)].
  destruct (plain_attr_inv a Ha) as (_ & Hsp & _ & (_ & Hl & _ & _) & Hvl & _).
  apply render_attr_free; try assumption; reflexivity.
Qed.

Lemma render_attrs_no_gt (attrs : list attr) :
  forallb plain_attr attrs = true ->
  Forall (fun b => forallb (is_not ">") (a_value b) = true) attrs ->
  free_of ">" (render_attrs attrs).
Proof.
  induction attrs as [|a attrs IH]; intros H Hg; [constructor|].
  cbn [forallb] in H. apply andb_true_iff in H as [Ha H].
  inversion Hg as [|? ? Hga Hg']; subst.
  rewrite render_attrs_cons. apply free_of_app. split; [|exact (IH H Hg')].
  destruct (plain_attr_inv a Ha) as (_ & Hsp & _ & (_ & _ & Hgn & _) & _ & _).
  apply render_attr_free; try assumption; try reflexivity.
  apply forallb_free. exact Hga.
Qed.

Lemma plain_end_no_lt (tend : text) :
  plain_end tend = true -> free_of "<" tend.
Proof.
  induction tend as [|c tend IH]; intros H; [constructor|].
  cbn [plain_end forallb] in H. apply andb_true_iff in H as [Hc H].
  constructor; [|exact (IH H)].
  apply is_not_true. intros ->. vm_compute in Hc. discriminate.
Qed.

Lemma gt_free_to_split (name : text) (before : list attr) (a : attr)
    (after : list attr) :
  gt_free_to name (before ++ a :: after) = true ->
  named name (a_name a) = true ->
  Forall (fun b => forallb (is_not ">") (a_value b) = true) (before ++ [a]).
Proof.
  intros H Ha. induction before as [|b before IH].
  - cbn [app gt_free_to] in H. apply andb_true_iff in H as [H _].
    unfold has_name in H. cbn [existsb] in H. rewrite Ha in H.
    cbn [orb negb] in H. repeat constructor. exact H.
  - cbn [app gt_free_to] in H. apply andb_true_iff in H as [Hb H].
    assert (Hn : has_name name (b :: before ++ a :: after) = true).
    { change (b :: before ++ a :: after) with ((b :: before) ++ a :: after).
      rewrite has_name_app. unfold has_name at 2. cbn [existsb].
      rewrite Ha. rewrite orb_true_r. reflexivity. }
    rewrite Hn in Hb. cbn [negb orb] in Hb.
    constructor; [exact Hb | exact (IH H)].
Qed.

Section Dimension.
Variable name : text.
Hypothesis name_no_gt : free_of ">" name.
Hypothesis name_no_space : Forall (fun c => is_space c = false) name.
Hypothesis name_no_eq : free_of "=" name.
Hypothesis name_no_dq : free_of dq name.
Hypothesis name_no_slash : free_of "/" name.

Lemma re_dimension_eq :
  re_dimension name =
    Cat (Lit (txt "<svg")) (Cat (Cap 1 (Rep true 0 (is_not ">"))) (re_tail name)).
Proof. reflexivity. Qed.

Lemma key_no_gt : free_of ">" (key name).
Proof.
  unfold key. apply free_of_app. split; [exact name_no_gt|].
  repeat constructor.
Qed.

Lemma key_no_space : Forall (fun c => is_space c = false) (key name).
Proof.
  unfold key. apply Forall_app. split; [exact name_no_space|].
  repeat constructor.
Qed.

Lemma key_head (y : text) : no_head is_space ((key name) ++ y).
Proof.
  unfold key. destruct name as [|c n'] eqn:E.
  - reflexivity.
  - simpl. inversion name_no_space; assumption.
Qed.

(** The tail of the pattern matches an attribute that follows one white
    space character, up to the first [>]. *)
Lemma re_tail_match (w : ascii) (v d rest : text) (cs : caps) :
  is_space w = true -> free_of dq v -> free_of ">" d ->
  m (re_tail name) (w :: (key name) ++ v ++ [dq] ++ d ++ txt ">" ++ rest) cs accept
    = Some (rest, (2, d) :: cs).
Proof.
  intros Hw Hv Hd. unfold re_tail. cbn [cat m].
  change (w :: (key name) ++ v ++ [dq] ++ d ++ txt ">" ++ rest)
    with ([w] ++ ((key name) ++ v ++ [dq] ++ d ++ txt ">" ++ rest)).
  apply rep_greedy_longest;
    [repeat constructor; exact Hw | apply key_head | simpl; lia |].
  rewrite starts_with_app, drop_app_length.
  rewrite (rep_greedy_longest _ _ v ([dq] ++ d ++ txt ">" ++ rest) 0
             (rest, (2, d) :: cs));
    [reflexivity | exact Hv | reflexivity | simpl; lia |].
  cbn [app starts_with]. rewrite ch_eqb_refl. cbn [andb length drop].
  rewrite (rep_greedy_longest _ _ d (txt ">" ++ rest) 0 (rest, (2, d) :: cs));
    [reflexivity | exact Hd | reflexivity | simpl; lia |].
  cbn. unfold accept. rewrite !drop_0, length_app. simpl.
  replace (length d + S (length rest) - S (length rest)) with (length d) by lia.
  rewrite take_app_length. reflexivity.
Qed.

(** A match of the tail starts with white space followed by the key. *)
Lemma re_tail_inv (x : text) (cs : caps) (res : result) :
  m (re_tail name) x cs accept = Some res ->
  exists ws z, x = ws ++ (key name) ++ z /\ ws <> []
               /\ Forall (fun c => is_space c = true) ws.
Proof.
  unfold re_tail. cbn [cat m]. intros H.
  apply rep_greedy_inv in H as (u & y & -> & Hu & Hlo & H).
  destruct (starts_with (key name) y) eqn:E; [|discriminate].
  apply starts_with_inv in E as [z ->].
  exists u, z. split; [reflexivity|]. split; [|exact Hu].
  intros ->. simpl in Hlo. lia.
Qed.

Lemma space_not_gt (c : ascii) : is_space c = true -> is_not ">" c = true.
Proof.
  intros H. apply is_not_true. intros ->. vm_compute in H. discriminate.
Qed.

Lemma match_needs_svg (s : text) :
  starts_with (txt "<svg") s = false ->
  match_here (re_dimension name) s = None.
Proof.
  intros H. unfold match_here. rewrite re_dimension_eq. cbn [m].
  rewrite H. reflexivity.
Qed.

(** *** Where the tail of the pattern cannot match

    [dead seg rest]: the tail matches at no position of [seg] when
    [rest] follows. *)
Definition dead (seg rest : text) : Prop :=
  forall j cs, j < length seg ->
    m (re_tail name) (drop j (seg ++ rest)) cs accept = None.

Lemma dead_nil (rest : text) : dead [] rest.
Proof. intros j cs Hj. simpl in Hj. lia. Qed.

Lemma dead_app (seg1 seg2 rest : text) :
  dead seg1 (seg2 ++ rest) -> dead seg2 rest -> dead (seg1 ++ seg2) rest.
Proof.
  intros H1 H2 j cs Hj. rewrite <- app_assoc.
  destruct (Nat.lt_ge_cases j (length seg1)) as [Hlt|Hge].
  - apply H1. exact Hlt.
  - rewrite drop_app_ge by exact Hge. apply H2.
    rewrite length_app in Hj. lia.
Qed.

Lemma tail_needs_space (x : text) (cs : caps) :
  no_head is_space x -> m (re_tail name) x cs accept = None.
Proof.
  intros Hx. destruct (m (re_tail name) x cs accept) as [res|] eqn:E;
    [|reflexivity].
  exfalso. apply re_tail_inv in E as (ws & z & -> & Hne & Hws).
  destruct ws as [|c ws]; [contradiction|].
  inversion Hws; subst. simpl in Hx. congruence.
Qed.

Lemma dead_no_space (seg rest : text) :
  Forall (fun c => is_space c = false) seg -> dead seg rest.
Proof.
  intros Hseg j cs Hj. apply tail_needs_space.
  rewrite drop_app_le by lia.
  destruct (drop j seg) as [|x r] eqn:E.
  - apply (f_equal length) in E. rewrite length_drop in E. simpl in E. lia.
  - assert (Hd : Forall (fun c => is_space c = false) (drop j seg))
      by (apply Forall_drop, Hseg).
    rewrite E in Hd. inversion Hd; subst. simpl. assumption.
Qed.

(** White space after which something else than the key follows. *)
Lemma dead_spaces (seg rest : text) :
  Forall (fun c => is_space c = true) seg ->
  no_head is_space rest ->
  starts_with (key name) rest = false ->
  dead seg rest.
Proof.
  intros Hseg Hrest Hkey j cs Hj.
  destruct (m (re_tail name) _ cs accept) as [res|] eqn:E; [|reflexivity].
  exfalso. apply re_tail_inv in E as (ws & z & E & Hne & Hws).
  rewrite drop_app_le in E by lia.
  apply (span_unique is_space) in E as [_ E].
  - rewrite E, starts_with_app in Hkey. discriminate.
  - apply Forall_drop, Hseg.
  - exact Hws.
  - exact Hrest.
  - apply key_head.
Qed.

(** The key is a prefix of [n=...] only for its own name. *)
Lemma key_prefix (n z y : text) :
  free_of "=" n -> name ++ txt "=" ++ z = n ++ txt "=" ++ y -> n = name.
Proof.
  intros Hn E.
  assert (H : name = n /\ txt "=" ++ z = txt "=" ++ y).
  { apply (span_unique (is_not "=")); try assumption; reflexivity. }
  symmetry. exact (proj1 H).
Qed.

Lemma ends_like_suffix (x : text) (c : ascii) :
  is_space c = true -> ends_like name (x ++ c :: name ++ txt "=") = true.
Proof.
  intros Hc. unfold ends_like.
  replace (x ++ c :: name ++ txt "=") with ((x ++ [c]) ++ (name ++ txt "="))
    by (rewrite <- app_assoc; reflexivity).
  rewrite (rev_app_distr (x ++ [c])), starts_with_app.
  rewrite <- (length_rev (name ++ txt "=")), drop_app_length.
  rewrite (rev_app_distr x). simpl.
  exact Hc.
Qed.

(** Inside a value: the key would have to end at the closing quote. *)
Lemma dead_value (v rest : text) :
  free_of dq v -> ends_like name v = false -> dead v (dq :: rest).
Proof.
  intros Hv Hend j cs Hj.
  destruct (m (re_tail name) _ cs accept) as [res|] eqn:E; [|reflexivity].
  exfalso. apply re_tail_inv in E as (ws & z & E & Hne & Hws).
  rewrite drop_app_le in E by lia.
  assert (H : drop j v = ws ++ name ++ txt "=" /\ dq :: rest = dq :: z).
  { apply (span_unique (is_not dq)).
    - apply Forall_drop. exact Hv.
    - apply Forall_app. split.
      + eapply Forall_impl; [exact Hws|]. intros c Hc.
        apply is_not_true. intros ->. vm_compute in Hc. discriminate.
      + apply Forall_app. split; [exact name_no_dq | repeat constructor].
    - simpl. unfold is_not. rewrite ch_eqb_refl. reflexivity.
    - simpl. unfold is_not. rewrite ch_eqb_refl. reflexivity.
    - rewrite E. unfold key. rewrite <- !app_assoc. reflexivity. }
  destruct H as [H _].
  destruct (removelast_last ws Hne) as [c Hc].
  assert (Hsp : is_space c = true).
  { rewrite Hc in Hws. apply Forall_app in Hws as [_ Hws].
    inversion Hws; assumption. }
  rewrite <- (take_drop j v), H, Hc in Hend.
  replace (take j v ++ (removelast ws ++ [c]) ++ name ++ txt "=")
    with ((take j v ++ removelast ws) ++ c :: name ++ txt "=") in Hend
    by (rewrite <- !app_assoc; reflexivity).
  rewrite ends_like_suffix in Hend by exact Hsp. discriminate.
Qed.

Lemma key_not_at (x : ascii) (r : text) :
  x = "/"%char \/ x = ">"%char -> starts_with (key name) (x :: r) = false.
Proof.
  intros Hx. unfold key. destruct name as [|c n] eqn:E.
  - destruct Hx as [->| ->]; reflexivity.
  - cbn [app starts_with].
    destruct (ch_eqb c x) eqn:Ec; [|reflexivity].
    apply ch_eqb_eq in Ec. subst x. exfalso.
    inversion name_no_slash as [|? ? Hs _]; subst.
    inversion name_no_gt as [|? ? Hg _]; subst.
    apply is_not_true in Hs, Hg. destruct Hx; contradiction.
Qed.

(** Before the closing [>]: white space and slashes. *)
Lemma plain_end_split (tend rest : text) :
  plain_end tend = true ->
  exists sp x r,
    tend ++ txt ">" ++ rest = sp ++ x :: r
    /\ Forall (fun c => is_space c = true) sp
    /\ (x = "/"%char \/ x = ">"%char).
Proof.
  induction tend as [|c tend IH]; intros H.
  - exists [], ">"%char, rest. repeat split; [constructor | right; reflexivity].
  - cbn [plain_end forallb] in H. apply andb_true_iff in H as [Hc Ht].
    destruct (is_space c) eqn:Es.
    + destruct (IH Ht) as (sp & x & r & E & Hsp & Hx).
      exists (c :: sp), x, r. cbn [app]. rewrite E.
      repeat split; [constructor; assumption | exact Hx].
    + cbn [orb] in Hc. apply ch_eqb_eq in Hc. subst c.
      exists [], "/"%char, (tend ++ txt ">" ++ rest).
      repeat split; [constructor | left; reflexivity].
Qed.

Lemma dead_end (tend rest : text) :
  plain_end tend = true -> dead tend (txt ">" ++ rest).
Proof.
  induction tend as [|c tend IH]; intros H; [apply dead_nil|].
  pose proof H as H'.
  cbn [plain_end forallb] in H. apply andb_true_iff in H as [Hc Ht].
  change (c :: tend) with ([c] ++ tend).
  apply dead_app; [|exact (IH Ht)].
  destruct (is_space c) eqn:Es.
  - destruct (plain_end_split tend rest Ht) as (sp & x & r & E & Hsp & Hx).
    intros j cs Hj. simpl in Hj. assert (j = 0) as -> by lia.
    rewrite drop_0. cbn [app]. rewrite E.
    assert (Hd : dead (c :: sp) (x :: r)).
    { apply dead_spaces.
      - constructor; assumption.
      - simpl. destruct Hx as [->| ->]; reflexivity.
      - apply key_not_at, Hx. }
    specialize (Hd 0 cs ltac:(simpl; lia)). rewrite drop_0 in Hd. exact Hd.
  - apply dead_no_space. repeat constructor. exact Es.
Qed.

Lemma dead_attr (a : attr) (rest : text) :
  plain_attr a = true ->
  named name (a_name a) = false ->
  ends_like name (a_value a) = false ->
  dead (render_attr a) rest.
Proof.
  intros Hp Hn He.
  destruct (plain_attr_inv a Hp)
    as (_ & Hsp & Hns & (Heq & _ & _ & _) & _ & Hvq).
  unfold render_attr, attribute.
  replace (a_space a ++ a_name a ++ txt "=" ++ [dq] ++ a_value a ++ [dq])
    with (a_space a ++ (a_name a ++ txt "=" ++ [dq]) ++ a_value a ++ [dq])
    by (rewrite <- !app_assoc; reflexivity).
  apply dead_app; [|apply dead_app; [|apply dead_app]].
  - apply dead_spaces; [exact Hsp | |].
    + destruct (a_name a) as [|c n] eqn:E; [reflexivity|].
      simpl. inversion Hns; assumption.
    + match goal with |- starts_with _ ?t = false =>
        destruct (starts_with (key name) t) eqn:Es; [|reflexivity] end.
      exfalso. apply starts_with_inv in Es as [r Es].
      assert (a_name a = name).
      { apply (key_prefix (a_name a) ([dq] ++ r)
                 ([dq] ++ (a_value a ++ [dq]) ++ rest) Heq).
        unfold key in Es. rewrite <- !app_assoc in Es.
        rewrite <- !app_assoc. symmetry. exact Es. }
      apply named_false_inv in Hn. contradiction.
  - apply dead_no_space. apply Forall_app. split; [exact Hns|].
    repeat constructor.
  - apply dead_value; assumption.
  - apply dead_no_space. repeat constructor.
Qed.

Lemma dead_attrs (attrs : list attr) (rest : text) :
  forallb plain_attr attrs = true ->
  has_name name attrs = false ->
  no_fake name attrs = true ->
  dead (render_attrs attrs) rest.
Proof.
  induction attrs as [|a attrs IH]; intros Hp Hn Hf; [apply dead_nil|].
  cbn [forallb] in Hp. apply andb_true_iff in Hp as [Hpa Hp].
  unfold has_name in Hn. cbn [existsb] in Hn.
  apply orb_false_iff in Hn as [Hna Hn].
  cbn [no_fake] in Hf. apply andb_true_iff in Hf as [Hfa Hf].
  unfold has_name in Hfa. rewrite Hn in Hfa. cbn [orb] in Hfa.
  apply negb_true_iff in Hfa.
  unfold render_attrs. cbn [map concat].
  apply dead_app.
  - apply dead_attr; assumption.
  - apply IH; assumption.
Qed.

(** *** One tag *)

Lemma no_lt_no_match (y rest : text) (j : nat) :
  free_of "<" y -> j < length y ->
  match_here (re_dimension name) (drop j (y ++ rest)) = None.
Proof.
  intros Hy Hj. apply match_needs_svg.
  rewrite drop_app_le by lia.
  destruct (drop j y) as [|x r] eqn:E.
  - apply (f_equal length) in E. rewrite length_drop in E. simpl in E. lia.
  - assert (Hd : free_of "<" (drop j y)) by (apply Forall_drop, Hy).
    rewrite E in Hd. inversion Hd as [|? ? Hx _]; subst.
    cbn [app starts_with txt list_ascii_of_string].
    unfold is_not in Hx. apply negb_true_iff in Hx.
    destruct (ch_eqb "<" x) eqn:Ex; [|reflexivity].
    apply ch_eqb_eq in Ex. subst x. rewrite ch_eqb_refl in Hx. discriminate.
Qed.

Lemma skip_no_lt (y rest : text) :
  free_of "<" y ->
  replace_all (re_dimension name) (tmpl_dimension name) (y ++ rest)
  = y ++ replace_all (re_dimension name) (tmpl_dimension name) rest.
Proof.
  intros Hy. apply replace_all_prefix. intros i Hi.
  apply no_lt_no_match; assumption.
Qed.

(** A tag without an attribute of the name: no match at its start. *)
Lemma tag_miss (attrs : list attr) (tend rest : text) :
  forallb plain_attr attrs = true ->
  has_name name attrs = false ->
  no_fake name attrs = true ->
  plain_end tend = true ->
  match_here (re_dimension name)
    (txt "<svg" ++ render_attrs attrs ++ tend ++ txt ">" ++ rest) = None.
Proof.
  intros Hp Hn Hf He.
  unfold match_here. rewrite re_dimension_eq. cbn [m].
  rewrite starts_with_app, drop_app_length.
  rewrite (app_assoc (render_attrs attrs) tend).
  apply rep_greedy_none_upto; [reflexivity|].
  intros j Hj.
  destruct (Nat.lt_ge_cases j (length (render_attrs attrs ++ tend)))
    as [Hlt|Hge].
  - assert (Hd : dead (render_attrs attrs ++ tend) (txt ">" ++ rest)).
    { apply dead_app; [apply dead_attrs; assumption | apply dead_end, He]. }
    apply Hd. exact Hlt.
  - assert (j = length (render_attrs attrs ++ tend)) as -> by lia.
    rewrite drop_app_length. apply tail_needs_space. reflexivity.
Qed.

(** A tag whose last attribute of the name is [a]: the match, with what
    is left of the tag behind its first [>]. *)
Lemma tag_hit (before : list attr) (a : attr) (after : list attr)
    (tend rest : text) :
  forallb plain_attr (before ++ a :: after) = true ->
  named name (a_name a) = true ->
  has_name name after = false ->
  gt_free_to name (before ++ a :: after) = true ->
  no_fake name (before ++ a :: after) = true ->
  plain_end tend = true ->
  exists d r,
    render_attrs after ++ tend ++ txt ">" = d ++ txt ">" ++ r
    /\ free_of "<" r
    /\ match_here (re_dimension name)
         (txt "<svg" ++ render_attrs (before ++ a :: after) ++ tend
            ++ txt ">" ++ rest)
       = Some (r ++ rest,
               [(2, d); (1, render_attrs before ++ removelast (a_space a))]).
Proof.
  intros Hp Ha Hafter Hg Hf He.
  rewrite forallb_app in Hp. apply andb_true_iff in Hp as [Hpb Hp].
  cbn [forallb] in Hp. apply andb_true_iff in Hp as [Hpa Hpafter].
  destruct (plain_attr_inv a Hpa)
    as (Hne & Hsp & _ & (_ & _ & _ & _) & _ & Hvq).
  apply named_eq in Ha as Hname.
  pose proof (gt_free_to_split name before a after Hg Ha) as Hgt.
  apply Forall_app in Hgt as [Hgb Hga]. pose proof (Forall_inv Hga) as Hgv.
  assert (Hfa : ends_like name (a_value a) = false /\ no_fake name after = true).
  { clear - Hf Hafter. induction before as [|b before IH].
    - cbn [app no_fake] in Hf. apply andb_true_iff in Hf as [H1 H2].
      rewrite Hafter in H1. cbn [orb] in H1. apply negb_true_iff in H1.
      split; assumption.
    - cbn [app no_fake] in Hf. apply andb_true_iff in Hf as [_ Hf].
      exact (IH Hf). }
  destruct Hfa as [Hfv Hfafter].
  destruct (first_gt (render_attrs after ++ tend)) as (d & r & E & Hd).
  rewrite <- app_assoc in E.
  assert (Hr : free_of "<" r).
  { assert (Hall : free_of "<" (render_attrs after ++ tend ++ txt ">")).
    { apply free_of_app. split; [apply render_attrs_no_lt, Hpafter|].
      apply free_of_app. split; [apply plain_end_no_lt, He|].
      repeat constructor. }
    rewrite E in Hall. apply free_of_app in Hall as [_ Hall].
    apply free_of_app in Hall as [_ Hall]. exact Hall. }
  exists d, r. split; [exact E|]. split; [exact Hr|].
  destruct (removelast_last (a_space a) Hne) as [w Hw].
  assert (Hws : is_space w = true).
  { rewrite Hw in Hsp. apply Forall_app in Hsp as [_ Hsp].
    inversion Hsp; assumption. }
  set (c := render_attrs before ++ removelast (a_space a)).
  set (u2 := w :: key name ++ a_value a ++ [dq] ++ render_attrs after ++ tend).
  assert (Etext : render_attrs (before ++ a :: after) ++ tend ++ txt ">" ++ rest
                  = c ++ u2 ++ txt ">" ++ rest).
  { unfold c, u2. rewrite render_attrs_app, render_attrs_cons.
    unfold render_attr, attribute, key. rewrite Hname.
    rewrite Hw at 1. norm_app. reflexivity. }
  unfold match_here. rewrite re_dimension_eq. cbn [m].
  rewrite starts_with_app, drop_app_length. rewrite Etext.
  apply rep_greedy_last_upto.
  - unfold c. apply free_of_app. split.
    + apply render_attrs_no_gt; assumption.
    + apply Forall_removelast. eapply Forall_impl; [exact Hsp|].
      intros x Hx. apply space_not_gt, Hx.
  - reflexivity.
  - intros j Hj. destruct j as [|j]; [lia|].
    unfold u2 in *. cbn [length] in Hj.
    change (drop (S j) ((w :: key name ++ a_value a ++ [dq]
                           ++ render_attrs after ++ tend) ++ txt ">" ++ rest))
      with (drop j ((key name ++ a_value a ++ [dq]
                       ++ render_attrs after ++ tend) ++ txt ">" ++ rest)).
    destruct (Nat.lt_ge_cases j
                (length (key name ++ a_value a ++ [dq]
                           ++ render_attrs after ++ tend))) as [Hlt|Hge].
    + assert (Hdead : dead (key name ++ a_value a ++ [dq]
                              ++ render_attrs after ++ tend)
                        (txt ">" ++ rest)).
      { apply dead_app; [apply dead_no_space, key_no_space|].
        apply dead_app.
        { rewrite <- app_assoc. apply dead_value; assumption. }
        apply dead_app; [apply dead_no_space; repeat constructor|].
        apply dead_app; [apply dead_attrs; assumption | apply dead_end, He]. }
      apply Hdead. exact Hlt.
    + assert (j = length (key name ++ a_value a ++ [dq]
                            ++ render_attrs after ++ tend)) as -> by lia.
      rewrite drop_app_length. apply tail_needs_space. reflexivity.
  - replace (length (c ++ u2 ++ txt ">" ++ rest)
             - length (u2 ++ txt ">" ++ rest)) with (length c)
      by (rewrite (length_app c); lia).
    rewrite take_app_length.
    replace (u2 ++ txt ">" ++ rest)
      with (w :: key name ++ a_value a ++ [dq] ++ d ++ txt ">" ++ (r ++ rest)).
    + apply re_tail_match; [exact Hws | exact Hvq | exact Hd].
    + unfold u2. cbn [app]. f_equal. rewrite <- !app_assoc.
      do 3 f_equal. cbn [app]. f_equal.
      transitivity ((render_attrs after ++ tend ++ txt ">") ++ rest);
        [rewrite E|]; rewrite <- !app_assoc; reflexivity.
Qed.

(** The rewrite of one tag, and the search goes on behind it. *)
Lemma tag_rewrite (t : svg_tag) (rest : text) :
  ready name t = true ->
  replace_all (re_dimension name) (tmpl_dimension name) (render_tag t ++ rest)
  = render_tag (set_tag name t)
    ++ replace_all (re_dimension name) (tmpl_dimension name) rest.
Proof.
  unfold ready. intros H.
  apply andb_true_iff in H as [H He]. apply andb_true_iff in H as [H Hf].
  apply andb_true_iff in H as [Hp Hg].
  destruct t as [attrs tend]. cbn [t_attrs t_end] in *.
  unfold render_tag, set_tag. cbn [t_attrs t_end].
  destruct (set_1em_cases name attrs)
    as [[Hn ->]|(before & a & after & -> & Ha & Hafter & ->)].
  - apply replace_all_prefix. intros i Hi. destruct i as [|i].
    + rewrite drop_0, <- !app_assoc. apply tag_miss; assumption.
    + change (drop (S i) ((txt "<svg" ++ render_attrs attrs ++ tend ++ txt ">")
                            ++ rest))
        with (drop i ((txt "svg" ++ render_attrs attrs ++ tend ++ txt ">")
                        ++ rest)).
      apply no_lt_no_match.
      * apply free_of_app. split; [repeat constructor|].
        apply free_of_app. split; [apply render_attrs_no_lt, Hp|].
        apply free_of_app. split; [apply plain_end_no_lt, He|].
        repeat constructor.
      * change (txt "<svg") with ("<"%char :: txt "svg") in Hi.
        cbn [app length] in Hi. lia.
  - destruct (tag_hit before a after tend rest Hp Ha Hafter Hg Hf He)
      as (d & r & E & Hr & Hm).
    rewrite <- !app_assoc.
    rewrite (replace_all_hit _ _ _ _ _ Hm).
    + rewrite skip_no_lt by exact Hr.
      unfold tmpl_dimension. cbn [subst cap_get Nat.eqb default].
      rewrite !render_attrs_app, !render_attrs_cons.
      unfold id, render_attr, attribute, one_em. cbn [a_space a_name a_value].
      apply named_eq in Ha. rewrite Ha.
      assert (E' : forall x,
                render_attrs after ++ tend ++ txt ">" ++ x
                = d ++ txt ">" ++ r ++ x).
      { intros x.
        transitivity ((render_attrs after ++ tend ++ txt ">") ++ x);
          [|rewrite E]; rewrite <- !app_assoc; reflexivity. }
      rewrite <- !app_assoc. rewrite E'. reflexivity.
    + apply (f_equal length) in E.
      rewrite render_attrs_app, render_attrs_cons.
      repeat first [ rewrite length_app | rewrite length_app in E ].
      cbn [length txt list_ascii_of_string] in *. lia.
Qed.

(** *** A whole document *)

(** Inside text without [<svg] no match starts, whatever tag follows. *)
Lemma skip_pre (pre x : text) :
  occursb (txt "<svg") pre = false ->
  replace_all (re_dimension name) (tmpl_dimension name)
    (pre ++ txt "<svg" ++ x)
  = pre ++ replace_all (re_dimension name) (tmpl_dimension name)
             (txt "<svg" ++ x).
Proof.
  intros Hpre. apply replace_all_prefix. intros i Hi.
  apply match_needs_svg.
  pose proof (occursb_drop _ _ i Hpre) as Hd.
  rewrite drop_app_le by lia.
  destruct (starts_with (txt "<svg") (drop i pre ++ txt "<svg" ++ x)) eqn:E;
    [|reflexivity].
  exfalso. apply starts_with_inv in E as [r E].
  destruct (drop i pre) as [|a [|b [|c [|d y]]]] eqn:Ey.
  - apply (f_equal length) in Ey. rewrite length_drop in Ey. simpl in Ey. lia.
  - discriminate E.
  - discriminate E.
  - discriminate E.
  - injection E as -> -> -> -> _. discriminate Hd.
Qed.

Lemma pass (doc : list (text * svg_tag)) (last : text) :
  Forall (fun p => occursb (txt "<svg") (fst p) = false
                   /\ ready name (snd p) = true) doc ->
  occursb (txt "<svg") last = false ->
  replace_all (re_dimension name) (tmpl_dimension name) (render doc last)
  = render (map (fun p => (fst p, set_tag name (snd p))) doc) last.
Proof.
  intros Hdoc Hlast. induction doc as [|[pre t] doc IH].
  - cbn [render map]. apply replace_all_none. intros i.
    apply match_needs_svg, occursb_drop, Hlast.
  - inversion Hdoc as [|? ? [Hpre Ht] Hdoc']; subst. cbn [fst snd] in *.
    cbn [render map fst snd].
    unfold render_tag at 1. rewrite <- !app_assoc.
    rewrite skip_pre by exact Hpre. f_equal.
    replace (txt "<svg" ++ render_attrs (t_attrs t) ++ t_end t ++ txt ">"
               ++ render doc last)
      with (render_tag t ++ render doc last)
      by (unfold render_tag; rewrite <- !app_assoc; reflexivity).
    rewrite tag_rewrite by exact Ht. rewrite (IH Hdoc'). reflexivity.
Qed.

End Dimension.

(** *** Both rewrites *)

Lemma width_name :
  free_of ">" (txt "width")
  /\ Forall (fun c => is_space c = false) (txt "width")
  /\ free_of "=" (txt "width") /\ free_of dq (txt "width")
  /\ free_of "/" (txt "width").
Proof. repeat split; repeat constructor. Qed.

Lemma height_name :
  free_of ">" (txt "height")
  /\ Forall (fun c => is_space c = false) (txt "height")
  /\ free_of "=" (txt "height") /\ free_of dq (txt "height")
  /\ free_of "/" (txt "height").
Proof. repeat split; repeat constructor. Qed.

(** [set_1em] keeps the names, and what the other rewrite needs. *)
Lemma has_name_set (n n' : text) (attrs : list attr) :
  has_name n' (set_1em n attrs) = has_name n' attrs.
Proof.
  induction attrs as [|a attrs IH]; [reflexivity|].
  cbn [set_1em]. destruct (has_name n attrs).
  - unfold has_name in *. cbn [existsb]. rewrite IH. reflexivity.
  - destruct (named n (a_name a)); reflexivity.
Qed.

Lemma plain_one_em (a : attr) : plain_attr a = true -> plain_attr (one_em a) = true.
Proof.
  unfold plain_attr, one_em. cbn [a_space a_name a_value]. intros H.
  apply andb_true_iff in H as [H _]. apply andb_true_iff in H as [H Hn].
  apply andb_true_iff in H as [_ Hs].
  rewrite Hn. rewrite length_app. cbn [length txt list_ascii_of_string].
  replace (length (removelast (a_space a)) + 1 =? 0) with false
    by (symmetry; apply Nat.eqb_neq; lia).
  rewrite forallb_app.
  assert (Hr : forallb is_space (removelast (a_space a)) = true).
  { apply forallb_forall. intros c Hc.
    apply forallb_Forall in Hs. apply (Forall_removelast _ _) in Hs.
    rewrite List.Forall_forall in Hs. exact (Hs c Hc). }
  rewrite Hr. reflexivity.
Qed.

Lemma plain_set (n : text) (attrs : list attr) :
  forallb plain_attr attrs = true ->
  forallb plain_attr (set_1em n attrs) = true.
Proof.
  induction attrs as [|a attrs IH]; intros H; [reflexivity|].
  cbn [forallb] in H. apply andb_true_iff in H as [Ha H].
  cbn [set_1em]. destruct (has_name n attrs).
  - cbn [forallb]. rewrite Ha, (IH H). reflexivity.
  - destruct (named n (a_name a)); cbn [forallb];
      rewrite ?plain_one_em by exact Ha; rewrite ?Ha, H; reflexivity.
Qed.

Lemma gt_free_set (n n' : text) (attrs : list attr) :
  gt_free_to n' attrs = true -> gt_free_to n' (set_1em n attrs) = true.
Proof.
  induction attrs as [|a attrs IH]; intros H; [reflexivity|].
  cbn [gt_free_to] in H. apply andb_true_iff in H as [Ha H].
  cbn [set_1em]. destruct (has_name n attrs) eqn:Hn.
  - cbn [gt_free_to]. rewrite (IH H), andb_true_r.
    unfold has_name in *. cbn [existsb] in *.
    rewrite (has_name_set n n' attrs : existsb _ _ = existsb _ _). exact Ha.
  - destruct (named n (a_name a)).
    + cbn [gt_free_to]. rewrite H, andb_true_r.
      cbn [one_em a_value]. apply orb_true_r.
    + cbn [gt_free_to]. rewrite H, Ha. reflexivity.
Qed.

Lemma no_fake_set (n n' : text) (attrs : list attr) :
  ends_like n' (txt "1em") = false ->
  no_fake n' attrs = true -> no_fake n' (set_1em n attrs) = true.
Proof.
  intros Hem. induction attrs as [|a attrs IH]; intros H; [reflexivity|].
  cbn [no_fake] in H. apply andb_true_iff in H as [Ha H].
  cbn [set_1em]. destruct (has_name n attrs) eqn:Hn.
  - cbn [no_fake]. rewrite (IH H), andb_true_r, has_name_set. exact Ha.
  - destruct (named n (a_name a)).
    + cbn [no_fake]. rewrite H, andb_true_r.
      cbn [one_em a_value]. rewrite Hem. apply orb_true_r.
    + cbn [no_fake]. rewrite H, Ha. reflexivity.
Qed.

Lemma ready_set (n n' : text) (t : svg_tag) :
  ends_like n' (txt "1em") = false ->
  ready n' t = true -> ready n' (set_tag n t) = true.
Proof.
  unfold ready, set_tag. cbn [t_attrs t_end]. intros Hem H.
  apply andb_true_iff in H as [H He]. apply andb_true_iff in H as [H Hf].
  apply andb_true_iff in H as [Hp Hg].
  rewrite plain_set, gt_free_set, no_fake_set, He by assumption. reflexivity.
Qed.

(** With at most one attribute of the name, [set_1em] is a map. *)
Lemma set_1em_absent (n : text) (attrs : list attr) :
  has_name n attrs = false ->
  map (fun a => if named n (a_name a) then one_em a else a) attrs = attrs.
Proof.
  induction attrs as [|a attrs IH]; intros H; [reflexivity|].
  unfold has_name in H. cbn [existsb] in H.
  apply orb_false_iff in H as [Ha H].
  cbn [map]. rewrite Ha, (IH H). reflexivity.
Qed.

Lemma set_1em_map (n : text) (attrs : list attr) :
  at_most_once n attrs = true ->
  set_1em n attrs
  = map (fun a => if named n (a_name a) then one_em a else a) attrs.
Proof.
  induction attrs as [|a attrs IH]; intros H; [reflexivity|].
  cbn [at_most_once] in H. apply andb_true_iff in H as [Ha H].
  apply negb_true_iff in Ha. cbn [set_1em map].
  destruct (has_name n attrs) eqn:Hn.
  - rewrite andb_true_r in Ha. rewrite Ha, (IH H). reflexivity.
  - rewrite (set_1em_absent n attrs Hn).
    destruct (named n (a_name a)); reflexivity.
Qed.

Lemma at_most_once_map (n : text) (f : attr -> attr) (attrs : list attr) :
  (forall a, a_name (f a) = a_name a) ->
  at_most_once n (map f attrs) = at_most_once n attrs.
Proof.
  intros Hf. induction attrs as [|a attrs IH]; [reflexivity|].
  cbn [map at_most_once]. rewrite IH, Hf. do 3 f_equal.
  unfold has_name. clear IH. induction attrs as [|b attrs IH]; [reflexivity|].
  cbn [map existsb]. rewrite Hf, IH. reflexivity.
Qed.

Lemma set_dimensions_all (attrs : list attr) :
  at_most_once (txt "width") attrs = true ->
  at_most_once (txt "height") attrs = true ->
  set_1em (txt "height") (set_1em (txt "width") attrs)
  = all_dimensions_1em attrs.
Proof.
  intros Hw Hh. rewrite (set_1em_map (txt "width") attrs Hw).
  rewrite set_1em_map.
  - unfold all_dimensions_1em, is_dimension. rewrite map_map.
    apply map_ext. intros a.
    destruct (named (txt "width") (a_name a)) eqn:Ew.
    + cbn [one_em a_name orb]. apply named_eq in Ew. rewrite Ew. reflexivity.
    + reflexivity.
  - rewrite at_most_once_map; [exact Hh|].
    intros a. destruct (named (txt "width") (a_name a)); reflexivity.
Qed.

Lemma well_formed_inv (doc : list (text * svg_tag)) (last : text) :
  well_formed doc last = true ->
  Forall (fun p => occursb (txt "<svg") (fst p) = false
                   /\ well_formed_tag (snd p) = true) doc
  /\ occursb (txt "<svg") last = false.
Proof.
  induction doc as [|[pre t] doc IH]; intros H.
  - split; [constructor | apply negb_true_iff, H].
  - cbn [well_formed] in H. apply andb_true_iff in H as [H Hdoc].
    apply andb_true_iff in H as [Hpre Ht]. apply negb_true_iff in Hpre.
    destruct (IH Hdoc) as [Hall Hlast].
    split; [|exact Hlast]. constructor; [split; assumption | exact Hall].
Qed.




End VueProps.

(** ** The CommonJS rewrites of the React transform *)

Module ReactProps.
Import Regex Build MatcherFacts.

Lemma any_char_all (s : text) : Forall (fun c => any_char c = true) s.
Proof. induction s; constructor; [reflexivity | assumption]. Qed.

(** Before the end of the body nothing closes the descriptor. *)
Lemma body_not_closed (body z : text) (j : nat) :
  occursb (txt "})") (body ++ txt "}") = false ->
  j < length body ->
  starts_with (txt "})") (drop j (body ++ txt "})" ++ z)) = false.
Proof.
  intros Hocc Hj. apply occursb_false in Hocc.
  destruct (starts_with _ _) eqn:E; [|reflexivity].
  exfalso. apply Hocc.
  rewrite drop_app_le in E by lia.
  destruct (drop j body) as [|x b'] eqn:Eb.
  - apply (f_equal length) in Eb. rewrite length_drop in Eb. simpl in Eb. lia.
  - apply starts_with_inv in E as [r E].
    destruct b' as [|y b''].
    + simpl in E. injection E as _ E. discriminate E.
    + simpl in E. injection E as -> -> _.
      exists (take j body), (b'' ++ txt "}").
      rewrite <- (take_drop j body) at 1. rewrite Eb.
      norm_app. reflexivity.
Qed.

Lemma define_default_match (body ws rest : text) :
  occursb (txt "})") (body ++ txt "}") = false ->
  forallb is_space ws = true ->
  head_is is_space rest = false ->
  match_here re_define_default (define_default_statement body ws ++ rest)
  = Some (rest, []).
Proof.
  intros Hbody Hws Hrest.
  apply forallb_Forall in Hws. apply head_is_false in Hrest.
  replace (define_default_statement body ws ++ rest)
    with (txt "Object.defineProperty(exports," ++ txt " " ++ dq :: txt "default"
            ++ dq :: txt "," ++ txt " " ++ txt "{" ++ body ++ txt "})"
            ++ txt ";" ++ ws ++ rest)
    by (unfold define_default_statement; norm_app; reflexivity).
  unfold match_here, re_define_default. cbn [cat m].
  rewrite starts_with_app, drop_app_length.
  apply rep_greedy_longest; [repeat constructor | reflexivity | simpl; lia |].
  change (quote_char dq) with true. cbn iota.
  rewrite starts_with_app, drop_app_length.
  change (quote_char dq) with true. cbn iota.
  rewrite starts_with_app, drop_app_length.
  apply rep_greedy_longest; [repeat constructor | reflexivity | simpl; lia |].
  rewrite starts_with_app, drop_app_length.
  apply rep_lazy_first.
  - apply any_char_all.
  - intros j Hj.
    rewrite (body_not_closed body (txt ";" ++ ws ++ rest) j Hbody Hj).
    reflexivity.
  - rewrite starts_with_app, drop_app_length.
    rewrite starts_with_app, drop_app_length.
    rewrite (rep_greedy_longest _ _ ws rest 0 (rest, []));
      [reflexivity | exact Hws | exact Hrest | lia | reflexivity].
Qed.

Lemma define_default_needs_literal (s : text) :
  starts_with (txt "Object.defineProperty(exports,") s = false ->
  match_here re_define_default s = None.
Proof.
  intros H. unfold match_here, re_define_default. cbn [cat m].
  rewrite H. reflexivity.
Qed.

Lemma line_terminator_is_space (c : ascii) :
  is_line_terminator c = true -> is_space c = true.
Proof.
  unfold is_line_terminator, is_space. intros H.
  apply orb_true_iff in H as [H|H]; apply Nat.eqb_eq in H; rewrite H;
    reflexivity.
Qed.

Lemma stops_line_split (s : text) :
  stops_line s = true ->
  exists sp x rest,
    s = sp ++ x :: rest
    /\ Forall (fun c => is_space c = true) sp
    /\ Forall (fun c => is_line_terminator c = false) sp
    /\ is_space x = false.
Proof.
  induction s as [|c s IH]; intros H; [discriminate H|].
  cbn [stops_line] in H. destruct (is_space c) eqn:Ec.
  - apply andb_true_iff in H as [Hc Hs]. apply negb_true_iff in Hc.
    destruct (IH Hs) as (sp & x & rest & -> & Hsp & Hlt & Hx).
    exists (c :: sp), x, rest. repeat split; try constructor; assumption.
  - exists [], c, s. repeat split; try constructor. exact Ec.
Qed.

(** The end of the second pattern: white space, then the end of a line. *)
Lemma line_end_match (ws after : text) (cs : caps) :
  forallb is_space ws = true ->
  at_line_end after = true ->
  m (Rep true 0 is_space) (ws ++ after) cs (fun s' cs' => m Eol s' cs' accept)
  = Some (after, cs).
Proof.
  intros Hws Hafter. apply forallb_Forall in Hws. cbn [m].
  destruct after as [|lt tail].
  - apply rep_greedy_longest; [exact Hws | exact I | lia | reflexivity].
  - cbn [at_line_end] in Hafter. apply andb_true_iff in Hafter as [Hlt Htail].
    destruct (stops_line_split _ Htail) as (sp & x & rest & -> & Hsp & Hnl & Hx).
    replace (ws ++ lt :: sp ++ x :: rest)
      with (ws ++ (lt :: sp) ++ x :: rest) by reflexivity.
    apply rep_greedy_last.
    + exact Hws.
    + constructor; [apply line_terminator_is_space, Hlt | exact Hsp].
    + exact Hx.
    + intros j Hj. destruct j as [|j]; [lia|].
      cbn [length] in Hj.
      change (drop (S j) ((lt :: sp) ++ x :: rest))
        with (drop j (sp ++ x :: rest)).
      destruct (Nat.lt_ge_cases j (length sp)) as [Hlt'|Hge].
      * rewrite drop_app_le by lia.
        destruct (drop j sp) as [|y r] eqn:E.
        { apply (f_equal length) in E. rewrite length_drop in E.
          simpl in E. lia. }
        assert (Hy : is_line_terminator y = false).
        { assert (Hd : Forall (fun c => is_line_terminator c = false)
                         (drop j sp)) by (apply Forall_drop, Hnl).
          rewrite E in Hd. inversion Hd; assumption. }
        cbn [app m]. rewrite Hy. reflexivity.
      * assert (j = length sp) as -> by lia.
        rewrite drop_app_length. cbn [m].
        destruct (is_line_terminator x) eqn:Ex; [|reflexivity].
        apply line_terminator_is_space in Ex. congruence.
    + cbn [app m]. rewrite Hlt. reflexivity.
Qed.

Lemma const_default_match (e ws after : text) :
  forallb (is_not ";") e = true ->
  head_is (fun c => negb (is_space c)) e = true ->
  forallb is_space ws = true ->
  at_line_end after = true ->
  match_here re_const_default (const_default_statement e ws ++ after)
  = Some (after, [(1, e)]).
Proof.
  intros He Hhead Hws Hafter.
  apply forallb_Forall in He.
  assert (Hne : 1 <= length e) by (destruct e; [discriminate | simpl; lia]).
  assert (Hnh : no_head is_space (e ++ txt ";" ++ ws ++ after)).
  { destruct e as [|c e']; [discriminate|]. simpl in *.
    apply negb_true_iff. exact Hhead. }
  replace (const_default_statement e ws ++ after)
    with (txt "const" ++ txt " " ++ txt "_default" ++ txt " " ++ txt "="
            ++ txt " " ++ e ++ txt ";" ++ ws ++ after)
    by (unfold const_default_statement; norm_app; reflexivity).
  unfold match_here, re_const_default. cbn [cat m].
  rewrite starts_with_app, drop_app_length.
  apply rep_greedy_longest; [repeat constructor | reflexivity | simpl; lia |].
  rewrite starts_with_app, drop_app_length.
  apply rep_greedy_longest; [repeat constructor | reflexivity | simpl; lia |].
  rewrite starts_with_app, drop_app_length.
  apply rep_greedy_longest; [repeat constructor | exact Hnh | simpl; lia |].
  apply rep_greedy_longest; [exact He | reflexivity | exact Hne |].
  rewrite starts_with_app, drop_app_length.
  pose proof (line_end_match ws after
                [(1, take (length (e ++ txt ";" ++ ws ++ after)
                           - length (txt ";" ++ ws ++ after))
                        (e ++ txt ";" ++ ws ++ after))] Hws Hafter) as Hend.
  cbn [m] in Hend. rewrite Hend.
  replace (length (e ++ txt ";" ++ ws ++ after) - length (txt ";" ++ ws ++ after))
    with (length e) by (rewrite (length_app e); lia).
  rewrite take_app_length. reflexivity.
Qed.

(** One statement is removed and the search goes on behind it. *)
Lemma strip_step (pre body ws rest : text) :
  no_match_before re_define_default (length pre)
    (pre ++ define_default_statement body ws ++ rest) = true ->
  occursb (txt "})") (body ++ txt "}") = false ->
  forallb is_space ws = true ->
  head_is is_space rest = false ->
  strip_define_default (pre ++ define_default_statement body ws ++ rest)
  = pre ++ strip_define_default rest.
Proof.
  intros Hpre Hbody Hws Hhead. unfold strip_define_default.
  rewrite replace_all_prefix
    by (apply no_match_before_spec; exact Hpre).
  f_equal.
  rewrite (replace_all_hit _ _ _ rest []).
  - reflexivity.
  - apply define_default_match; assumption.
  - unfold define_default_statement.
    repeat first [rewrite length_app | progress cbn [length]]. lia.
Qed.

Lemma strip_nothing (rest : text) :
  no_match_before re_define_default (S (length rest)) rest = true ->
  strip_define_default rest = rest.
Proof.
  intros Hrest. apply replace_all_none. intros i.
  destruct (Nat.lt_ge_cases i (S (length rest))) as [Hi|Hi].
  - apply (no_match_before_spec _ _ _ Hrest i Hi).
  - rewrite drop_ge by lia.
    rewrite <- (drop_all rest).
    apply (no_match_before_spec _ _ _ Hrest (length rest)). lia.
Qed.

(** Every definition is removed, however many there are. *)
Lemma strip_all (parts : list (text * text * text)) (last : text) :
  strippable parts last = true ->
  strip_define_default (with_definitions parts last)
  = without_definitions parts last.
Proof.
  induction parts as [|[[pre body] ws] parts IH]; intros H.
  - apply strip_nothing. exact H.
  - cbn [strippable] in H.
    apply andb_true_iff in H as [H Hrest].
    apply andb_true_iff in H as [H Hhead].
    apply andb_true_iff in H as [H Hws].
    apply andb_true_iff in H as [Hpre Hbody].
    apply negb_true_iff in Hbody, Hhead.
    cbn [with_definitions without_definitions].
    rewrite strip_step by assumption. rewrite (IH Hrest). reflexivity.
Qed.

Lemma without_definitions_app (parts : list (text * text * text))
    (mid rest : text) :
  without_definitions parts (mid ++ rest)
  = without_definitions parts mid ++ rest.
Proof.
  induction parts as [|[[pre body] ws] parts IH]; [reflexivity|].
  cbn [without_definitions]. rewrite IH, app_assoc. reflexivity.
Qed.

Lemma rewrite_assignment (pm e ws after : text) :
  no_match_before re_const_default (length pm)
    (pm ++ const_default_statement e ws ++ after) = true ->
  forallb (is_not ";") e = true ->
  head_is (fun c => negb (is_space c)) e = true ->
  forallb is_space ws = true ->
  at_line_end after = true ->
  rewrite_const_default (pm ++ const_default_statement e ws ++ after)
  = pm ++ module_exports_statement e ++ after.
Proof.
  intros Hpm He Hhead Hws Hafter.
  unfold rewrite_const_default, replace_first, replace_first_with.
  rewrite (exec_prefix _ pm _ after [(1, e)]).
  - unfold tmpl_module_exports, module_exports_statement.
    cbn [subst cap_get Nat.eqb default]. norm_app. reflexivity.
  - apply no_match_before_spec. exact Hpm.
  - apply const_default_match; assumption.
Qed.

(** C7. For a React icon built for the cjs format, the compiled text is
    post-processed by two rewrites and nothing else. First, every
    statement that defines the [default] property of [exports] is removed
    together with the white space after it, however many such statements
    the text holds and wherever they stand; what lies between them stays
    (so does a definition of another property, such as [__esModule]).
    Then the first assignment [const _default = e;] that ends its line,
    white space apart, becomes [module.exports = e;] with the same
    expression [e]; the lines after it stay. The hypotheses say that the
    compiled text is made of these pieces: the definitions are as the
    transpiler prints them, and the patterns match nowhere before the
    pieces named. For the esm format the compiled text is returned as it
    is. *)
Theorem react_cjs_two_rewrites (env : Env) (i : icon)
    (component : text) (parts : list (text * text * text))
    (mid e ws after : text) :
  svgr_transform env (svg i) (componentName i) = Ok component ->
  swc_transform env component Cjs
    = Ok (with_definitions parts
            (mid ++ const_default_statement e ws ++ after)) ->
  strippable parts (mid ++ const_default_statement e ws ++ after) = true ->
  no_match_before re_const_default (length (without_definitions parts mid))
    (without_definitions parts mid ++ const_default_statement e ws ++ after)
    = true ->
  forallb (is_not ";") e = true ->
  head_is (fun c => negb (is_space c)) e = true ->
  forallb is_space ws = true ->
  at_line_end after = true ->
  transforms_react env i Cjs
    = Ok (without_definitions parts mid ++ module_exports_statement e ++ after)
  /\ (forall code, swc_transform env component Esm = Ok code ->
        transforms_react env i Esm = Ok code).
Proof.
  intros Hsvgr Hswc Hparts Hconst He Hhead Hws Hafter.
  unfold transforms_react. rewrite Hsvgr. split.
  - rewrite Hswc. unfold react_post.
    rewrite strip_all by exact Hparts.
    rewrite without_definitions_app.
    rewrite rewrite_assignment by assumption. reflexivity.
  - intros code ->. reflexivity.
Qed.

Lemma react_cjs_two_rewrites_witness :
  transforms_react Samples.two_definitions
    {| svg := Samples.logo_svg; componentName := txt "MyLogo" |} Cjs
  = Ok (Samples.use_strict_and_esModule
        ++ txt "const _react = require(" ++ [dq] ++ txt "react" ++ [dq]
        ++ txt ");" ++ nl
        ++ Samples.component_lines
        ++ txt "module.exports = ForwardRef;"
        ++ Samples.source_map_comment)
  /\ transforms_react Samples.one_icon
       {| svg := Samples.logo_svg; componentName := txt "MyLogo" |} Cjs
     = Ok (Samples.use_strict_and_esModule
           ++ txt "const _react = require(" ++ [dq] ++ txt "react" ++ [dq]
           ++ txt ");" ++ nl
           ++ Samples.component_lines
           ++ txt "module.exports = ForwardRef;").
Proof.
  pose (icon := {| svg := Samples.logo_svg; componentName := txt "MyLogo" |}).
  pose (require_line :=
          txt "const _react = require(" ++ [dq] ++ txt "react" ++ [dq]
          ++ txt ");" ++ nl).
  split.
  - pose (parts :=
            [ (Samples.use_strict_and_esModule, Samples.default_body, nl);
              (require_line, Samples.default_body, nl ++ nl) ]).
    assert (H1 : strippable parts
                   (Samples.component_lines
                    ++ const_default_statement (txt "ForwardRef") (txt " ")
                    ++ Samples.source_map_comment) = true)
      by (vm_compute; reflexivity).
    assert (H2 : no_match_before re_const_default
                   (length (without_definitions parts Samples.component_lines))
                   (without_definitions parts Samples.component_lines
                    ++ const_default_statement (txt "ForwardRef") (txt " ")
                    ++ Samples.source_map_comment) = true)
      by (vm_compute; reflexivity).
    destruct (react_cjs_two_rewrites Samples.two_definitions icon
                (txt "const MyLogo = null;") parts Samples.component_lines
                (txt "ForwardRef") (txt " ") Samples.source_map_comment
                eq_refl eq_refl H1 H2 eq_refl eq_refl eq_refl eq_refl)
      as [H _].
    etransitivity; [exact H|]. vm_compute. reflexivity.
  - pose (parts :=
            [ (Samples.use_strict_and_esModule, Samples.default_body, nl) ]).
    assert (H1 : strippable parts
                   ((require_line ++ Samples.component_lines)
                    ++ const_default_statement (txt "ForwardRef") nl
                    ++ []) = true)
      by (vm_compute; reflexivity).
    assert (H2 : no_match_before re_const_default
                   (length (without_definitions parts
                              (require_line ++ Samples.component_lines)))
                   (without_definitions parts
                      (require_line ++ Samples.component_lines)
                    ++ const_default_statement (txt "ForwardRef") nl
                    ++ []) = true)
      by (vm_compute; reflexivity).
    destruct (react_cjs_two_rewrites Samples.one_icon icon
                (txt "const MyLogo = null;") parts
                (require_line ++ Samples.component_lines)
                (txt "ForwardRef") nl []
                eq_refl eq_refl H1 H2 eq_refl eq_refl eq_refl eq_refl)
      as [H _].
    etransitivity; [exact H|]. vm_compute. reflexivity.
Defined.

End ReactProps.

(** ** The build: index files and failures *)

Module BuildProps.
Import Regex Build.

(** C9. Whenever a build completes, the two files it awaited are the
    index source, whose lines follow the module format being built
    ([module.exports.X = require('./X')] for cjs), and the index type
    declarations, whose lines are [export { default as X } from './X']
    whatever the format. *)
Theorem index_dts_is_always_esm (env : Env) (target : text)
    (format : module_format) (icons : list icon) :
  getIcons env = Ok icons ->
  settled (build env target format) = Ok tt ->
  awaited_writes (build env target format) =
    [ {| w_path := txt "./packages/" ++ target ++ txt "/" ++ format_name format
                     ++ txt "/index.js";
         w_text :=
           Str (join nl
             (map (fun i =>
                     match format with
                     | Esm => txt "export { default as " ++ componentName i
                                ++ txt " } from './" ++ componentName i ++ txt "'"
                     | Cjs => txt "module.exports." ++ componentName i
                                ++ txt " = require('./" ++ componentName i
                                ++ txt "')"
                     end) icons)) |};
      {| w_path := txt "./packages/" ++ target ++ txt "/" ++ format_name format
                     ++ txt "/index.d.ts";
         w_text :=
           Str (join nl
             (map (fun i => txt "export { default as " ++ componentName i
                              ++ txt " } from './" ++ componentName i ++ txt "'")
                  icons)) |} ].
Proof.
  intros Hicons Hsettled. unfold build in *. rewrite Hicons in *.
  destruct (first_error _) as [e|]; [discriminate Hsettled|].
  destruct (do_write env (index_js _ icons format)) as [e|];
    [discriminate Hsettled|].
  cbn [awaited_writes]. unfold index_js, index_dts, exportAll.
  rewrite <- !app_assoc.
  destruct format; reflexivity.
Qed.

Lemma index_dts_is_always_esm_witness :
  awaited_writes (build Samples.one_icon (txt "react") Cjs) =
    [ {| w_path := txt "./packages/react/cjs/index.js";
         w_text := Str (txt "module.exports.MyLogo = require('./MyLogo')") |};
      {| w_path := txt "./packages/react/cjs/index.d.ts";
         w_text := Str (txt "export { default as MyLogo } from './MyLogo'") |} ].
Proof.
  exact (index_dts_is_always_esm Samples.one_icon (txt "react") Cjs
           [ {| svg := Samples.logo_svg; componentName := txt "MyLogo" |} ]
           eq_refl eq_refl).
Defined.


(** An error on an awaited path reaches the [catch] of [main]: it is
    printed once and the status stays 0. *)
Lemma awaited_failure_is_caught :
  stderr (main Samples.transpiler_fails) = [Thrown (txt "Syntax Error")]
  /\ unhandled (main Samples.transpiler_fails) = []
  /\ exit_code (main Samples.transpiler_fails) = 0.
Proof. vm_compute. repeat split. Qed.

(** C6. The write of a component file is started by [build] but its
    promise is awaited by nobody: when it fails, the [catch] of [main]
    never sees the error. Nothing is printed by [main], which reports a
    finished build, the rejection is unhandled and the process ends with
    status 1. *)
Theorem unawaited_write_failure_escapes :
  stderr (main Samples.component_write_refused) = []
  /\ unhandled (main Samples.component_write_refused)
     = [ Thrown (txt "EISDIR: illegal operation on a directory");
         Thrown (txt "EISDIR: illegal operation on a directory") ]
  /\ exit_code (main Samples.component_write_refused) = 1
  /\ stdout (main Samples.component_write_refused)
     = [ txt "Building react package...";
         txt "Finished building react package." ].
Proof. vm_compute. repeat split. Qed.

End BuildProps.

(** ** The release script *)

Module ReleaseProps.
Import Regex Release.

Local Open Scope string_scope.

(** *** The monad *)

Lemma bind_assoc {A B C : Type} (c : M A) (k1 : A -> M B) (k2 : B -> M C)
    (w : world) :
  bind (bind c k1) k2 w = bind c (fun a => bind (k1 a) k2) w.
Proof. unfold bind. destruct (c w) as [w' [a|e]]; reflexivity. Qed.

Lemma bind_val_inv {A B : Type} (c : M A) (k : A -> M B) (w w' : world)
    (b : B) :
  bind c k w = (w', Val b) ->
  exists w1 a, c w = (w1, Val a) /\ k a w1 = (w', Val b).
Proof.
  unfold bind. destruct (c w) as [w1 [a|e]]; intros H.
  - exists w1, a. split; [reflexivity | exact H].
  - discriminate H.
Qed.

Lemma bind_val {A B : Type} (c : M A) (k : A -> M B) (w w1 : world) (a : A) :
  c w = (w1, Val a) -> bind c k w = k a w1.
Proof. unfold bind. intros ->. reflexivity. Qed.

Lemma bind_throw {A B : Type} (c : M A) (k : A -> M B) (w w1 : world)
    (e : exn) :
  c w = (w1, Throw e) -> bind c k w = (w1, Throw e).
Proof. unfold bind. intros ->. reflexivity. Qed.

(** *** Objects *)

Lemma prop_set_prop_eq (key : string) (v : jval) (o : object) :
  prop key (set_prop key v o) = Some v.
Proof.
  induction o as [|[k x] o IH]; cbn [set_prop prop].
  - rewrite String.eqb_refl. reflexivity.
  - destruct (String.eqb k key) eqn:E; cbn [prop]; rewrite E;
      [reflexivity | exact IH].
Qed.

Lemma prop_set_prop_ne (key key' : string) (v : jval) (o : object) :
  key' <> key -> prop key' (set_prop key v o) = prop key' o.
Proof.
  intros Hne. induction o as [|[k x] o IH]; cbn [set_prop prop].
  - apply String.eqb_neq in Hne. rewrite String.eqb_sym, Hne. reflexivity.
  - destruct (String.eqb k key) eqn:E; cbn [prop].
    + apply String.eqb_eq in E. subst k.
      apply String.eqb_neq in Hne. rewrite String.eqb_sym, Hne. reflexivity.
    + rewrite IH. reflexivity.
Qed.

Lemma prop_remove_eq (key : string) (o : object) :
  prop key (remove_prop key o) = None.
Proof.
  unfold remove_prop. induction o as [|[k x] o IH]; [reflexivity|].
  cbn [List.filter fst]. destruct (String.eqb k key) eqn:E; cbn [negb].
  - exact IH.
  - cbn [prop]. rewrite E. exact IH.
Qed.

Lemma prop_remove_ne (key key' : string) (o : object) :
  key' <> key -> prop key' (remove_prop key o) = prop key' o.
Proof.
  intros Hne. unfold remove_prop. induction o as [|[k x] o IH]; [reflexivity|].
  cbn [List.filter fst prop]. destruct (String.eqb k key) eqn:E; cbn [negb].
  - apply String.eqb_eq in E. subst k.
    apply String.eqb_neq in Hne. rewrite String.eqb_sym, Hne. exact IH.
  - cbn [prop]. rewrite IH. reflexivity.
Qed.

Lemma set_version_lookup (version : option jval) (pkg : object) :
  prop "version" (set_version version pkg) = version.
Proof.
  destruct version as [v|]; [apply prop_set_prop_eq | apply prop_remove_eq].
Qed.

Lemma set_version_other (version : option jval) (pkg : object) (key : string) :
  key <> "version" -> prop key (set_version version pkg) = prop key pkg.
Proof.
  intros H. destruct version as [v|];
    [apply prop_set_prop_ne | apply prop_remove_ne]; exact H.
Qed.

(** *** Rewriting the manifests *)

Section Update.
Variable env : Env.
Variable version : option jval.

(** One manifest. The write goes through exactly when the file is there,
    parses, the parsed value takes the assignment and [fs.writeFileSync]
    does not throw; the file then holds the text of the manifest with
    the version assigned, followed by a line break. *)
Lemma updatePackageVersion_inv (path : string) (w w' : world) :
  updatePackageVersion env path version w = (w', Val tt) ->
  exists content pkg pkg',
    files w !! path = Some content
    /\ json_parse env content = Some pkg
    /\ with_version version pkg = Some pkg'
    /\ write_fails env path (json_stringify env pkg' ++ nl) w = None
    /\ w' = emit (WriteFile path)
              (set_files (<[path := json_stringify env pkg' ++ nl]> (files w)) w).
Proof.
  unfold updatePackageVersion, bind, readFile, parse, assign_version, writeFile.
  destruct (files w !! path) as [content|] eqn:Ec; [|discriminate].
  destruct (json_parse env content) as [pkg|] eqn:Ep; [|discriminate].
  cbn [ret].
  destruct (with_version version pkg) as [pkg'|] eqn:Ew.
  - cbn [ret]. destruct (write_fails env path _ w) as [[e remains]|] eqn:Ef;
      [discriminate|].
    intros H. injection H as <-.
    exists content, pkg, pkg'. repeat split; assumption.
  - destruct pkg; discriminate.
Qed.

Lemma updatePackageVersion_ok (path : string) (w : world)
    (content : string) (pkg pkg' : jval) :
  files w !! path = Some content ->
  json_parse env content = Some pkg ->
  with_version version pkg = Some pkg' ->
  write_fails env path (json_stringify env pkg' ++ nl) w = None ->
  updatePackageVersion env path version w =
    (emit (WriteFile path)
       (set_files (<[path := json_stringify env pkg' ++ nl]> (files w)) w),
     Val tt).
Proof.
  intros Hf Hp Hw Hwr.
  unfold updatePackageVersion, bind, readFile, parse, assign_version, writeFile.
  rewrite Hf, Hp. cbn [ret]. rewrite Hw. cbn [ret]. rewrite Hwr. reflexivity.
Qed.

(** Whatever comes of it, a write touches no other file and not the
    rollback flag. *)
Lemma updatePackageVersion_frame (path : string) (w : world) :
  (forall p, p <> path ->
     files (fst (updatePackageVersion env path version w)) !! p = files w !! p)
  /\ versionUpdated (fst (updatePackageVersion env path version w))
     = versionUpdated w.
Proof.
  unfold updatePackageVersion, bind, readFile, parse, assign_version, writeFile.
  destruct (files w !! path) as [content|]; [|split; reflexivity].
  destruct (json_parse env content) as [pkg|]; [|split; reflexivity].
  cbn [ret].
  assert (Hwrite : forall text,
    (forall p, p <> path ->
       files (fst (match write_fails env path text w with
                   | Some (e, remains) =>
                       (emit (WriteFile path)
                          (set_files
                             match remains with
                             | Some c => <[path:=c]> (files w)
                             | None => delete path (files w)
                             end w), @Throw unit e)
                   | None =>
                       (emit (WriteFile path)
                          (set_files (<[path:=text]> (files w)) w), Val tt)
                   end)) !! p = files w !! p)
    /\ versionUpdated (fst (match write_fails env path text w with
                   | Some (e, remains) =>
                       (emit (WriteFile path)
                          (set_files
                             match remains with
                             | Some c => <[path:=c]> (files w)
                             | None => delete path (files w)
                             end w), @Throw unit e)
                   | None =>
                       (emit (WriteFile path)
                          (set_files (<[path:=text]> (files w)) w), Val tt)
                   end)) = versionUpdated w).
  { intros text. destruct (write_fails env path text w) as [[e [c|]]|];
      cbn [fst emit set_files files versionUpdated]; (split; [|reflexivity]);
      intros p Hp;
      first [ apply lookup_insert_ne; congruence
            | apply lookup_delete_ne; congruence ]. }
  destruct (with_version version pkg) as [pkg'|]; cbn [ret].
  - apply Hwrite.
  - destruct pkg; split; reflexivity.
Qed.

Lemma updated_after_write (fs : gmap string string) (path p : string)
    (pkg pkg' : jval) :
  with_version version pkg = Some pkg' ->
  updated env version fs p \/ p = path ->
  updated env version (<[path := json_stringify env pkg' ++ nl]> fs) p.
Proof.
  unfold updated. intros Hw H.
  destruct (decide (path = p)) as [->|Hne].
  - exists pkg, pkg'. split; [exact Hw | apply lookup_insert_eq].
  - rewrite lookup_insert_ne by exact Hne.
    destruct H as [H|H]; [exact H | congruence].
Qed.

(** All manifests of a list: what a successful pass leaves behind. *)
Lemma update_all_inv (paths : list string) :
  forall (w w' : world),
    update_all env version paths w = (w', Val tt) ->
    trace w' = (trace w ++ map WriteFile paths)%list
    /\ versionUpdated w' = versionUpdated w
    /\ (forall p, updated env version (files w) p \/ In p paths ->
                   updated env version (files w') p)
    /\ (forall p, ~ In p paths -> files w' !! p = files w !! p).
Proof.
  induction paths as [|path paths IH]; intros w w' H.
  - injection H as <-. simpl. rewrite app_nil_r.
    repeat split. intros p [Hp|[]]. exact Hp.
  - unfold update_all in H. cbn [for_each] in H.
    apply bind_val_inv in H as (w1 & [] & H1 & H2).
    apply updatePackageVersion_inv in H1
      as (content & pkg & pkg' & Hf & Hp & Hw & _ & ->).
    apply IH in H2 as (Ht & Hv & Hu & Hn).
    split; [|split; [|split]].
    + rewrite Ht. simpl. rewrite <- app_assoc. reflexivity.
    + rewrite Hv. reflexivity.
    + intros p Hin. apply Hu. simpl.
      destruct Hin as [Hin|[Hin|Hin]].
      * left. apply (updated_after_write _ _ _ pkg pkg' Hw). left. exact Hin.
      * left. apply (updated_after_write _ _ _ pkg pkg' Hw). right.
        symmetry. exact Hin.
      * right. exact Hin.
    + intros p Hin. rewrite Hn by (intros Hp'; apply Hin; right; exact Hp').
      cbn [emit set_files files]. apply lookup_insert_ne.
      intros ->. apply Hin. left. reflexivity.
Qed.

(** A pass over distinct manifests that all hold JSON objects and can be
    written goes through, and leaves each object with the version set. *)
Lemma update_all_total (paths : list string) :
  forall (w : world),
    NoDup paths ->
    (forall p, In p paths -> exists o, manifest_at env (files w) p = Some o) ->
    (forall p text w', In p paths -> write_fails env p text w' = None) ->
    exists w',
      update_all env version paths w = (w', Val tt)
      /\ (forall p o, In p paths -> manifest_at env (files w) p = Some o ->
            files w' !! p
            = Some (json_stringify env (JObj (set_version version o)) ++ nl)).
Proof.
  induction paths as [|path paths IH]; intros w Hnd Hobj Hwr.
  - exists w. split; [reflexivity | intros p o []].
  - apply NoDup_cons in Hnd as [Hnotin Hnd].
    rewrite list_elem_of_In in Hnotin.
    destruct (Hobj path (or_introl eq_refl)) as [o Ho].
    unfold manifest_at in Ho.
    destruct (files w !! path) as [content|] eqn:Ef; [|discriminate Ho].
    destruct (json_parse env content) as [[]|] eqn:Ep; try discriminate Ho.
    injection Ho as ->.
    pose proof (updatePackageVersion_ok path w content (JObj o)
                  (JObj (set_version version o)) Ef Ep eq_refl
                  (Hwr path _ w (or_introl eq_refl))) as Hup.
    set (w1 := emit (WriteFile path)
                 (set_files
                    (<[path := json_stringify env (JObj (set_version version o))
                               ++ nl]> (files w)) w)) in *.
    assert (Hsame : forall p, p <> path ->
              manifest_at env (files w1) p = manifest_at env (files w) p).
    { intros p Hp. unfold manifest_at, w1. cbn [emit set_files files].
      rewrite lookup_insert_ne by congruence. reflexivity. }
    destruct (IH w1 Hnd) as (w' & Hall & Hfiles).
    + intros p Hin. rewrite Hsame by (intros ->; contradiction).
      apply Hobj. right. exact Hin.
    + intros p text w0 Hin. apply Hwr. right. exact Hin.
    + exists w'. split.
      * unfold update_all. cbn [for_each]. rewrite (bind_val _ _ _ _ _ Hup).
        exact Hall.
      * intros p o' [<-|Hin] Ho'.
        -- unfold manifest_at in Ho'. rewrite Ef, Ep in Ho'.
           injection Ho' as <-.
           apply update_all_inv in Hall as (_ & _ & _ & Hn).
           rewrite (Hn path Hnotin). unfold w1. cbn [emit set_files files].
           apply lookup_insert_eq.
        -- apply Hfiles; [exact Hin|].
           rewrite Hsame by (intros ->; contradiction). exact Ho'.
Qed.

Lemma updatePackagesVersion_eq (g : globals) (w : world) :
  updatePackagesVersion env g version w = update_all env version (manifests g) w.
Proof.
  unfold updatePackagesVersion, update_all, manifests. cbn [for_each].
  unfold bind. destruct (updatePackageVersion env root_manifest version w)
    as [w1 [[]|e]]; [|reflexivity].
  generalize w1. induction (packages g) as [|p ps IH]; intros w2.
  - reflexivity.
  - cbn [for_each map]. unfold bind.
    destruct (updatePackageVersion env (package_manifest p) version w2)
      as [w3 [[]|e]]; [apply IH | reflexivity].
Qed.

End Update.

(** The paths of the manifests are distinct when the package names are. *)
Lemma length_append (a b : string) :
  String.length (a ++ b) = String.length a + String.length b.
Proof.
  induction a as [|c a IH]; [reflexivity|].
  change (S (String.length (a ++ b)) = S (String.length a + String.length b)).
  rewrite IH. reflexivity.
Qed.

Lemma append_inj_r (a b s : string) : a ++ s = b ++ s -> a = b.
Proof.
  revert b. induction a as [|c a IH]; intros b H.
  - destruct b as [|d b]; [reflexivity|].
    apply (f_equal String.length) in H.
    change (String.length s = S (String.length (b ++ s))) in H.
    rewrite length_append in H. lia.
  - destruct b as [|d b].
    + apply (f_equal String.length) in H.
      change (S (String.length (a ++ s)) = String.length s) in H.
      rewrite length_append in H. lia.
    + change (String c (a ++ s) = String d (b ++ s)) in H.
      injection H as -> H. f_equal. exact (IH b H).
Qed.

Lemma package_manifest_inj (p p' : string) :
  package_manifest p = package_manifest p' -> p = p'.
Proof.
  unfold package_manifest, package_root. intros H.
  apply append_inj_r in H. cbn in H. injection H as H. exact H.
Qed.

Lemma package_manifest_not_root (p : string) :
  package_manifest p <> root_manifest.
Proof. unfold package_manifest, package_root, root_manifest. discriminate. Qed.

Lemma manifests_NoDup (g : globals) :
  NoDup (packages g) -> NoDup (manifests g).
Proof.
  intros H. unfold manifests. apply NoDup_cons. split.
  - rewrite list_elem_of_In, in_map_iff. intros (p & Hp & _).
    exact (package_manifest_not_root p Hp).
  - apply NoDup_fmap_2; [|exact H].
    intros p p'. apply package_manifest_inj.
Qed.

(** *** The handler *)

Lemma on_failure_rolls_back (env : Env) (g : globals) (e : exn) (w1 : world) :
  versionUpdated w1 = true ->
  NoDup (packages g) ->
  (forall p, In p (manifests g) ->
     exists o, manifest_at env (files w1) p = Some o) ->
  (forall p text w', In p (manifests g) -> write_fails env p text w' = None) ->
  exists w2,
    on_failure env g e w1 = (emit (Exit 1) (emit (LogExn e) w2), Val tt)
    /\ trace w2 = (trace w1 ++ map WriteFile (manifests g))%list
    /\ (forall p o, In p (manifests g) ->
          manifest_at env (files w1) p = Some o ->
          files w2 !! p
          = Some (json_stringify env (JObj (set_version (currentVersion g) o))
                    ++ nl)).
Proof.
  intros Hflag Hnd Hobj Hwr.
  destruct (update_all_total env (currentVersion g) (manifests g) w1
              (manifests_NoDup g Hnd) Hobj Hwr) as (w2 & Hw2 & Hfiles).
  exists w2. split; [|split].
  - unfold on_failure, get, bind. rewrite Hflag.
    rewrite updatePackagesVersion_eq, Hw2. reflexivity.
  - apply update_all_inv in Hw2 as (Ht & _ & _). exact Ht.
  - exact Hfiles.
Qed.





(** *** Steps that only add harmless events *)

Section Quiet.
Variable P : event -> bool.

Lemma quiet_pure {A : Type} (f : world -> result A) :
  quiet P (fun w => (w, f w)).
Proof.
  intros w. split; [|reflexivity].
  exists []. split; [symmetry; apply app_nil_r | reflexivity].
Qed.

Lemma quiet_ret {A : Type} (a : A) : quiet P (ret a).
Proof. apply (quiet_pure (fun _ => Val a)). Qed.

Lemma quiet_throw {A : Type} (e : exn) : quiet P (@throw A e).
Proof. apply (quiet_pure (fun _ => Throw e)). Qed.

Lemma quiet_tell (e : event) : P e = true -> quiet P (tell e).
Proof.
  intros He w. split; [|reflexivity].
  exists [e]. split; [reflexivity | simpl; rewrite He; reflexivity].
Qed.

Lemma quiet_run (env : Env) (cmd : string) (cwd : option string) :
  P (Exec cmd cwd) = true -> quiet P (run env cmd cwd).
Proof.
  intros He w. unfold run.
  destruct (execSync env cmd cwd w) as [fs r]. split; [|reflexivity].
  exists [Exec cmd cwd]. split; [reflexivity | simpl; rewrite He; reflexivity].
Qed.

Lemma quiet_bind {A B : Type} (c : M A) (k : A -> M B) :
  quiet P c -> (forall a, quiet P (k a)) -> quiet P (bind c k).
Proof.
  intros Hc Hk w. unfold bind.
  destruct (Hc w) as [(evs & Ht & Hp) Hv].
  destruct (c w) as [w1 [a|e]]; cbn [fst] in *.
  - destruct (Hk a w1) as [(evs' & Ht' & Hp') Hv'].
    split; [|congruence].
    exists (evs ++ evs')%list. split.
    + rewrite Ht', Ht, app_assoc. reflexivity.
    + rewrite forallb_app, Hp, Hp'. reflexivity.
  - split; [|exact Hv]. exists evs. split; assumption.
Qed.

Lemma quiet_try_catch {A : Type} (c : M A) (h : exn -> M A) :
  quiet P c -> (forall e, quiet P (h e)) -> quiet P (try_catch c h).
Proof.
  intros Hc Hh w. unfold try_catch.
  destruct (Hc w) as [(evs & Ht & Hp) Hv].
  destruct (c w) as [w1 [a|e]]; cbn [fst] in *.
  - split; [|exact Hv]. exists evs. split; assumption.
  - destruct (Hh e w1) as [(evs' & Ht' & Hp') Hv'].
    split; [|congruence].
    exists (evs ++ evs')%list. split.
    + rewrite Ht', Ht, app_assoc. reflexivity.
    + rewrite forallb_app, Hp, Hp'. reflexivity.
Qed.

End Quiet.

Ltac quiet_step :=
  match goal with
  | |- quiet _ (bind _ _) => apply quiet_bind; [|intros ?]
  | |- quiet _ (ret _) => apply quiet_ret
  | |- quiet _ (throw _) => apply quiet_throw
  | |- quiet _ (tell _) => apply quiet_tell; reflexivity
  | |- quiet _ (run _ _ _) => apply quiet_run; reflexivity
  | |- quiet _ (try_catch _ _) => apply quiet_try_catch; [|intros ?]
  | |- quiet _ (fun w => (w, _)) => apply quiet_pure
  | |- quiet _ (if ?b then _ else _) => destruct b
  | |- quiet _ (match ?x with _ => _ end) => destruct x
  end.

(** Up to the choice of the version, [main] prints, asks, queries git and
    the remote, and nothing else. *)
Lemma resolveVersion_quiet (env : Env) (g : globals) :
  quiet read_only_event (resolveVersion env g).
Proof.
  unfold resolveVersion, isMainBranch, isInSyncWithRemote, getRepoInfo,
    getLatestCommitHash, selectVersion, ask.
  repeat quiet_step.
Qed.

Lemma main_split (env : Env) (g : globals) (w : world) :
  main env g w =
    bind (resolveVersion env g)
      (fun o => match o with
                | Some v => checked_release env g v
                | None => ret tt
                end) w.
Proof.
  unfold main, resolveVersion, checked_release, release_message, bind.
  destruct (isMainBranch env w) as [w1 [[]|e1]]; cbn; try reflexivity.
  destruct (isInSyncWithRemote env w1) as [w2 [[]|e2]]; cbn; try reflexivity.
  destruct (selectVersion env g _) as [w3 [v|e3]]; reflexivity.
Qed.


(** C4 (as amended). When the version [main] resolves is not a valid
    semantic version, [main] throws an error with the message
    [Invalid target version: ] followed by that version. Up to then the
    script has only printed, asked, and queried git and the remote: no
    file was written, no other command was run and the rollback flag is
    not set, so the handler writes nothing either; it prints the error
    and ends the process with status 1. *)
Theorem invalid_version_rejected (env : Env) (g : globals)
    (w w1 : world) (tv : string) :
  versionUpdated w = false ->
  resolveVersion env g w = (w1, Val (Some tv)) ->
  semver_valid env tv = false ->
  main env g w = (w1, Throw (Error ("Invalid target version: " ++ tv)))
  /\ (exists evs, trace w1 = (trace w ++ evs)%list
                  /\ forallb read_only_event evs = true)
  /\ release env g w =
       {| final := emit (Exit 1)
                     (emit (LogExn (Error ("Invalid target version: " ++ tv)))
                        w1);
          status := 1 |}.
Proof.
  intros Hflag Hres Hvalid.
  assert (Hmain : main env g w
                  = (w1, Throw (Error ("Invalid target version: " ++ tv)))).
  { rewrite main_split. rewrite (bind_val _ _ _ _ _ Hres).
    unfold checked_release. rewrite Hvalid. reflexivity. }
  destruct (resolveVersion_quiet env g w) as [Hev Hv].
  rewrite Hres in Hev, Hv. cbn [fst] in Hev, Hv.
  split; [exact Hmain|]. split; [exact Hev|].
  unfold release. rewrite Hmain. unfold on_failure, get, bind.
  rewrite Hv, Hflag. reflexivity.
Qed.

Lemma invalid_version_rejected_witness :
  let env :=
    {| positionals := ["not-a-version"]; dry := false; GITHUB_TOKEN := None;
       readdir_packages := readdir_packages (ReleaseSamples.release_2_0_0 "" false true "");
       is_directory := is_directory (ReleaseSamples.release_2_0_0 "" false true "");
       execSync := execSync (ReleaseSamples.release_2_0_0 "" false true "");
       fetch_sha := fun _ _ => Val (Some "abc123");
       confirm := fun _ _ => Val true;
       select := fun _ _ => Val "custom";
       input := fun _ _ => Val "";
       semver_valid := fun v => String.eqb v "2.0.0";
       semver_inc := fun _ _ => None;
       json_parse := ReleaseSamples.parse_known;
       json_stringify := ReleaseSamples.stringify;
       write_fails := fun _ _ _ => None;
       regexp_exec_other := fun _ _ => Val None;
       open_url := fun _ _ _ => None;
       create_release := fun _ _ _ => None |} in
  fst (main env ReleaseSamples.loaded (start ReleaseSamples.workspace))
    = fst (resolveVersion env ReleaseSamples.loaded
             (start ReleaseSamples.workspace))
  /\ snd (main env ReleaseSamples.loaded (start ReleaseSamples.workspace))
     = Throw (Error "Invalid target version: not-a-version").
Proof.
  intros env.
  assert (H1 : resolveVersion env ReleaseSamples.loaded
                 (start ReleaseSamples.workspace)
               = (fst (resolveVersion env ReleaseSamples.loaded
                         (start ReleaseSamples.workspace)),
                  Val (Some "not-a-version")))
    by (vm_compute; reflexivity).
  destruct (invalid_version_rejected env ReleaseSamples.loaded
              (start ReleaseSamples.workspace) _
              "not-a-version" eq_refl H1 eq_refl) as [H _].
  rewrite H. split; reflexivity.
Defined.


(** C4, the claim as worded. The changelog command leaves a changelog
    without a section for 2.0.0. Nothing checks for that: the versions
    are rewritten, the release is committed, tagged and pushed, and only
    then the search for the section returns no match, which surfaces as
    a type error of the language (no message of the script). *)
Lemma missing_section_fails_after_push :
  let env := ReleaseSamples.release_2_0_0 "" false true
               ReleaseSamples.changelog_1_9_0 in
  let out := script env ReleaseSamples.workspace in
  section_notes env "2.0.0" ReleaseSamples.changelog_1_9_0 = Val None
  /\ status out = 1
  /\ take 2 (drop 7 (trace (final out)))
     = [WriteFile "package.json"; WriteFile "packages/react/package.json"]
  /\ drop 19 (trace (final out))
     = [ Exec "git tag v2.0.0" None;
         Exec "git push origin refs/tags/v2.0.0" None;
         Exec "git push" None;
         Log (nl ++ "Publishing github release...");
         Exec "git remote get-url origin" None;
         WriteFile "package.json"; WriteFile "packages/react/package.json";
         LogExn (TypeError "object null is not iterable"); Exit 1 ].
Proof. vm_compute. repeat split. Qed.

(** *** The changelog confirmation *)

Lemma run_eq (env : Env) (cmd : string) (cwd : option string) (w : world) :
  run env cmd cwd w =
    (set_files (fst (execSync env cmd cwd w)) (emit (Exec cmd cwd) w),
     snd (execSync env cmd cwd w)).
Proof. unfold run. destruct (execSync env cmd cwd w). reflexivity. Qed.

Lemma ask_eq {A : Type} (message : string) (answer : world -> result A)
    (w : world) :
  ask message answer w
  = (emit (Prompt message) w, answer (emit (Prompt message) w)).
Proof. reflexivity. Qed.

Lemma release_steps_split (env : Env) (g : globals) (tv : string) (w : world) :
  release_steps env g tv w =
    bind (bump_and_changelog env g tv)
      (fun ok => if negb ok then ret tt else publish_steps env g tv) w.
Proof.
  unfold release_steps, bump_and_changelog, changelog_command,
    changelog_message, bind.
  cbn.
  destruct (updatePackagesVersion env g _ _) as [w1 [[]|e1]]; cbn;
    try reflexivity.
  destruct (run env _ _ _) as [w2 [s|e2]]; cbn; reflexivity.
Qed.

(** What the run has done when the changelog confirmation is answered. *)
Lemma bump_and_changelog_inv (env : Env) (g : globals) (tv : string)
    (w w3 : world) (ok : bool) :
  bump_and_changelog env g tv w = (w3, Val ok) ->
  exists wb,
    (forall p, In p (manifests g) ->
       updated env (Some (JStr tv)) (files wb) p)
    /\ versionUpdated wb = true
    /\ trace wb = (trace w ++ [Log (nl ++ "Updating packages versions...")]
                     ++ map WriteFile (manifests g)
                     ++ [Log (nl ++ "Generating changelog...")])%list
    /\ files w3 = fst (execSync env changelog_command None wb)
    /\ versionUpdated w3 = true
    /\ trace w3 = (trace wb ++ [Exec changelog_command None;
                                Prompt changelog_message])%list
    /\ confirm env changelog_message w3 = Val ok.
Proof.
  unfold bump_and_changelog, step. intros H.
  apply bind_val_inv in H as (wa & [] & Ha & H). injection Ha as <-.
  apply bind_val_inv in H as (w1 & [] & H1 & H).
  rewrite updatePackagesVersion_eq in H1.
  apply update_all_inv in H1 as (Ht1 & Hv1 & Hu1 & _).
  apply bind_val_inv in H as (w2 & [] & H2 & H). injection H2 as <-.
  apply bind_val_inv in H as (w4 & [] & H4 & H). injection H4 as <-.
  apply bind_val_inv in H as (w5 & s & H5 & H).
  rewrite run_eq in H5. injection H5 as <- _.
  rewrite ask_eq in H. injection H as <- Hok.
  exists (emit (Log (nl ++ "Generating changelog..."))
            (set_versionUpdated true w1)).
  repeat split.
  - intros p Hp. cbn [emit set_versionUpdated files]. apply Hu1.
    right. exact Hp.
  - cbn [emit set_versionUpdated trace]. rewrite Ht1.
    cbn [emit trace]. rewrite <- !app_assoc. reflexivity.
  - cbn [emit set_files trace]. rewrite <- !app_assoc. reflexivity.
  - exact Hok.
Qed.

(** C8. When the changelog confirmation is rejected, [main] returns at
    once: the run ends right after the prompt with status 0, no later
    step is executed and the handler is not called. The rollback flag is
    set but never looked at: every manifest was rewritten to the target
    version, no file is written afterwards, and the files the run leaves
    are those the changelog command produced from the rewritten ones. *)
Theorem changelog_rejected_keeps_bump (env : Env) (g : globals)
    (w w1 w3 : world) (tv : string) :
  resolveVersion env g w = (w1, Val (Some tv)) ->
  semver_valid env tv = true ->
  confirm env (release_message tv) (emit (Prompt (release_message tv)) w1)
    = Val true ->
  bump_and_changelog env g tv (emit (Prompt (release_message tv)) w1)
    = (w3, Val false) ->
  release env g w = {| final := w3; status := 0 |}
  /\ versionUpdated w3 = true
  /\ exists wb,
       (forall p, In p (manifests g) ->
          updated env (Some (JStr tv)) (files wb) p)
       /\ trace wb = (trace w1 ++ [Prompt (release_message tv);
                                   Log (nl ++ "Updating packages versions...")]
                        ++ map WriteFile (manifests g)
                        ++ [Log (nl ++ "Generating changelog...")])%list
       /\ files w3 = fst (execSync env changelog_command None wb)
       /\ trace w3 = (trace wb ++ [Exec changelog_command None;
                                   Prompt changelog_message])%list.
Proof.
  intros Hres Hvalid Hconfirm Hbump.
  assert (Hmain : main env g w = (w3, Val tt)).
  { rewrite main_split, (bind_val _ _ _ _ _ Hres).
    unfold checked_release. rewrite Hvalid. cbn [negb].
    unfold bind. rewrite ask_eq, Hconfirm. cbn [negb].
    rewrite release_steps_split, (bind_val _ _ _ _ _ Hbump). reflexivity. }
  apply bump_and_changelog_inv in Hbump
    as (wb & Hu & _ & Htb & Hf & Hv & Ht & _).
  split; [unfold release; rewrite Hmain; reflexivity|].
  split; [exact Hv|].
  exists wb. repeat split; try assumption.
  rewrite Htb. cbn [emit trace]. rewrite <- !app_assoc. reflexivity.
Qed.

Lemma changelog_rejected_keeps_bump_witness :
  let env := ReleaseSamples.release_2_0_0 "" false false
               ReleaseSamples.changelog_2_0_0 in
  release env ReleaseSamples.loaded (start ReleaseSamples.workspace)
  = {| final := fst (main env ReleaseSamples.loaded
                       (start ReleaseSamples.workspace));
       status := 0 |}.
Proof.
  intros env.
  pose (w1 := fst (resolveVersion env ReleaseSamples.loaded
                     (start ReleaseSamples.workspace))).
  assert (H1 : resolveVersion env ReleaseSamples.loaded
                 (start ReleaseSamples.workspace) = (w1, Val (Some "2.0.0")))
    by (vm_compute; reflexivity).
  assert (H2 : semver_valid env "2.0.0" = true) by reflexivity.
  assert (H3 : confirm env (release_message "2.0.0")
                 (emit (Prompt (release_message "2.0.0")) w1) = Val true)
    by reflexivity.
  assert (H4 : bump_and_changelog env ReleaseSamples.loaded "2.0.0"
                 (emit (Prompt (release_message "2.0.0")) w1)
               = (fst (main env ReleaseSamples.loaded
                         (start ReleaseSamples.workspace)), Val false))
    by (vm_compute; reflexivity).
  exact (proj1 (changelog_rejected_keeps_bump env ReleaseSamples.loaded
                  (start ReleaseSamples.workspace) w1 _ "2.0.0" H1 H2 H3 H4)).
Defined.


(** *** The dry run *)

Lemma getRepoInfo_inv (env : Env) (w w1 : world) (info : string * string) :
  getRepoInfo env w = (w1, Val info) ->
  trace w1 = (trace w ++ [Exec "git remote get-url origin" None])%list.
Proof.
  unfold getRepoInfo. intros H.
  apply bind_val_inv in H as (w2 & remote & Hrun & H).
  rewrite run_eq in Hrun. injection Hrun as <- _.
  destruct (exec re_remote _) as [[[? ?] cs]|]; [|discriminate H].
  injection H as <- _. reflexivity.
Qed.

Lemma publishGitHubRelease_dry (env : Env) (v : string) (w w1 : world) :
  dry env = true ->
  publishGitHubRelease env v w = (w1, Val tt) ->
  trace w1 = (trace w ++ [ Exec "git remote get-url origin" None;
                           Log (nl ++ "Dry run - skipping github release...") ])%list.
Proof.
  unfold publishGitHubRelease. intros Hdry H.
  apply bind_val_inv in H as (w2 & [owner repo] & Hinfo & H).
  apply getRepoInfo_inv in Hinfo.
  apply bind_val_inv in H as (w3 & changelog & Hread & H).
  assert (w3 = w2) as ->.
  { unfold readFile in Hread.
    destruct (files w2 !! changelog_path) as [c|]; congruence. }
  apply bind_val_inv in H as (w4 & found & Hfound & H).
  assert (w4 = w2) as -> by (unfold lift in Hfound; congruence).
  destruct found as [notes|]; [|discriminate H].
  rewrite Hdry in H. injection H as <-.
  cbn [emit trace]. rewrite Hinfo, <- app_assoc. reflexivity.
Qed.

Lemma publishPackage_inv (env : Env) (p v : string) (flags : list string)
    (w w1 : world) :
  publishPackage env p v flags w = (w1, Val tt) ->
  exists note,
    publish_note v p note
    /\ trace w1 = (trace w ++ publish_events flags p note)%list.
Proof.
  unfold publishPackage, step, try_catch. intros H.
  apply bind_val_inv in H as (w2 & [] & Ht & H). injection Ht as <-.
  unfold bind in H. rewrite run_eq in H.
  destruct (snd (execSync env _ _ _)) as [out|e].
  - injection H as <-.
    exists ("Successfully published " ++ p ++ "@" ++ v).
    split; [left; reflexivity|].
    cbn [emit set_files trace]. rewrite <- !app_assoc. reflexivity.
  - destruct (exec re_previously_published _); [|discriminate H].
    injection H as <-.
    exists ("Skipping already published: " ++ p).
    split; [right; reflexivity|].
    cbn [emit set_files trace]. rewrite <- !app_assoc. reflexivity.
Qed.

Lemma publish_all_inv (env : Env) (v : string) (flags : list string)
    (ps : list string) :
  forall (w w1 : world),
    for_each (fun pkg => publishPackage env pkg v flags) ps w = (w1, Val tt) ->
    exists notes,
      Forall2 (publish_note v) ps notes
      /\ trace w1
         = (trace w ++ concat (zip_with (publish_events flags) ps notes))%list.
Proof.
  induction ps as [|p ps IH]; intros w w1 H.
  - injection H as <-. exists []. split; [constructor|].
    simpl. rewrite app_nil_r. reflexivity.
  - cbn [for_each] in H.
    apply bind_val_inv in H as (w2 & [] & Hp & H).
    apply publishPackage_inv in Hp as (note & Hnote & Hp).
    apply IH in H as (notes & Hall & Ht).
    exists (note :: notes). split; [constructor; assumption|].
    rewrite Ht, Hp. cbn [zip_with concat]. rewrite <- !app_assoc.
    reflexivity.
Qed.


Lemma runIfNotDry_dry (env : Env) (cmd : string) (w : world) :
  dry env = true ->
  runIfNotDry env cmd w = (emit (Log ("[dryrun] " ++ cmd)) w, Val tt).
Proof. unfold runIfNotDry. intros ->. reflexivity. Qed.

Ltac next_step H w1 a H1 :=
  apply bind_val_inv in H as (w1 & a & H1 & H).

(** The steps after the changelog, in a dry run that reaches the end. *)
Lemma publish_steps_dry (env : Env) (g : globals) (tv : string)
    (w w' : world) :
  dry env = true ->
  publish_steps env g tv w = (w', Val tt) ->
  exists d notes,
    work_tree_diff env w = Val d
    /\ Forall2 (publish_note tv) (packages g) notes
    /\ trace w'
       = (trace w
          ++ [ Log (nl ++ "Updating lockfile...");
               Exec "pnpm install --prefer-offline" None;
               Exec "git diff" None ]
          ++ (if String.eqb (trim d) "" then [Log "No changes to commit."]
              else dry_commit_events tv)
          ++ dry_push_events tv
          ++ [ Log (nl ++ "Publishing github release...");
               Exec "git remote get-url origin" None;
               Log (nl ++ "Dry run - skipping github release...");
               Log (nl ++ "Building all packages...");
               Exec "pnpm build" None;
               Log (nl ++ "Publishing packages...") ]
          ++ concat (zip_with
                       (publish_events ["--dry-run"; "--no-git-checks"])
                       (packages g) notes)
          ++ [ Log (nl ++ "Dry run finished - run git diff to see package changes.");
               Log "" ])%list.
Proof.
  intros Hdry H. unfold publish_steps, step in H.
  next_step H w1 u1 H1. injection H1 as <-.
  next_step H w2 s2 H2. rewrite run_eq in H2. injection H2 as <- _.
  next_step H w3 clean H3. unfold isWorkspaceClean in H3.
  next_step H3 w3' d H3'.
  assert (Hd : work_tree_diff env w = Val d).
  { unfold work_tree_diff, after_lockfile_update. rewrite (run_eq env _ _ (emit _ w)).
    cbn [fst]. rewrite H3'. reflexivity. }
  rewrite run_eq in H3'. injection H3' as <- _.
  injection H3 as <- <-.
  next_step H w4 u4 H4.
  assert (Hcommit :
    trace w4
    = (trace w ++ [ Log (nl ++ "Updating lockfile...");
                    Exec "pnpm install --prefer-offline" None;
                    Exec "git diff" None ]
         ++ (if String.eqb (trim d) "" then [Log "No changes to commit."]
             else dry_commit_events tv))%list).
  { destruct (String.eqb (trim d) ""); cbn [negb] in H4.
    - injection H4 as <-.
      cbn [emit set_files trace]. rewrite <- !app_assoc. reflexivity.
    - next_step H4 w5 u5 H5. injection H5 as <-.
      next_step H4 w6 u6 H6. rewrite runIfNotDry_dry in H6 by exact Hdry.
      injection H6 as <-.
      rewrite runIfNotDry_dry in H4 by exact Hdry. injection H4 as <-.
      cbn [emit set_files trace]. unfold dry_commit_events.
      rewrite <- !app_assoc. reflexivity. }
  next_step H w5 u5 H5. injection H5 as <-.
  next_step H w6 u6 H6. rewrite runIfNotDry_dry in H6 by exact Hdry.
  injection H6 as <-.
  next_step H w7 u7 H7. rewrite runIfNotDry_dry in H7 by exact Hdry.
  injection H7 as <-.
  next_step H w8 u8 H8. rewrite runIfNotDry_dry in H8 by exact Hdry.
  injection H8 as <-.
  next_step H w9 u9 H9. injection H9 as <-.
  next_step H w10 u10 H10. destruct u10.
  apply (publishGitHubRelease_dry env tv _ _ Hdry) in H10.
  next_step H w11 u11 H11. injection H11 as <-.
  next_step H w12 s12 H12. rewrite run_eq in H12. injection H12 as <- _.
  next_step H w13 u13 H13. injection H13 as <-.
  next_step H w14 u14 H14. destruct u14. unfold publishPackages in H14.
  rewrite Hdry in H14.
  apply publish_all_inv in H14 as (notes & Hall & Ht14).
  rewrite Hdry in H.
  next_step H w15 u15 H15. injection H15 as <-.
  injection H as <-.
  exists d, notes. split; [exact Hd|]. split; [exact Hall|].
  cbn [emit set_files trace]. rewrite Ht14.
  cbn [emit set_files trace]. rewrite H10.
  cbn [emit set_files trace]. rewrite Hcommit.
  unfold dry_push_events. rewrite <- !app_assoc. reflexivity.
Qed.


(** C10. Take a dry run of the release steps that returns normally. It
    has rewritten the manifests and run the changelog command through
    [execSync], and asked about the changelog. If the answer is no, the
    run ends there. If the answer is yes, what follows is exactly: the
    lockfile update and the query of the work tree, both run through
    [execSync]; a line of output in place of the git add and commit,
    when the query shows changes; a line of output in place of the tag
    and of each of the two pushes; the query of the remote and a line of
    output in place of the GitHub release; the build, run through
    [execSync]; and, for every package of the list, its publication run
    through [execSync] in its directory with the flags
    [--dry-run --no-git-checks]. *)
Theorem dry_run_replaces_git_and_release_only (env : Env) (g : globals)
    (tv : string) (w w' : world) :
  dry env = true ->
  release_steps env g tv w = (w', Val tt) ->
  exists wc ok,
    bump_and_changelog env g tv w = (wc, Val ok)
    /\ confirm env changelog_message wc = Val ok
    /\ trace wc
       = (trace w
          ++ [Log (nl ++ "Updating packages versions...")]
          ++ map WriteFile (manifests g)
          ++ [ Log (nl ++ "Generating changelog...");
               Exec changelog_command None;
               Prompt changelog_message ])%list
    /\ (ok = false -> w' = wc)
    /\ (ok = true ->
        exists d notes,
          work_tree_diff env wc = Val d
          /\ Forall2 (publish_note tv) (packages g) notes
          /\ trace w'
             = (trace wc
                ++ [ Log (nl ++ "Updating lockfile...");
                     Exec "pnpm install --prefer-offline" None;
                     Exec "git diff" None ]
                ++ (if String.eqb (trim d) ""
                    then [Log "No changes to commit."]
                    else dry_commit_events tv)
                ++ dry_push_events tv
                ++ [ Log (nl ++ "Publishing github release...");
                     Exec "git remote get-url origin" None;
                     Log (nl ++ "Dry run - skipping github release...");
                     Log (nl ++ "Building all packages...");
                     Exec "pnpm build" None;
                     Log (nl ++ "Publishing packages...") ]
                ++ concat (zip_with
                             (publish_events ["--dry-run"; "--no-git-checks"])
                             (packages g) notes)
                ++ [ Log (nl ++ "Dry run finished - run git diff to see package changes.");
                     Log "" ])%list).
Proof.
  intros Hdry H. rewrite release_steps_split in H.
  apply bind_val_inv in H as (w3 & ok & Hbump & H).
  exists w3, ok. split; [exact Hbump|].
  apply bump_and_changelog_inv in Hbump
    as (wb & _ & _ & Htb & _ & _ & Ht3 & Hok).
  split; [exact Hok|]. split.
  { rewrite Ht3, Htb, <- !app_assoc. reflexivity. }
  split.
  - intros ->. cbn [negb] in H. injection H as <-. reflexivity.
  - intros ->. cbn [negb] in H.
    exact (publish_steps_dry env g tv _ _ Hdry H).
Qed.

Lemma dry_run_replaces_git_and_release_only_witness :
  let env := ReleaseSamples.release_2_0_0 "" true true
               ReleaseSamples.changelog_2_0_0 in
  exists notes,
    Forall2 (publish_note "2.0.0") ["react"] notes
    /\ trace (fst (release_steps env ReleaseSamples.loaded "2.0.0"
                     (start ReleaseSamples.workspace)))
       = ([ Log (nl ++ "Updating packages versions...");
            WriteFile "package.json"; WriteFile "packages/react/package.json";
            Log (nl ++ "Generating changelog...");
            Exec changelog_command None;
            Prompt changelog_message;
            Log (nl ++ "Updating lockfile...");
            Exec "pnpm install --prefer-offline" None;
            Exec "git diff" None ]
          ++ dry_commit_events "2.0.0"
          ++ dry_push_events "2.0.0"
          ++ [ Log (nl ++ "Publishing github release...");
               Exec "git remote get-url origin" None;
               Log (nl ++ "Dry run - skipping github release...");
               Log (nl ++ "Building all packages...");
               Exec "pnpm build" None;
               Log (nl ++ "Publishing packages...") ]
          ++ concat (zip_with
                       (publish_events ["--dry-run"; "--no-git-checks"])
                       ["react"] notes)
          ++ [ Log (nl ++ "Dry run finished - run git diff to see package changes.");
               Log "" ])%list.
Proof.
  intros env.
  assert (Hrun : release_steps env ReleaseSamples.loaded "2.0.0"
                   (start ReleaseSamples.workspace)
                 = (fst (release_steps env ReleaseSamples.loaded "2.0.0"
                           (start ReleaseSamples.workspace)), Val tt))
    by (vm_compute; reflexivity).
  destruct (dry_run_replaces_git_and_release_only env ReleaseSamples.loaded
              "2.0.0" (start ReleaseSamples.workspace) _ eq_refl Hrun)
    as (wc & ok & Hbump & Hok & Htc & _ & Hyes).
  assert (Hbump' : bump_and_changelog env ReleaseSamples.loaded "2.0.0"
                     (start ReleaseSamples.workspace)
                   = (fst (bump_and_changelog env ReleaseSamples.loaded "2.0.0"
                             (start ReleaseSamples.workspace)), Val true))
    by (vm_compute; reflexivity).
  rewrite Hbump' in Hbump. injection Hbump as <- <-.
  destruct (Hyes eq_refl) as (d & notes & Hd & Hnotes & Ht).
  assert (Hd' : work_tree_diff env
                  (fst (bump_and_changelog env ReleaseSamples.loaded "2.0.0"
                          (start ReleaseSamples.workspace)))
                = Val "diff --git a/package.json")
    by (vm_compute; reflexivity).
  rewrite Hd' in Hd. injection Hd as <-.
  exists notes. split; [exact Hnotes|].
  rewrite Ht, Htc. reflexivity.
Defined.

End ReleaseProps.

(** ** More on the build script *)

Module BuildMore.
Import Regex Build MatcherFacts VueProps.

Lemma unknown_target (env : Env) (target : text) (i : icon)
    (format : module_format) :
  target <> txt "react" -> target <> txt "vue" -> inherited target = None ->
  transforms env target i format
  = Err (Thrown (txt "TypeError: transforms[target] is not a function")).
Proof.
  intros Hr Hv Hi. unfold transforms.
  rewrite (named_false _ _ Hr), (named_false _ _ Hv), Hi. reflexivity.
Qed.

(** A name that is inherited is neither [react] nor [vue]. *)
Lemma inherited_not_own (target : text) (r : res value) :
  inherited target = Some r ->
  named (txt "react") target = false /\ named (txt "vue") target = false.
Proof.
  intros H. split.
  - destruct (named (txt "react") target) eqn:E; [|reflexivity].
    apply named_eq in E. subst target. discriminate H.
  - destruct (named (txt "vue") target) eqn:E; [|reflexivity].
    apply named_eq in E. subst target. discriminate H.
Qed.

(** When the assets cannot be listed or read, neither build writes a
    file; [main] prints the error once and the status stays 0. *)
Theorem unreadable_assets_write_nothing (env : Env) (e : exn) :
  getIcons env = Err e ->
  stderr (main env) = [e]
  /\ writes (main env) = []
  /\ unhandled (main env) = []
  /\ exit_code (main env) = 0.
Proof.
  intros H. unfold main, build. rewrite H. cbn. repeat split.
Qed.

Lemma unreadable_assets_write_nothing_witness :
  let env := {| positionals := [txt "react"];
                readdir_assets := Err (Thrown (txt "ENOENT"));
                read_file := read_file Samples.one_icon;
                camelcase := camelcase Samples.one_icon;
                svgr_transform := svgr_transform Samples.one_icon;
                swc_transform := swc_transform Samples.one_icon;
                vue_compile := vue_compile Samples.one_icon;
                fs_write := fs_write Samples.one_icon |} in
  stderr (main env) = [Thrown (txt "ENOENT")].
Proof.
  intros env.
  exact (proj1 (unreadable_assets_write_nothing env (Thrown (txt "ENOENT"))
                  eq_refl)).
Defined.

(** A target that is neither [react] nor [vue] nor the name of a function
    that [transforms] inherits (no target at all, [svelte], [__proto__]):
    with at least one icon the build is rejected with a type error and
    writes nothing, not even the index files. *)
Theorem unknown_target_writes_nothing (env : Env) (target : text)
    (format : module_format) (i : icon) (icons : list icon) :
  target <> txt "react" -> target <> txt "vue" -> inherited target = None ->
  getIcons env = Ok (i :: icons) ->
  build env target format
  = {| settled :=
         Err (Thrown (txt "TypeError: transforms[target] is not a function"));
       awaited_writes := [];
       detached_writes := [] |}.
Proof.
  intros Hr Hv Hi Hicons. unfold build. rewrite Hicons.
  assert (Hall : forall l : list icon,
    map (emit_icon env target format
           (txt "./packages/" ++ target ++ txt "/" ++ format_name format)) l
    = map (fun _ => Err (Thrown
             (txt "TypeError: transforms[target] is not a function"))) l).
  { intros l. apply map_ext. intros j. unfold emit_icon.
    rewrite unknown_target by assumption. reflexivity. }
  rewrite Hall. cbn [map first_error successes].
  f_equal. clear. induction icons as [|j icons IH]; [reflexivity|exact IH].
Qed.

Lemma unknown_target_writes_nothing_witness :
  settled (build Samples.one_icon (txt "svelte") Esm)
  = Err (Thrown (txt "TypeError: transforms[target] is not a function")).
Proof.
  assert (H1 : txt "svelte" <> txt "react") by discriminate.
  assert (H2 : txt "svelte" <> txt "vue") by discriminate.
  rewrite (unknown_target_writes_nothing Samples.one_icon (txt "svelte") Esm
             {| svg := Samples.logo_svg; componentName := txt "MyLogo" |} []
             H1 H2 eq_refl eq_refl).
  reflexivity.
Defined.


Lemma emitted_paths (env : Env) (target : text) (format : module_format)
    (output : text) (icons : list icon) :
  first_error (map (emit_icon env target format output) icons) = None ->
  map w_path
    (concat (successes (map (emit_icon env target format output) icons)))
  = flat_map (fun i => [ output ++ txt "/" ++ componentName i ++ txt ".js";
                         output ++ txt "/" ++ componentName i ++ txt ".d.ts" ])
      icons.
Proof.
  induction icons as [|i icons IH]; intros H; [reflexivity|].
  cbn [map first_error successes] in *.
  unfold emit_icon at 1 in H. unfold emit_icon at 1.
  destruct (transforms env target i format) as [content|e];
    [|discriminate H].
  cbn [first_error successes concat map app flat_map w_path] in *.
  rewrite (IH H). reflexivity.
Qed.

(** The files of a build that completes: for every icon, in the order of
    the directory listing, the component source and its declarations
    (written without being awaited), then the two index files. *)
Theorem completed_build_layout (env : Env) (target : text)
    (format : module_format) (icons : list icon) :
  getIcons env = Ok icons ->
  settled (build env target format) = Ok tt ->
  let output := txt "./packages/" ++ target ++ txt "/" ++ format_name format in
  map w_path (detached_writes (build env target format))
  = flat_map (fun i => [ output ++ txt "/" ++ componentName i ++ txt ".js";
                         output ++ txt "/" ++ componentName i ++ txt ".d.ts" ])
      icons
  /\ map w_path (awaited_writes (build env target format))
     = [ output ++ txt "/index.js"; output ++ txt "/index.d.ts" ].
Proof.
  intros Hicons Hsettled output. unfold build in *. rewrite Hicons in *.
  fold output in Hsettled. fold output.
  destruct (first_error (map (emit_icon env target format output) icons))
    as [e|] eqn:E; [discriminate Hsettled|].
  destruct (do_write env (index_js output icons format)) as [e|];
    [discriminate Hsettled|].
  cbn [detached_writes awaited_writes]. split.
  - apply emitted_paths. exact E.
  - reflexivity.
Qed.

Lemma completed_build_layout_witness :
  map w_path (detached_writes (build Samples.one_icon (txt "vue") Cjs))
  = [ txt "./packages/vue/cjs/MyLogo.js"; txt "./packages/vue/cjs/MyLogo.d.ts" ].
Proof.
  exact (proj1 (completed_build_layout Samples.one_icon (txt "vue") Cjs
                  [ {| svg := Samples.logo_svg; componentName := txt "MyLogo" |} ]
                  eq_refl eq_refl)).
Defined.

Lemma emitted_inherited (env : Env) (target : text) (format : module_format)
    (output : text) (v : value) (icons : list icon) :
  inherited target = Some (Ok v) ->
  map (emit_icon env target format output) icons
  = map (fun i =>
           Ok [ {| w_path := output ++ txt "/" ++ componentName i ++ txt ".js";
                   w_text := v |};
                {| w_path := output ++ txt "/" ++ componentName i ++ txt ".d.ts";
                   w_text := Str nl |} ]) icons.
Proof.
  intros H. destruct (inherited_not_own _ _ H) as [Hr Hv].
  apply map_ext. intros i. unfold emit_icon, transforms, types_of.
  rewrite Hr, Hv, H. reflexivity.
Qed.

Lemma successes_all_ok {A B : Type} (f : A -> B) (l : list A) :
  first_error (map (fun a => Ok (f a)) l) = None
  /\ successes (map (fun a => Ok (f a)) l) = map f l.
Proof.
  induction l as [|a l [IH1 IH2]]; [split; reflexivity|].
  cbn [map first_error successes]. rewrite IH1, IH2. split; reflexivity.
Qed.



(** Markup in which [<svg] does not occur reaches the template compiler
    unchanged. *)
Theorem force_1em_without_svg (s : text) :
  occursb (txt "<svg") s = false -> force_1em s = s.
Proof.
  intros H. unfold force_1em.
  assert (Hnone : forall name, replace_all (re_dimension name)
                                 (tmpl_dimension name) s = s).
  { intros name. apply replace_all_none. intros i.
    unfold match_here, re_dimension. cbn [cat m].
    rewrite (occursb_drop _ _ i H). reflexivity. }
  rewrite !Hnone. reflexivity.
Qed.

Lemma force_1em_without_svg_witness :
  force_1em (txt "<g><path d='M0 0'/></g>") = txt "<g><path d='M0 0'/></g>".
Proof.
  exact (force_1em_without_svg (txt "<g><path d='M0 0'/></g>") eq_refl).
Defined.

Lemma replace_string_first (pat by_ pre post : text) :
  no_match_before (Lit pat) (length pre) (pre ++ pat ++ post) = true ->
  replace_string pat by_ (pre ++ pat ++ post) = pre ++ by_ ++ post.
Proof.
  intros H. unfold replace_string, replace_first, replace_first_with.
  rewrite (exec_prefix _ pre _ post []).
  - cbn [subst]. rewrite <- app_assoc. reflexivity.
  - apply no_match_before_spec. exact H.
  - unfold match_here. cbn [m].
    rewrite starts_with_app, drop_app_length. reflexivity.
Qed.

Lemma replace_string_absent (pat by_ s : text) :
  occursb pat s = false -> replace_string pat by_ s = s.
Proof.
  intros H. unfold replace_string, replace_first, replace_first_with.
  assert (Hex : exec (Lit pat) s = None).
  { apply occursb_false in H. induction s as [|c s IH].
    - cbn. destruct (starts_with pat []) eqn:E; [|reflexivity].
      apply starts_with_inv in E as [r E]. destruct H.
      exists [], r. exact E.
    - rewrite exec_skip.
      + rewrite IH; [reflexivity|].
        intros (a & b & ->). apply H. exists (c :: a), b. reflexivity.
      + unfold match_here. cbn [m].
        destruct (starts_with pat (c :: s)) eqn:E; [|reflexivity].
        apply starts_with_inv in E as [r E]. destruct H.
        exists [], r. exact E. }
  rewrite Hex. reflexivity.
Qed.

(** The esm branch of the Vue transform turns the first
    [export function] of the compiled code into [export default function]
    and changes nothing else; compiled code without an [export function]
    is returned as it is, with no default export added. *)
Theorem vue_esm_export_default (pre post : text) :
  no_match_before (Lit (txt "export function")) (length pre)
    (pre ++ txt "export function" ++ post) = true ->
  vue_post Esm (pre ++ txt "export function" ++ post)
  = pre ++ txt "export default function" ++ post
  /\ (forall code, occursb (txt "export function") code = false ->
        vue_post Esm code = code).
Proof.
  intros H. split.
  - apply replace_string_first. exact H.
  - intros code Hc. apply replace_string_absent. exact Hc.
Qed.

Lemma vue_esm_export_default_witness :
  vue_post Esm (txt "import { h } from 'vue'; export function render() {}")
  = txt "import { h } from 'vue'; export default function render() {}".
Proof.
  exact (proj1 (vue_esm_export_default (txt "import { h } from 'vue'; ")
                  (txt " render() {}") eq_refl)).
Defined.

End BuildMore.

(** ** More on the release script *)

Module ReleaseMore.
Import Regex Release MatcherFacts ReleaseProps.

Local Open Scope string_scope.

(** *** Loading *)



Lemma public_packages_unusable_manifest (env : Env) (fs : gmap string string)
    (entries : list string) (p : string) :
  In p entries ->
  is_directory env p = Val true ->
  unusable_manifest env fs p = true ->
  exists e, public_packages env fs entries = Throw e.
Proof.
  intros Hin Hdir Hbad. induction entries as [|x entries IH]; [destruct Hin|].
  cbn [public_packages].
  destruct Hin as [->|Hin].
  - unfold keep_package. rewrite Hdir. unfold unusable_manifest in Hbad.
    destruct (fs !! package_manifest p) as [content|]; [|eexists; reflexivity].
    destruct (json_parse env content) as [[]|]; try discriminate Hbad;
      eexists; reflexivity.
  - destruct (IH Hin) as [e He]. rewrite He.
    destruct (keep_package env fs x) as [b|e']; eexists; reflexivity.
Qed.

(** A directory among the packages whose manifest is missing, is not
    JSON or is the JSON null makes the script fail while it is loaded:
    the process ends with status 1 before [main] is called, nothing was
    run and nothing written. A manifest that is JSON of another kind (an
    array, a string, a number, a boolean) does not: its [private] is
    undefined and the directory counts as a public package. *)
Theorem package_without_manifest_stops_the_load (env : Env)
    (fs : gmap string string) (entries : list string) (p : string) :
  readdir_packages env = Val entries ->
  In p entries ->
  is_directory env p = Val true ->
  unusable_manifest env fs p = true ->
  script env fs = {| final := start fs; status := 1 |}
  /\ (forall p' content v,
        is_directory env p' = Val true ->
        fs !! package_manifest p' = Some content ->
        json_parse env content = Some v ->
        (forall o, v <> JObj o) -> v <> JNull ->
        keep_package env fs p' = Val true).
Proof.
  intros Hread Hin Hdir Hbad. split.
  - unfold script, load.
    destruct (fs !! root_manifest) as [content|]; [|reflexivity].
    destruct (json_parse env content) as [pkg|]; [|reflexivity].
    rewrite Hread.
    destruct (public_packages_unusable_manifest env fs entries p Hin Hdir Hbad)
      as [e ->].
    destruct pkg; reflexivity.
  - intros p' content v Hd Hf Hp Hobj Hnull.
    unfold keep_package. rewrite Hd, Hf, Hp.
    destruct v as [s'|z|b0|  |items|o]; try reflexivity.
    + contradiction.
    + destruct (Hobj o). reflexivity.
Qed.

Lemma package_without_manifest_stops_the_load_witness :
  status (script (ReleaseSamples.release_2_0_0 "" false true "")
            (<[ "packages/react/package.json" := "not json" ]>
               ReleaseSamples.workspace))
  = 1
  /\ keep_package (ReleaseSamples.release_2_0_0 "" false true "")
       (<[ "packages/docs/package.json" := "not json" ]>
          (<[ "packages/react/package.json" := "[]" ]>
             ReleaseSamples.workspace))
       "react"
     = Val true.
Proof.
  pose (env := ReleaseSamples.release_2_0_0 "" false true "").
  assert (Hin : In "react" ["react"; "docs"; "README.md"])
    by (left; reflexivity).
  assert (Hbad : forall text,
            json_parse env text = None ->
            unusable_manifest env
              (<[ "packages/react/package.json" := text ]>
                 ReleaseSamples.workspace) "react" = true).
  { intros text Ht. unfold unusable_manifest.
    change (package_manifest "react") with "packages/react/package.json".
    rewrite lookup_insert_eq, Ht. reflexivity. }
  split.
  - exact (f_equal status
             (proj1 (package_without_manifest_stops_the_load env
                       (<[ "packages/react/package.json" := "not json" ]>
                          ReleaseSamples.workspace)
                       ["react"; "docs"; "README.md"] "react"
                       eq_refl Hin eq_refl (Hbad "not json" eq_refl)))).
  - assert (Hj : unusable_manifest env
                   (<[ "packages/docs/package.json" := "not json" ]>
                      (<[ "packages/react/package.json" := "[]" ]>
                         ReleaseSamples.workspace)) "docs" = true)
      by (vm_compute; reflexivity).
    assert (Hin' : In "docs" ["react"; "docs"; "README.md"])
      by (right; left; reflexivity).
    assert (Hk : keep_package env
                   (<[ "packages/docs/package.json" := "not json" ]>
                      (<[ "packages/react/package.json" := "[]" ]>
                         ReleaseSamples.workspace)) "react" = Val true).
    { apply (proj2 (package_without_manifest_stops_the_load env _
                      ["react"; "docs"; "README.md"] "docs"
                      eq_refl Hin' eq_refl Hj) "react" "[]" (JArr []));
        try reflexivity; discriminate. }
    exact Hk.
Defined.


(** *** Writing versions *)

(** One write that goes through changes one manifest: it then holds the
    text of what was parsed, with the version assigned when that is an
    object (its other properties as they were, in their order), and as
    it was when that is an array; every other file stays as it was. *)
Theorem version_write_touches_only_version (env : Env) (path : string)
    (version : option jval) (w w' : world) :
  updatePackageVersion env path version w = (w', Val tt) ->
  (forall p, p <> path -> files w' !! p = files w !! p)
  /\ exists content pkg pkg',
       files w !! path = Some content
       /\ json_parse env content = Some pkg
       /\ files w' !! path = Some (json_stringify env pkg' ++ nl)
       /\ match pkg, pkg' with
          | JObj o, JObj o' =>
              prop "version" o' = version
              /\ (forall key, key <> "version" -> prop key o' = prop key o)
              /\ (forall v, version = Some v -> prop "version" o <> None ->
                    map fst o' = map fst o)
          | JArr items, JArr items' => items' = items
          | _, _ => False
          end.
Proof.
  intros H. apply updatePackageVersion_inv in H
    as (content & pkg & pkg' & Hf & Hp & Hw & _ & ->).
  cbn [emit set_files files]. split.
  - intros p Hp'. apply lookup_insert_ne. congruence.
  - exists content, pkg, pkg'.
    split; [exact Hf|]. split; [exact Hp|]. split; [apply lookup_insert_eq|].
    destruct pkg as [| | | |items|o]; try discriminate Hw;
      injection Hw as <-; [reflexivity|].
    split; [apply set_version_lookup|].
    split; [intros key Hkey; apply set_version_other; exact Hkey|].
    intros v -> Hsome. cbn [set_version]. clear - Hsome.
    induction o as [|[k x] o IH]; [contradiction|].
    cbn [prop set_prop] in *. destruct (String.eqb k "version") eqn:E.
    + reflexivity.
    + cbn [map fst]. rewrite (IH Hsome). reflexivity.
Qed.

Lemma version_write_touches_only_version_witness :
  files (fst (updatePackageVersion
                (ReleaseSamples.release_2_0_0 "" false true "")
                "package.json" (Some (JStr "2.0.0"))
                (start ReleaseSamples.workspace))) !! "CHANGELOG.md"
  = ReleaseSamples.workspace !! "CHANGELOG.md".
Proof.
  pose (env := ReleaseSamples.release_2_0_0 "" false true "").
  assert (H : updatePackageVersion env "package.json" (Some (JStr "2.0.0"))
                (start ReleaseSamples.workspace)
              = (fst (updatePackageVersion env "package.json"
                        (Some (JStr "2.0.0"))
                        (start ReleaseSamples.workspace)), Val tt))
    by (vm_compute; reflexivity).
  assert (Hne : "CHANGELOG.md" <> "package.json") by discriminate.
  exact (proj1 (version_write_touches_only_version _ _ _ _ _ H)
           "CHANGELOG.md" Hne).
Defined.

Lemma set_prop_restore (key : string) (t c : jval) (o : object) :
  prop key o = Some c -> set_prop key c (set_prop key t o) = o.
Proof.
  induction o as [|[k x] o IH]; intros H; [discriminate H|].
  cbn [prop set_prop] in *. destruct (String.eqb k key) eqn:E.
  - injection H as ->. cbn [set_prop]. rewrite E. reflexivity.
  - cbn [set_prop]. rewrite E, (IH H). reflexivity.
Qed.

Lemma remove_prop_absent (key : string) (o : object) :
  prop key o = None -> remove_prop key o = o.
Proof.
  unfold remove_prop. induction o as [|[k x] o IH]; intros H; [reflexivity|].
  cbn [prop List.filter fst] in *. destruct (String.eqb k key) eqn:E.
  - discriminate H.
  - cbn [negb]. rewrite (IH H). reflexivity.
Qed.

Lemma remove_set_prop_absent (key : string) (t : jval) (o : object) :
  prop key o = None -> remove_prop key (set_prop key t o) = o.
Proof.
  unfold remove_prop. induction o as [|[k x] o IH]; intros H.
  - cbn [set_prop List.filter fst]. rewrite String.eqb_refl. reflexivity.
  - cbn [prop set_prop] in *. destruct (String.eqb k key) eqn:E.
    + discriminate H.
    + cbn [List.filter fst]. rewrite E. cbn [negb]. rewrite (IH H).
      reflexivity.
Qed.

(** Setting the target version and then the version the manifest had
    gives back the object, the order of its properties included. *)
Lemma set_version_restore (t : jval) (cv : option jval) (pkg : object) :
  prop "version" pkg = cv ->
  set_version cv (set_version (Some t) pkg) = pkg.
Proof.
  intros H. destruct cv as [c|]; cbn [set_version].
  - apply set_prop_restore. exact H.
  - apply remove_set_prop_absent. exact H.
Qed.

(** Rewriting the manifests to the target version and then back to the
    current version restores them up to their layout: a manifest that
    was at the current version holds, in the end, the text
    [JSON.stringify] prints for the object it held, so the text it had
    if that was printed the same way; every other file is as the first
    pass found it. This takes distinct package names, and a JSON library
    that reads back the manifests it has printed. *)
Theorem bump_then_rollback_restores (env : Env) (g : globals) (tv : string)
    (w w1 w2 : world) :
  updatePackagesVersion env g (Some (JStr tv)) w = (w1, Val tt) ->
  updatePackagesVersion env g (currentVersion g) w1 = (w2, Val tt) ->
  NoDup (packages g) ->
  (forall p, In p (manifests g) ->
     exists o,
       manifest_at env (files w) p = Some o
       /\ prop "version" o = currentVersion g
       /\ json_parse env
            (json_stringify env (JObj (set_version (Some (JStr tv)) o)) ++ nl)
          = Some (JObj (set_version (Some (JStr tv)) o))) ->
  (forall p o, In p (manifests g) -> manifest_at env (files w) p = Some o ->
     files w2 !! p = Some (json_stringify env (JObj o) ++ nl))
  /\ (forall p, ~ In p (manifests g) -> files w2 !! p = files w !! p).
Proof.
  rewrite !updatePackagesVersion_eq. intros H1 H2 Hnd Hcur.
  apply manifests_NoDup in Hnd.
  assert (Hstep : forall (v : option jval) (paths : list string) (wa wb : world),
    NoDup paths ->
    update_all env v paths wa = (wb, Val tt) ->
    forall p o, In p paths -> manifest_at env (files wa) p = Some o ->
      files wb !! p = Some (json_stringify env (JObj (set_version v o)) ++ nl)).
  { intros v paths. induction paths as [|path paths IH];
      intros wa wb Hn Hab p o Hin Ho; [destruct Hin|].
    apply NoDup_cons in Hn as [Hnotin Hn].
    rewrite list_elem_of_In in Hnotin.
    unfold update_all in Hab. cbn [for_each] in Hab.
    apply bind_val_inv in Hab as (wm & [] & Hm & Hab).
    apply updatePackageVersion_inv in Hm
      as (content & pkg & pkg' & Hf & Hp & Hw & _ & ->).
    destruct Hin as [<-|Hin].
    - apply update_all_inv in Hab as (_ & _ & _ & Hother).
      rewrite (Hother path Hnotin). cbn [emit set_files files].
      rewrite lookup_insert_eq. unfold manifest_at in Ho.
      rewrite Hf, Hp in Ho. destruct pkg; try discriminate Ho.
      injection Ho as ->. cbn [with_version] in Hw. injection Hw as <-.
      reflexivity.
    - apply (IH _ _ Hn Hab p o Hin).
      unfold manifest_at. cbn [emit set_files files].
      rewrite lookup_insert_ne by (intros ->; contradiction). exact Ho. }
  split.
  - intros p o Hin Ho.
    destruct (Hcur p Hin) as (o' & Ho' & Hv & Hback).
    rewrite Ho in Ho'. injection Ho' as <-.
    pose proof (Hstep _ _ _ _ Hnd H1 p o Hin Ho) as Hbumped.
    assert (Ho1 : manifest_at env (files w1) p
                  = Some (set_version (Some (JStr tv)) o)).
    { unfold manifest_at. rewrite Hbumped, Hback. reflexivity. }
    rewrite (Hstep _ _ _ _ Hnd H2 p _ Hin Ho1).
    rewrite set_version_restore by exact Hv. reflexivity.
  - intros p Hp.
    apply update_all_inv in H1 as (_ & _ & _ & Hn1).
    apply update_all_inv in H2 as (_ & _ & _ & Hn2).
    rewrite (Hn2 p Hp). apply Hn1. exact Hp.
Qed.

Lemma bump_then_rollback_restores_witness :
  let env := ReleaseSamples.release_2_0_0 "" false true "" in
  files (fst (updatePackagesVersion env ReleaseSamples.loaded
                (Some (JStr "1.9.0"))
                (fst (updatePackagesVersion env ReleaseSamples.loaded
                        (Some (JStr "2.0.0"))
                        (start ReleaseSamples.workspace)))))
    !! "packages/react/package.json"
  = ReleaseSamples.workspace !! "packages/react/package.json".
Proof.
  intros env.
  pose (w1 := fst (updatePackagesVersion env ReleaseSamples.loaded
                     (Some (JStr "2.0.0")) (start ReleaseSamples.workspace))).
  assert (H1 : updatePackagesVersion env ReleaseSamples.loaded
                 (Some (JStr "2.0.0")) (start ReleaseSamples.workspace)
               = (w1, Val tt))
    by (vm_compute; reflexivity).
  assert (H2 : updatePackagesVersion env ReleaseSamples.loaded
                 (currentVersion ReleaseSamples.loaded) w1
               = (fst (updatePackagesVersion env ReleaseSamples.loaded
                         (Some (JStr "1.9.0")) w1), Val tt))
    by (vm_compute; reflexivity).
  assert (Hnd : NoDup (packages ReleaseSamples.loaded))
    by (apply NoDup_singleton).
  assert (H3 : forall p, In p (manifests ReleaseSamples.loaded) ->
    exists o,
      manifest_at env (files (start ReleaseSamples.workspace)) p = Some o
      /\ prop "version" o = currentVersion ReleaseSamples.loaded
      /\ json_parse env
           (json_stringify env (JObj (set_version (Some (JStr "2.0.0")) o))
            ++ nl)
         = Some (JObj (set_version (Some (JStr "2.0.0")) o))).
  { intros p [<-|[<-|[]]]; eexists; repeat split; vm_compute; reflexivity. }
  assert (Ho : manifest_at env (files (start ReleaseSamples.workspace))
                 "packages/react/package.json"
               = Some ReleaseSamples.react_pkg) by (vm_compute; reflexivity).
  etransitivity.
  - exact (proj1 (bump_then_rollback_restores env ReleaseSamples.loaded "2.0.0"
                    (start ReleaseSamples.workspace) w1 _ H1 H2 Hnd H3)
             "packages/react/package.json" ReleaseSamples.react_pkg
             (or_intror (or_introl eq_refl)) Ho).
  - vm_compute. reflexivity.
Defined.


(** Writes to the manifests of packages leave the root manifest and the
    rollback flag alone, whether they go through or not. *)
Lemma package_updates_frame (env : Env) (v : option jval) (ps : list string) :
  forall (w : world),
    files (fst (for_each (fun p => updatePackageVersion env (package_manifest p) v)
                  ps w)) !! root_manifest
    = files w !! root_manifest
    /\ versionUpdated
         (fst (for_each (fun p => updatePackageVersion env (package_manifest p) v)
                 ps w))
       = versionUpdated w.
Proof.
  induction ps as [|p ps IH]; intros w; [split; reflexivity|].
  cbn [for_each]. unfold bind.
  destruct (updatePackageVersion_frame env v (package_manifest p) w)
    as [Hf Hv].
  specialize (Hf root_manifest
                (fun E => package_manifest_not_root p (eq_sym E))).
  destruct (updatePackageVersion env (package_manifest p) v w)
    as [w1 [[]|e]]; cbn [fst] in *.
  - destruct (IH w1) as [Hf1 Hv1]. split; congruence.
  - split; assumption.
Qed.

(** When the root manifest was rewritten and the manifest of a package
    then cannot be, the bump stops half way with the rollback flag still
    unset: [main] throws, the handler writes nothing, and the root
    manifest keeps the target version although the release failed. *)
Theorem failed_bump_is_not_rolled_back (env : Env) (g : globals)
    (tv : string) (w wr w1 : world) (e : exn) :
  versionUpdated w = false ->
  updatePackageVersion env root_manifest (Some (JStr tv))
    (emit (Log (nl ++ "Updating packages versions...")) w) = (wr, Val tt) ->
  for_each (fun p => updatePackageVersion env (package_manifest p)
                       (Some (JStr tv))) (packages g) wr = (w1, Throw e) ->
  release_steps env g tv w = (w1, Throw e)
  /\ (exists pkg pkg',
        json_parse env <$> (files w !! root_manifest) = Some (Some pkg)
        /\ with_version (Some (JStr tv)) pkg = Some pkg'
        /\ files w1 !! root_manifest
           = Some (json_stringify env pkg' ++ nl))
  /\ on_failure env g e w1 = (emit (Exit 1) (emit (LogExn e) w1), Val tt).
Proof.
  intros Hflag Hroot Hps.
  assert (Hup : updatePackagesVersion env g (Some (JStr tv))
                  (emit (Log (nl ++ "Updating packages versions...")) w)
                = (w1, Throw e)).
  { unfold updatePackagesVersion. rewrite (bind_val _ _ _ _ _ Hroot).
    exact Hps. }
  assert (Hsteps : release_steps env g tv w = (w1, Throw e)).
  { unfold release_steps, step. unfold bind at 1. cbn [tell].
    rewrite (bind_throw _ _ _ _ _ Hup). reflexivity. }
  destruct (package_updates_frame env (Some (JStr tv)) (packages g) wr)
    as [Hf Hv].
  rewrite Hps in Hf, Hv. cbn [fst] in Hf, Hv.
  apply updatePackageVersion_inv in Hroot
    as (content & pkg & pkg' & Hc & Hp & Hw & _ & ->).
  cbn [emit set_files files versionUpdated] in Hf, Hv, Hc.
  split; [exact Hsteps|]. split.
  - exists pkg, pkg'. rewrite Hc. cbn [fmap option_fmap option_map].
    rewrite Hp. split; [reflexivity|]. split; [exact Hw|].
    rewrite Hf. apply lookup_insert_eq.
  - unfold on_failure, get, bind. rewrite Hv, Hflag. reflexivity.
Qed.

Lemma failed_bump_is_not_rolled_back_witness :
  let fs := <[ "packages/react/package.json" := "not json" ]>
              ReleaseSamples.workspace in
  let env := ReleaseSamples.release_2_0_0 "" false true "" in
  files (fst (release_steps env ReleaseSamples.loaded "2.0.0" (start fs)))
    !! "package.json"
  = Some (ReleaseSamples.stringify (JObj [("version", JStr "2.0.0")]) ++ nl)
  /\ status (release env ReleaseSamples.loaded (start fs)) = 1.
Proof.
  intros fs env.
  pose (w0 := emit (Log (nl ++ "Updating packages versions...")) (start fs)).
  pose (wr := fst (updatePackageVersion env root_manifest (Some (JStr "2.0.0"))
                     w0)).
  pose (w1 := fst (for_each
                     (fun p => updatePackageVersion env (package_manifest p)
                                 (Some (JStr "2.0.0")))
                     (packages ReleaseSamples.loaded) wr)).
  assert (Hr : updatePackageVersion env root_manifest (Some (JStr "2.0.0")) w0
               = (wr, Val tt)) by (vm_compute; reflexivity).
  assert (Hp : for_each
                 (fun p => updatePackageVersion env (package_manifest p)
                             (Some (JStr "2.0.0")))
                 (packages ReleaseSamples.loaded) wr
               = (w1, Throw (Failure "SyntaxError: not valid JSON")))
    by (vm_compute; reflexivity).
  destruct (failed_bump_is_not_rolled_back env ReleaseSamples.loaded "2.0.0"
              (start fs) wr w1 _ eq_refl Hr Hp) as (Hs & _ & _).
  rewrite Hs. split; vm_compute; reflexivity.
Defined.


(** *** Searching for a literal *)

Lemma exec_needs_literal (t : text) (r : re) (s : text) :
  occursb t s = false -> exec (Cat (Lit t) r) s = None.
Proof.
  intros H.
  assert (Hhere : forall i, match_here (Cat (Lit t) r) (drop i s) = None).
  { intros i. unfold match_here. cbn [m].
    rewrite (occursb_drop _ _ i H). reflexivity. }
  clear H. induction s as [|c s IH].
  - pose proof (Hhere 0) as H0. cbn [exec]. rewrite drop_0 in H0.
    rewrite H0. reflexivity.
  - rewrite exec_skip by (apply (Hhere 0)).
    rewrite IH; [reflexivity|]. intros i. apply (Hhere (S i)).
Qed.

Lemma exec_lit_absent (t s : text) :
  occursb t s = false -> exec (Lit t) s = None.
Proof.
  intros H.
  assert (Hhere : forall i, match_here (Lit t) (drop i s) = None).
  { intros i. unfold match_here. cbn [m].
    rewrite (occursb_drop _ _ i H). reflexivity. }
  clear H. induction s as [|c s IH].
  - pose proof (Hhere 0) as H0. cbn [exec]. rewrite drop_0 in H0.
    rewrite H0. reflexivity.
  - rewrite exec_skip by (apply (Hhere 0)).
    rewrite IH; [reflexivity|]. intros i. apply (Hhere (S i)).
Qed.

Lemma exec_lit_present (t s : text) :
  occursb t s = true -> exists x, exec (Lit t) s = Some x.
Proof.
  induction s as [|c s IH]; intros H.
  - cbn [occursb] in H. rewrite orb_false_r in H.
    cbn [exec match_here m]. unfold match_here. cbn [m]. rewrite H.
    eexists. reflexivity.
  - cbn [occursb] in H. cbn [exec]. unfold match_here. cbn [m].
    destruct (starts_with t (c :: s)) eqn:E.
    + eexists. reflexivity.
    + cbn [orb] in H. destruct (IH H) as [[[sk rest] cs] ->].
      eexists. reflexivity.
Qed.

(** *** Publishing *)

(** A failed publish whose message says [previously published] is
    reported as a skip and the loop goes on; any other failure of the
    command is thrown on. *)
Theorem already_published_is_skipped (env : Env) (p v : string)
    (flags : list string) (w : world) (e : exn) :
  let cmd := "pnpm publish --access publish " ++ String.concat " " flags in
  let w0 := emit (Log ("Publishing " ++ p ++ "...")) w in
  let w1 := set_files (fst (execSync env cmd (Some (package_root p)) w0))
              (emit (Exec cmd (Some (package_root p))) w0) in
  snd (execSync env cmd (Some (package_root p)) w0) = Throw e ->
  publishPackage env p v flags w =
    if occursb (txt "previously published") (txt (message e))
    then (emit (Log ("Skipping already published: " ++ p)) w1, Val tt)
    else (w1, Throw e).
Proof.
  intros cmd w0 w1 H.
  unfold publishPackage, step, try_catch. unfold bind at 1. cbn [tell].
  fold w0. unfold bind. fold cmd. rewrite run_eq. fold w1. rewrite H.
  unfold re_previously_published.
  destruct (occursb (txt "previously published") (txt (message e))) eqn:E.
  - destruct (exec_lit_present _ _ E) as [x ->]. reflexivity.
  - rewrite (exec_lit_absent _ _ E). reflexivity.
Qed.

Lemma already_published_is_skipped_witness :
  let env :=
    {| positionals := []; dry := false; GITHUB_TOKEN := None;
       readdir_packages := Val [];
       is_directory := fun _ => Val true;
       execSync := fun _ _ w =>
         (files w,
          Throw (Failure "You cannot publish over the previously published versions"));
       fetch_sha := fun _ _ => Val None;
       confirm := fun _ _ => Val true;
       select := fun _ _ => Val "custom";
       input := fun _ _ => Val "";
       semver_valid := fun _ => true;
       semver_inc := fun _ _ => None;
       json_parse := ReleaseSamples.parse_known;
       json_stringify := ReleaseSamples.stringify;
       write_fails := fun _ _ _ => None;
       regexp_exec_other := fun _ _ => Val None;
       open_url := fun _ _ _ => None;
       create_release := fun _ _ _ => None |} in
  snd (publishPackage env "react" "2.0.0" [] (start ∅)) = Val tt.
Proof.
  intros env.
  rewrite (already_published_is_skipped env "react" "2.0.0" [] (start ∅)
             (Failure "You cannot publish over the previously published versions")
             eq_refl).
  reflexivity.
Defined.

(** *** Returning before the release *)

(** The remote check never throws: whatever fails inside it is caught
    and answered with false. *)
Theorem remote_check_never_throws (env : Env) (w : world) :
  exists b, snd (isInSyncWithRemote env w) = Val b.
Proof.
  unfold isInSyncWithRemote, try_catch.
  match goal with |- context [match ?c w with _ => _ end] =>
    destruct (c w) as [w1 [b|e]] end.
  - exists b. reflexivity.
  - exists false. reflexivity.
Qed.

(** When [main] returns before a version is chosen (wrong branch, remote
    check failed or declined), the process ends with status 0, and the
    run has only printed, asked, and queried git and the remote. *)
Theorem early_return_is_silent_success (env : Env) (g : globals) (w : world) :
  snd (resolveVersion env g w) = Val None ->
  release env g w = {| final := fst (resolveVersion env g w); status := 0 |}
  /\ exists evs,
       trace (fst (resolveVersion env g w)) = (trace w ++ evs)%list
       /\ forallb read_only_event evs = true.
Proof.
  intros H. split.
  - unfold release. rewrite main_split. unfold bind.
    destruct (resolveVersion env g w) as [w1 r]. cbn [snd] in H. subst r.
    reflexivity.
  - exact (proj1 (resolveVersion_quiet env g w)).
Qed.

Lemma early_return_is_silent_success_witness :
  let env :=
    {| positionals := ["2.0.0"]; dry := false; GITHUB_TOKEN := None;
       readdir_packages := Val [];
       is_directory := fun _ => Val true;
       execSync := fun _ _ w => (files w, Val "feature/icons");
       fetch_sha := fun _ _ => Val None;
       confirm := fun _ _ => Val true;
       select := fun _ _ => Val "custom";
       input := fun _ _ => Val "";
       semver_valid := fun _ => true;
       semver_inc := fun _ _ => None;
       json_parse := ReleaseSamples.parse_known;
       json_stringify := ReleaseSamples.stringify;
       write_fails := fun _ _ _ => None;
       regexp_exec_other := fun _ _ => Val None;
       open_url := fun _ _ _ => None;
       create_release := fun _ _ _ => None |} in
  status (release env ReleaseSamples.loaded (start ReleaseSamples.workspace)) = 0.
Proof.
  intros env.
  assert (H : snd (resolveVersion env ReleaseSamples.loaded
                     (start ReleaseSamples.workspace)) = Val None)
    by (vm_compute; reflexivity).
  rewrite (proj1 (early_return_is_silent_success env ReleaseSamples.loaded
                    (start ReleaseSamples.workspace) H)).
  reflexivity.
Defined.


(** On any branch but [main], [main] prints one error and returns: the
    trace is the branch query followed by that message, and nothing else
    is run. *)
Theorem wrong_branch_stops_at_once (env : Env) (g : globals) (w : world)
    (out : string) :
  snd (execSync env "git branch --show-current" None w) = Val out ->
  String.eqb (trim out) "main" = false ->
  main env g w =
    (emit (LogError "Can only be published on the main branch.")
       (set_files (fst (execSync env "git branch --show-current" None w))
          (emit (Exec "git branch --show-current" None) w)),
     Val tt).
Proof.
  intros Hout Hne. unfold main, isMainBranch, bind.
  rewrite run_eq, Hout. cbn [ret]. rewrite Hne. reflexivity.
Qed.

Lemma wrong_branch_stops_at_once_witness :
  let env :=
    {| positionals := ["2.0.0"]; dry := false; GITHUB_TOKEN := None;
       readdir_packages := Val [];
       is_directory := fun _ => Val true;
       execSync := fun _ _ w => (files w, Val "feature/icons");
       fetch_sha := fun _ _ => Val None;
       confirm := fun _ _ => Val true;
       select := fun _ _ => Val "custom";
       input := fun _ _ => Val "";
       semver_valid := fun _ => true;
       semver_inc := fun _ _ => None;
       json_parse := ReleaseSamples.parse_known;
       json_stringify := ReleaseSamples.stringify;
       write_fails := fun _ _ _ => None;
       regexp_exec_other := fun _ _ => Val None;
       open_url := fun _ _ _ => None;
       create_release := fun _ _ _ => None |} in
  trace (fst (main env ReleaseSamples.loaded (start ∅)))
  = [ Exec "git branch --show-current" None;
      LogError "Can only be published on the main branch." ].
Proof.
  intros env.
  rewrite (wrong_branch_stops_at_once env ReleaseSamples.loaded (start ∅)
             "feature/icons" eq_refl eq_refl).
  reflexivity.
Defined.

(** A remote address in which [github.com/] does not occur (an SSH
    address with a colon, another host) cannot be parsed: the remote
    check logs its failure and answers false, so the release never
    starts. *)
Theorem remote_without_github_path_fails_the_check (env : Env) (w : world)
    (remote : string) :
  snd (execSync env "git remote get-url origin" None w) = Val remote ->
  occursb (txt "github.com/") (txt (trim remote)) = false ->
  isInSyncWithRemote env w =
    (emit (LogError "Failed to check whether local HEAD is up-to-date with remote.")
       (set_files (fst (execSync env "git remote get-url origin" None w))
          (emit (Exec "git remote get-url origin" None) w)),
     Val false).
Proof.
  intros Hout Hocc.
  unfold isInSyncWithRemote, try_catch, getRepoInfo. unfold bind at 1 2.
  rewrite run_eq, Hout.
  change re_remote with
    (Cat (Lit (txt "github.com/"))
       (Build.cat [ Cap 1 (Rep true 1 (is_not "/")); Lit (txt "/");
                    Cap 2 (Rep false 1 (is_not "/"));
                    Opt (Lit (txt ".git")); Eoi ])).
  rewrite (exec_needs_literal _ _ _ Hocc). reflexivity.
Qed.

Lemma remote_without_github_path_fails_the_check_witness :
  let env :=
    {| positionals := ["2.0.0"]; dry := false; GITHUB_TOKEN := None;
       readdir_packages := Val [];
       is_directory := fun _ => Val true;
       execSync := fun _ _ w =>
         (files w, Val ("git@github.com:owner/skill-icons.git" ++ nl));
       fetch_sha := fun _ _ => Val None;
       confirm := fun _ _ => Val true;
       select := fun _ _ => Val "custom";
       input := fun _ _ => Val "";
       semver_valid := fun _ => true;
       semver_inc := fun _ _ => None;
       json_parse := ReleaseSamples.parse_known;
       json_stringify := ReleaseSamples.stringify;
       write_fails := fun _ _ _ => None;
       regexp_exec_other := fun _ _ => Val None;
       open_url := fun _ _ _ => None;
       create_release := fun _ _ _ => None |} in
  snd (isInSyncWithRemote env (start ∅)) = Val false.
Proof.
  intros env.
  rewrite (remote_without_github_path_fails_the_check env (start ∅)
             ("git@github.com:owner/skill-icons.git" ++ nl)
             eq_refl eq_refl).
  reflexivity.
Defined.

(** Outside a dry run, a release whose notes were found is created in
    exactly one way: through the API when a non-empty token is set,
    otherwise by opening the pre-filled page in the browser. *)
Theorem release_goes_to_api_or_browser (env : Env) (v : string)
    (w w1 : world) :
  dry env = false ->
  publishGitHubRelease env v w = (w1, Val tt) ->
  exists notes,
    trace w1
    = (trace w
       ++ [ Exec "git remote get-url origin" None;
            if token_present env then CreateRelease ("v" ++ v) notes
            else OpenUrl ("v" ++ v) notes ])%list.
Proof.
  unfold publishGitHubRelease. intros Hdry H.
  apply bind_val_inv in H as (w2 & [owner repo] & Hinfo & H).
  apply getRepoInfo_inv in Hinfo.
  apply bind_val_inv in H as (w3 & changelog & Hread & H).
  assert (w3 = w2) as ->.
  { unfold readFile in Hread.
    destruct (files w2 !! changelog_path) as [c|]; congruence. }
  apply bind_val_inv in H as (w4 & found & Hfound & H).
  assert (w4 = w2) as -> by (unfold lift in Hfound; congruence).
  destruct found as [notes|]; [|discriminate H].
  rewrite Hdry in H. exists notes.
  destruct (token_present env); cbn [negb] in H;
    apply bind_val_inv in H as (w5 & [] & Ht & H); injection Ht as <-;
    [ destruct (create_release env _ _ _) | destruct (open_url env _ _ _) ];
    try discriminate H; injection H as <-;
    cbn [emit trace]; rewrite Hinfo, <- app_assoc; reflexivity.
Qed.

Lemma release_goes_to_api_or_browser_witness :
  let env := ReleaseSamples.release_2_0_0 "" false true "" in
  let fs := <[ "CHANGELOG.md" := ReleaseSamples.changelog_2_0_0 ]>
              ReleaseSamples.workspace in
  exists notes,
    trace (fst (publishGitHubRelease env "2.0.0" (start fs)))
    = [ Exec "git remote get-url origin" None; OpenUrl "v2.0.0" notes ].
Proof.
  intros env fs.
  assert (H : publishGitHubRelease env "2.0.0" (start fs)
              = (fst (publishGitHubRelease env "2.0.0" (start fs)), Val tt))
    by (vm_compute; reflexivity).
  destruct (release_goes_to_api_or_browser env "2.0.0" (start fs) _
              eq_refl H) as [notes Hn].
  exists notes. exact Hn.
Defined.


(** *** Choosing the version *)

Lemma txt_app (a b : string) : txt (a ++ b) = (txt a ++ txt b)%list.
Proof.
  unfold txt. induction a as [|c a IH]; [reflexivity|].
  simpl. f_equal. exact IH.
Qed.

Lemma str_txt (s : string) : str (txt s) = s.
Proof. apply string_of_list_ascii_of_string. Qed.

(** A non-empty version given on the command line is used as it is,
    without any prompt. *)
Theorem positional_version_is_used (env : Env) (g : globals) (w : world)
    (c : ascii) (v : string) (others : list string) :
  positionals env = String c v :: others ->
  selectVersion env g w = (w, Val (String c v)).
Proof. unfold selectVersion. intros ->. reflexivity. Qed.

Lemma positional_version_is_used_witness :
  selectVersion (ReleaseSamples.release_2_0_0 "" false true "")
    ReleaseSamples.loaded (start ∅)
  = (start ∅, Val "2.0.0").
Proof.
  exact (positional_version_is_used
           (ReleaseSamples.release_2_0_0 "" false true "")
           ReleaseSamples.loaded (start ∅) "2" ".0.0" [] eq_refl).
Defined.

(** What is between the parentheses of a choice is read back: the text
    after the first opening parenthesis, up to the last closing one. *)
Lemma parens_read_back (label v : text) :
  no_match_before re_parens (length label)
    (label ++ txt "(" ++ v ++ txt ")")%list = true ->
  forallb dot v = true ->
  exec re_parens (label ++ txt "(" ++ v ++ txt ")")%list
  = Some (label, [], [(1, v)]).
Proof.
  intros Hpre Hdot. apply forallb_Forall in Hdot.
  apply exec_prefix; [apply no_match_before_spec; exact Hpre|].
  unfold match_here, re_parens. cbn [Build.cat m].
  rewrite starts_with_app, drop_app_length.
  replace (v ++ txt ")")%list with (v ++ txt ")" ++ [])%list
    by (rewrite app_nil_r; reflexivity).
  rewrite (rep_greedy_last _ _ v (txt ")") [] ([], [(1, v)])).
  - reflexivity.
  - exact Hdot.
  - repeat constructor.
  - exact I.
  - intros j Hj. change (length (txt ")")) with 1 in Hj.
    assert (j = 1) as -> by lia. reflexivity.
  - cbn. unfold accept. rewrite length_app. cbn [length].
    replace (length v + 1 - 1) with (length v) by lia.
    rewrite take_app_length. reflexivity.
Qed.

(** Choosing one of the three suggested bumps gives the version that was
    computed for it: the choice is printed as [type (version)] and the
    version is read back from between the parentheses. *)
Theorem chosen_bump_is_read_back (env : Env) (g : globals) (w : world)
    (i v : string) :
  head (positionals env) = None ->
  In i releaseTypes ->
  inc env g i = Some v ->
  select env (choices env g) (emit (Prompt "Select release type") w)
    = Val (i ++ " (" ++ v ++ ")") ->
  forallb dot (txt v) = true ->
  In (i ++ " (" ++ v ++ ")") (choices env g)
  /\ selectVersion env g w = (emit (Prompt "Select release type") w, Val v).
Proof.
  intros Hpos Hi Hinc Hsel Hdot. split.
  - unfold choices. apply in_or_app. left.
    apply in_map_iff. exists i. rewrite Hinc. split; [reflexivity | exact Hi].
  - unfold selectVersion. rewrite Hpos. unfold bind. rewrite ask_eq, Hsel.
    assert (Hparse : forall label : string,
      no_match_before re_parens (length (txt label ++ txt " ")%list)
        ((txt label ++ txt " ") ++ txt "(" ++ txt v ++ txt ")")%list = true ->
      exec re_parens (txt (label ++ " (" ++ v ++ ")"))
      = Some ((txt label ++ txt " ")%list, [], [(1, txt v)])).
    { intros label Hl. rewrite <- (parens_read_back _ _ Hl Hdot).
      f_equal. rewrite !txt_app, <- !app_assoc. reflexivity. }
    destruct Hi as [<-|[<-|[<-|[]]]]; cbn [String.eqb Ascii.eqb Bool.eqb];
      (rewrite Hparse by reflexivity); cbn [cap_get Nat.eqb default];
      unfold id; rewrite str_txt; reflexivity.
Qed.

Lemma chosen_bump_is_read_back_witness :
  let env :=
    {| positionals := []; dry := false; GITHUB_TOKEN := None;
       readdir_packages := Val [];
       is_directory := fun _ => Val true;
       execSync := fun _ _ w => (files w, Val "");
       fetch_sha := fun _ _ => Val None;
       confirm := fun _ _ => Val true;
       select := fun _ _ => Val "minor (1.3.0)";
       input := fun _ _ => Val "";
       semver_valid := fun _ => true;
       semver_inc := fun _ release =>
         if String.eqb release "minor" then Some "1.3.0" else None;
       json_parse := ReleaseSamples.parse_known;
       json_stringify := ReleaseSamples.stringify;
       write_fails := fun _ _ _ => None;
       regexp_exec_other := fun _ _ => Val None;
       open_url := fun _ _ _ => None;
       create_release := fun _ _ _ => None |} in
  snd (selectVersion env
         {| currentVersion := Some (JStr "1.2.3"); packages := [] |}
         (start ∅))
  = Val "1.3.0".
Proof.
  intros env.
  assert (Hi : In "minor" releaseTypes) by (right; left; reflexivity).
  destruct (chosen_bump_is_read_back env
              {| currentVersion := Some (JStr "1.2.3"); packages := [] |}
              (start ∅) "minor" "1.3.0" eq_refl Hi eq_refl eq_refl eq_refl)
    as [_ H].
  rewrite H. reflexivity.
Defined.


(** *** Reading the remote address *)

Lemma rep_lazy_first_from (p : ascii -> bool)
    (k : text -> option Regex.result) (u v : text) (res : Regex.result) :
  forall lo,
    Forall (fun c => p c = true) u -> lo <= length u ->
    (forall j, lo <= j < length u -> k (drop j (u ++ v)%list) = None) ->
    k v = Some res ->
    rep_lazy p k lo (u ++ v)%list = Some res.
Proof.
  induction u as [|c u IH]; intros lo Hu Hlo Hnone Hk.
  - simpl in Hlo. assert (lo = 0) as -> by lia.
    destruct v; simpl; rewrite Hk; reflexivity.
  - inversion Hu as [|? ? Hc Hu']; subst.
    cbn [app rep_lazy].
    assert (Hfirst : (if Nat.eqb lo 0 then k (c :: (u ++ v)%list) else None)
                     = None).
    { destruct (Nat.eqb lo 0) eqn:E; [|reflexivity].
      apply Nat.eqb_eq in E. subst lo.
      apply (Hnone 0). simpl. lia. }
    rewrite Hfirst, Hc.
    apply IH; [assumption | simpl in Hlo; lia | | assumption].
    intros j Hj. apply (Hnone (S j)). simpl. lia.
Qed.

Lemma remote_match (owner repo : text) :
  Forall (fun c => is_not "/" c = true) owner ->
  Forall (fun c => is_not "/" c = true) repo ->
  1 <= length owner -> 1 <= length repo ->
  match_here re_remote
    (txt "github.com/" ++ owner ++ txt "/" ++ repo ++ txt ".git")%list
  = Some ([], [(2, repo); (1, owner)]).
Proof.
  intros Ho Hr Hlo Hlr.
  unfold match_here, re_remote. cbn [Build.cat m].
  rewrite starts_with_app, drop_app_length.
  rewrite (rep_greedy_longest _ _ owner (txt "/" ++ repo ++ txt ".git")%list 1
             ([], [(2, repo); (1, owner)]));
    [reflexivity | exact Ho | reflexivity | exact Hlo |].
  rewrite starts_with_app, drop_app_length.
  rewrite (rep_lazy_first_from _ _ repo (txt ".git")
             ([], [(2, repo); (1, owner)]) 1);
    [reflexivity | exact Hr | exact Hlr | |].
  - intros j Hj. rewrite drop_app_le by lia.
    destruct (drop j repo) as [|x r] eqn:E.
    { apply (f_equal length) in E. rewrite length_drop in E. simpl in E. lia. }
    cbn [app].
    destruct (starts_with (txt ".git") (x :: (r ++ txt ".git")%list)) eqn:Es;
      [|reflexivity].
    change (length (txt ".git")) with 4.
    destruct (drop 4 (x :: (r ++ txt ".git")%list)) as [|y rest] eqn:Ed;
      [|reflexivity].
    apply (f_equal length) in Ed. rewrite length_drop in Ed.
    cbn [length] in Ed. rewrite length_app in Ed. simpl in Ed. lia.
  - cbn. unfold accept.
    repeat first [rewrite length_app | progress cbn [length]].
    replace (length repo + 4 - 4) with (length repo) by lia.
    replace (length owner + S (length repo + 4) - S (length repo + 4))
      with (length owner) by lia.
    rewrite !take_app_length. reflexivity.
Qed.

(** An address that ends in [github.com/OWNER/REPO.git] is read as that
    owner and that repository, the suffix [.git] dropped. *)
Theorem github_remote_is_parsed (env : Env) (w : world) (out : string)
    (pre owner repo : text) :
  snd (execSync env "git remote get-url origin" None w) = Val out ->
  txt (trim out)
    = (pre ++ txt "github.com/" ++ owner ++ txt "/" ++ repo ++ txt ".git")%list ->
  no_match_before re_remote (length pre) (txt (trim out)) = true ->
  forallb (is_not "/") (owner ++ repo)%list = true ->
  head_is any_char owner = true -> head_is any_char repo = true ->
  snd (getRepoInfo env w) = Val (str owner, str repo).
Proof.
  intros Hout Htxt Hpre Hslash Ho Hr.
  apply forallb_Forall in Hslash. apply Forall_app in Hslash as [Hso Hsr].
  assert (Hlo : 1 <= length owner) by (destruct owner; [discriminate|simpl; lia]).
  assert (Hlr : 1 <= length repo) by (destruct repo; [discriminate|simpl; lia]).
  unfold getRepoInfo, bind. rewrite run_eq, Hout.
  rewrite Htxt in Hpre |- *.
  rewrite (exec_prefix _ pre _ [] [(2, repo); (1, owner)]).
  - reflexivity.
  - apply no_match_before_spec. exact Hpre.
  - apply remote_match; assumption.
Qed.

Lemma github_remote_is_parsed_witness :
  snd (getRepoInfo (ReleaseSamples.release_2_0_0 "" false true "") (start ∅))
  = Val ("owner", "skill-icons").
Proof.
  exact (github_remote_is_parsed
           (ReleaseSamples.release_2_0_0 "" false true "") (start ∅)
           ("https://github.com/owner/skill-icons.git" ++ nl)
           (txt "https://") (txt "owner") (txt "skill-icons")
           eq_refl eq_refl eq_refl eq_refl eq_refl eq_refl).
Defined.

End ReleaseMore.
